(** * build_rates.py: the daily builder of Uzbek banks' exchange rates

    A shallow embedding of [tools/build_rates.py], the properties its
    specification states about it, and further properties of the code:
    of the normalizer of numbers, of the adapters' loop over their
    addresses, of the debug files, of the reference fallback, of the
    command line and of the headers of a request.

    Conventions of the embedding.
    - A Python [str] is the list of its code points ([list N]).
    - A Python [float] is held as a rational number ([Q], always kept in
      lowest terms through [Qred], so that Leibniz equality is numeric
      equality) that stands for the double nearest to it: [float] of a
      text is held as the number the text spells and [round] as the
      decimal it rounds to, both of which Python reads to the nearest
      double.  The arithmetic of floats ([sum], [/], [round]) is done on
      the doubles its operands stand for, each result rounded to the
      nearest double, ties to even (IEEE 754 binary64).  The two zeros
      are one number; infinities and NaN are outside the model: the
      theorem on the means takes the sums within the finite doubles.
    - A call that may raise returns a [result]; [try ... except Exception]
      is a [match] on it.
    - The Unicode tables the program consults through [str.strip], [\s] and
      [\d] are transcribed (Unicode 14, the tables of CPython 3.11);
      [str.upper], [str.isalpha] and [float] on decoded JSON are taken as
      parameters of the sections that use them.
    - The network, the parser of pages and the file system are the fields
      of a [world]; of [fetch_html] the computation of the headers is
      modelled, [random.randint] being a parameter of it.  The session of
      [_sess] and the encoder of [json.dump] belong to the libraries and
      are not modelled further. *)

From Stdlib Require Import List NArith ZArith QArith Qabs Qround Qreduction.
From Stdlib Require Import Qpower Bool Lia Lqa String Ascii Sorted Permutation.
Import ListNotations.

Set Implicit Arguments.

(* ================================================================== *)
(** * Python strings *)
(* ================================================================== *)

Module Py.

Definition str := list N.

Definition str_eqb (a b : str) : bool :=
  if list_eq_dec N.eq_dec a b then true else false.

(** UTF-8 decoding of a Rocq string literal, to write Python literals as
    they stand in the source ([lit "USD"], [lit "Покупка"]). *)
Fixpoint utf8 (bs : list N) (fuel : nat) : str :=
  match fuel with
  | O => []
  | S fuel =>
    match bs with
    | [] => []
    | b :: r =>
      if (b <? 128)%N then b :: utf8 r fuel
      else if (b <? 224)%N then
        match r with
        | b1 :: r' => ((b - 192) * 64 + (b1 - 128))%N :: utf8 r' fuel
        | _ => []
        end
      else if (b <? 240)%N then
        match r with
        | b1 :: b2 :: r' =>
          ((b - 224) * 4096 + (b1 - 128) * 64 + (b2 - 128))%N :: utf8 r' fuel
        | _ => []
        end
      else
        match r with
        | b1 :: b2 :: b3 :: r' =>
          ((b - 240) * 262144 + (b1 - 128) * 4096 + (b2 - 128) * 64
           + (b3 - 128))%N :: utf8 r' fuel
        | _ => []
        end
    end
  end.

Definition lit (s : string) : str :=
  let bs := map (fun a => N_of_ascii a) (list_ascii_of_string s) in
  utf8 bs (List.length bs).

Arguments lit : simpl never.

(** ** Character classes *)

Definition in_range (c lo hi : N) : bool := ((lo <=? c) && (c <=? hi))%N.

(** [Py_UNICODE_ISSPACE]: what [str.strip()] removes and [\s] matches. *)
Definition isspace (c : N) : bool :=
  existsb (fun r => in_range c (fst r) (snd r))
    [(9, 13); (28, 32); (133, 133); (160, 160); (5760, 5760); (8192, 8202);
     (8232, 8233); (8239, 8239); (8287, 8287); (12288, 12288)]%N.

(** The code points of the digit zero of every decimal script (category
    Nd); the nine that follow each are its digits one to nine. *)
Definition decimal_zeros : list N :=
  [48; 1632; 1776; 1984; 2406; 2534; 2662; 2790; 2918; 3046; 3174; 3302;
   3430; 3558; 3664; 3792; 3872; 4160; 4240; 6112; 6160; 6470; 6608; 6784;
   6800; 6992; 7088; 7232; 7248; 42528; 43216; 43264; 43472; 43504; 43600;
   44016; 65296; 66720; 68912; 69734; 69872; 69942; 70096; 70384; 70736;
   70864; 71248; 71360; 71472; 71904; 72016; 72784; 73040; 73120; 92768;
   92864; 93008; 120782; 120792; 120802; 120812; 120822; 123200; 123632;
   125264; 130032]%N.

(** [Py_UNICODE_TODECIMAL]: the value of a decimal digit. *)
Definition todecimal (c : N) : option N :=
  match find (fun z => in_range c z (z + 9)) decimal_zeros with
  | Some z => Some (c - z)%N
  | None => None
  end.

(** [\d] *)
Definition isdecimal (c : N) : bool :=
  match todecimal c with Some _ => true | None => false end.

Arguments todecimal : simpl never.
Arguments isdecimal : simpl never.
Arguments isspace : simpl never.

(** ** Methods of [str] *)

Fixpoint lstrip (x : str) : str :=
  match x with
  | c :: r => if isspace c then lstrip r else x
  | [] => []
  end.

Definition rstrip (x : str) : str := rev (lstrip (rev x)).

Definition strip (x : str) : str := rstrip (lstrip x).

(** [x.replace(old, new)] for a one-character [old]. *)
Definition replace (old : N) (new : str) (x : str) : str :=
  flat_map (fun c => if (c =? old)%N then new else [c]) x.

(** [x.startswith(p)] *)
Fixpoint startswith (p x : str) : bool :=
  match p, x with
  | [], _ => true
  | a :: p', b :: x' => (a =? b)%N && startswith p' x'
  | _ :: _, [] => false
  end.

(** [x.replace(old, new)] for a text [old] that is not empty: the
    occurrences are taken from the left and do not overlap.  [skip] counts
    the characters of an occurrence still to be passed over. *)
Fixpoint replace_from (old new : str) (skip : nat) (x : str) : str :=
  match x with
  | [] => []
  | c :: x' =>
    match skip with
    | S n => replace_from old new n x'
    | O =>
      if startswith old x
      then new ++ replace_from old new (List.length old - 1)%nat x'
      else c :: replace_from old new 0%nat x'
    end
  end.

Definition replace_text (old new x : str) : str := replace_from old new 0%nat x.

(** The decimal digits of [n], the last one first, [fuel] of them at most. *)
Fixpoint digits_of (fuel : nat) (n : N) : str :=
  match fuel with
  | O => []
  | S fuel' =>
    ((48 + n mod 10)%N
     :: (if (n / 10 =? 0)%N then [] else digits_of fuel' (n / 10)%N))
  end.

(** [str(n)] for an [int] that is not negative. *)
Definition str_of_int (n : N) : str :=
  rev (digits_of (S (N.to_nat (N.log2 n))) n).

(** ** The fragment of [re] the program uses *)

Inductive re : Type :=
  | Bos                          (* ^ *)
  | Eos                          (* $ *)
  | Cls (p : N -> bool)          (* a class: \d, [.,], a literal *)
  | Star (p : N -> bool)         (* p* , greedy *)
  | Opt (r : re)                 (* r? , greedy *)
  | Seq (r1 r2 : re)
  | Alt (r1 r2 : re).            (* r1|r2 , r1 first *)

Definition Plus (p : N -> bool) : re := Seq (Cls p) (Star p).

Section Matcher.
Variable A : Type.

(** Greedy repetition with backtracking: the longest run is tried first,
    then shorter ones. *)
Fixpoint star (p : N -> bool) (k : nat -> str -> option A)
         (pos : nat) (s : str) : option A :=
  match s with
  | c :: s' =>
    if p c then
      match star p k (S pos) s' with
      | Some a => Some a
      | None => k pos s
      end
    else k pos s
  | [] => k pos s
  end.

(** [rmatch r k pos s]: match [r] at offset [pos], where [s] is the text
    from [pos] on, and hand the rest to [k]; the first success in the
    order of [re]'s backtracking is the result. *)
Fixpoint rmatch (r : re) (k : nat -> str -> option A)
         (pos : nat) (s : str) : option A :=
  match r with
  | Bos => if Nat.eqb pos 0 then k pos s else None
  | Eos =>
    match s with
    | [] => k pos s
    | [c] => if (c =? 10)%N then k pos s else None
    | _ => None
    end
  | Cls p =>
    match s with
    | c :: s' => if p c then k (S pos) s' else None
    | [] => None
    end
  | Star p => star p k pos s
  | Opt r1 =>
    match rmatch r1 k pos s with
    | Some a => Some a
    | None => k pos s
    end
  | Seq r1 r2 => rmatch r1 (rmatch r2 k) pos s
  | Alt r1 r2 =>
    match rmatch r1 k pos s with
    | Some a => Some a
    | None => rmatch r2 k pos s
    end
  end.
End Matcher.

(** The text matched at offset [pos], if any. *)
Definition match_at (r : re) (pos : nat) (s : str) : option str :=
  match rmatch r (fun e _ => Some e) pos s with
  | Some e => Some (firstn (e - pos) s)
  | None => None
  end.

Fixpoint search_from (r : re) (pos : nat) (s : str) : option str :=
  match match_at r pos s with
  | Some m => Some m
  | None =>
    match s with
    | [] => None
    | _ :: s' => search_from r (S pos) s'
    end
  end.

(** [re.search(r, x)]: the leftmost match, as [m.group(0)]. *)
Definition search (r : re) (x : str) : option str := search_from r 0 x.

(** ** [float] on text *)

Fixpoint span_digits (x : str) : list N * str :=
  match x with
  | c :: r =>
    match todecimal c with
    | Some d => let (ds, rest) := span_digits r in (d :: ds, rest)
    | None => ([], x)
    end
  | [] => ([], [])
  end.

Definition of_digits (ds : list N) : N :=
  fold_left (fun acc d => (10 * acc + d)%N) ds 0%N.

(** [float(x)] for text made of a sign, decimal digits, a point and
    blanks, which is all [_num] passes to it: blanks around the number
    are dropped, at least one digit is needed, and anything left over is a
    [ValueError] ([None]).  Exponents, [inf], [nan] and digit-grouping
    underscores need characters that text never holds. *)
Definition float (x : str) : option Q :=
  let x := strip x in
  let '(neg, x) :=
    match x with
    | c :: r =>
      if (c =? 45)%N then (true, r)             (* - *)
      else if (c =? 43)%N then (false, r)       (* + *)
      else (false, x)
    | [] => (false, x)
    end in
  let '(ip, r1) := span_digits x in
  let '(fp, r2) :=
    match r1 with
    | c :: r => if (c =? 46)%N then span_digits r else ([], r1)
    | [] => ([], r1)
    end in
  match r2, ip ++ fp with
  | [], _ :: _ =>
    let m := Z.of_N (of_digits (ip ++ fp)) in
    Some (Qred (Qmake (if neg then - m else m)
                      (Z.to_pos (10 ^ Z.of_nat (List.length fp)))))
  | _, _ => None
  end.

(** ** Numbers *)

(** The nearest integer, ties to the even one. *)
Definition round_half_even (q : Q) : Z :=
  let f := Qfloor q in
  match Qcompare (q - inject_Z f) (1 # 2) with
  | Lt => f
  | Gt => (f + 1)%Z
  | Eq => if Z.even f then f else (f + 1)%Z
  end.

(** [2 ** e] *)
Definition pow2 (e : Z) : Q :=
  if (0 <=? e)%Z then inject_Z (2 ^ e) else 1 / inject_Z (2 ^ (- e)).

(** The exponent of the leading binary digit of [q], which is not zero:
    [pow2 (ilog2 q) <= |q| < pow2 (ilog2 q + 1)].  The difference of the
    two logarithms is that exponent or one more. *)
Definition ilog2 (q : Q) : Z :=
  let k := (Z.log2 (Z.abs (Qnum q)) - Z.log2 (Zpos (Qden q)))%Z in
  if Qle_bool (pow2 k) (Qabs q) then k else (k - 1)%Z.

(** The double (IEEE 754 binary64) nearest to [q], ties to the even
    significand: 53 binary digits from the leading one, and none below
    [2 ** -1074] (the subnormal doubles).  A float is held as a rational
    that stands for [binary64] of it. *)
Definition binary64 (q : Q) : Q :=
  if Qeq_bool q 0 then 0
  else
    let e := Z.max (ilog2 q - 52) (-1074) in
    Qred (inject_Z (round_half_even (q / pow2 e)) * pow2 e).

(** [x + y] and [x / y] on floats: the exact result of the operation on
    the two doubles, rounded to the nearest double.  An [int] operand is
    converted to the nearest double in the same way.  The one division of
    the program is by the length of a list that is never empty, so that
    [ZeroDivisionError] (here: [0]) does not arise. *)
Definition fadd (x y : Q) : Q := binary64 (binary64 x + binary64 y).

Definition truediv (x y : Q) : Q := binary64 (binary64 x / binary64 y).

(** [sum(xs)] on floats: from [0], one addition after the other from the
    left (CPython up to 3.11). *)
Definition fsum (xs : list Q) : Q := fold_left fadd xs 0.

(** [round(x, ndigits)] on a float, for [ndigits] that is not negative:
    the decimal with [ndigits] digits after the point nearest to the
    double, ties to the even digit, which [round] reads back as a float;
    beyond 323 digits the float itself. *)
Definition round (x : Q) (ndigits : nat) : Q :=
  if (323 <? ndigits)%nat then binary64 x
  else
    let scale := inject_Z (10 ^ Z.of_nat ndigits) in
    Qred (inject_Z (round_half_even (binary64 x * scale)) / scale).

(** [l[i]], a negative [i] counting from the end.  Every use below is
    guarded by a test of [len(l)], so that [IndexError] (here: [0]) does
    not arise. *)
Definition getitem (l : list Q) (i : Z) : Q :=
  let n := Z.of_nat (List.length l) in
  nth (Z.to_nat (if (i <? 0)%Z then n + i else i)) l 0.

(** [[x for x in l if x is not None]] *)
Fixpoint not_none (A : Type) (l : list (option A)) : list A :=
  match l with
  | Some x :: r => x :: not_none r
  | None :: r => not_none r
  | [] => []
  end.

(** ** Ordering of [str], [sorted] *)

Fixpoint str_ltb (a b : str) : bool :=
  match a, b with
  | [], [] => false
  | [], _ :: _ => true
  | _ :: _, [] => false
  | x :: a', y :: b' =>
    if (x <? y)%N then true else if (y <? x)%N then false else str_ltb a' b'
  end.

Section Sorted.
Variable A : Type.
Variable key : A -> str.

(** [x] goes before the first element whose key is greater: equal keys
    keep their order, as in Python's stable sort. *)
Fixpoint insert (x : A) (l : list A) : list A :=
  match l with
  | [] => [x]
  | y :: r => if str_ltb (key x) (key y) then x :: l else y :: insert x r
  end.

(** [sorted(l, key=key)] *)
Definition sorted (l : list A) : list A :=
  fold_left (fun acc x => insert x acc) l [].
End Sorted.

(** ** [dict]: keys in insertion order *)

Section Dict.
Variable V : Type.

Definition dict := list (str * V).

(** [d.get(k)] *)
Fixpoint dict_get (d : dict) (k : str) : option V :=
  match d with
  | [] => None
  | (k', v) :: d' => if str_eqb k' k then Some v else dict_get d' k
  end.

(** [d[k] = v]: a known key keeps its place. *)
Fixpoint dict_set (d : dict) (k : str) (v : V) : dict :=
  match d with
  | [] => [(k, v)]
  | (k', v') :: d' =>
    if str_eqb k' k then (k', v) :: d' else (k', v') :: dict_set d' k v
  end.
End Dict.

(** ** Exceptions *)

(** An instance of (a subclass of) [Exception]. *)
Inductive exn : Type := Exception (args : str).

Inductive result (A : Type) : Type :=
  | Return (a : A)
  | Raise (e : exn).
Arguments Return {A} a.
Arguments Raise {A} e.

Definition bind (A B : Type) (m : result A) (f : A -> result B) : result B :=
  match m with
  | Return a => f a
  | Raise e => Raise e
  end.

(** ** Decoded JSON *)

#[local] Unset Elimination Schemes.
Inductive json : Type :=
  | JNone
  | JBool (b : bool)
  | JNum (q : Q)
  | JStr (s : str)
  | JList (l : list json)
  | JDict (d : list (str * json)).
#[local] Set Elimination Schemes.

(** Truth value of an object. *)
Definition truthy (j : json) : bool :=
  match j with
  | JNone => false
  | JBool b => b
  | JNum q => negb (Qeq_bool q 0)
  | JStr s => match s with [] => false | _ => true end
  | JList l => match l with [] => false | _ => true end
  | JDict d => match d with [] => false | _ => true end
  end.

End Py.

Import Py.

(* ================================================================== *)
(** * The numeric normalizer *)
(* ================================================================== *)

Definition minus : N := 45%N.
Definition dot : N := 46%N.
Definition comma : N := 44%N.
Definition space : N := 32%N.
Definition nbsp : N := 160%N.

Definition is_char (a : N) (c : N) : bool := (c =? a)%N.

(** r"^-?\d+(\.\d+)?$" *)
Definition whole_number : re :=
  Seq Bos (Seq (Opt (Cls (is_char minus)))
            (Seq (Plus isdecimal)
               (Seq (Opt (Seq (Cls (is_char dot)) (Plus isdecimal))) Eos))).

(** r"(\d[\d\s]*[.,]\d+|\d+)" *)
Definition embedded_number : re :=
  Alt (Seq (Cls isdecimal)
         (Seq (Star (fun c => isdecimal c || isspace c))
            (Seq (Cls (fun c => is_char dot c || is_char comma c))
               (Plus isdecimal))))
      (Plus isdecimal).

(** [_num]: a cell's text as a number, or [None]. *)
Definition _num (x : str) : option Q :=
  match x with
  | [] => None                                  (* if not x: return None *)
  | _ =>
    let x := replace comma [dot]
               (replace space [] (replace nbsp [space] (strip x))) in
    let m := search whole_number x in
    match m with
    | Some _ => float x
    | None =>
      let m2 := search embedded_number x in
      match m2 with
      | None => None
      | Some g1 =>
        let x := replace comma [dot] (replace space [] g1) in
        float x             (* try: return float(x)  except: return None *)
      end
    end
  end.

(* ================================================================== *)
(** * The data model *)
(* ================================================================== *)

Record Rate : Type := mkRate {
  ccy : str;
  buy : option Q;
  sell : option Q
}.

Record BankRates : Type := mkBankRates {
  bank : str;
  date : str;
  rates : list Rate;
  source_url : str
}.

Definition USD : str := Eval cbv in lit "USD".
Definition EUR : str := Eval cbv in lit "EUR".
Definition RUB : str := Eval cbv in lit "RUB".

(** [CCYS]; a set, of which only membership is used. *)
Definition CCYS : list str :=
  Eval cbv in
    map lit ["USD"; "EUR"; "RUB"; "GBP"; "JPY"; "CHF"; "TRY"; "CNY"; "KZT"]%string.

(** The literal [{"USD","EUR","RUB"}] of the other four adapters, and the
    tuple [("USD","EUR","RUB")] the output is read off in. *)
Definition MAJOR : list str := [USD; EUR; RUB].

Definition mem (x : str) (s : list str) : bool := existsb (str_eqb x) s.

(* ================================================================== *)
(** * The world outside the process *)
(* ================================================================== *)

(** What the adapters read off a parsed page.  A cell is
    [td.get_text(" ", strip=True)] for [td] in [tr.find_all(["td","th"])]. *)
Record soup : Type := mkSoup {
  (** per [table] of [soup.find_all("table")], per [tr] of
      [table.find_all("tr")]: the cells *)
  tables : list (list (list str));
  (** per [tr] of [soup.find_all("tr")]: the cells *)
  trs : list (list str)
}.

Record world : Type := mkWorld {
  (** [date.today().isoformat()] *)
  today : str;
  (** [sys.argv] *)
  argv : list str;
  (** [fetch_html(url)]: the parsed page and its text, or the exception of
      the session, of [raise_for_status] or of the parser *)
  fetch_html : str -> result (soup * str);
  (** the directory and file writes of [save_debug(bank, html)] *)
  write_debug : str -> str -> result unit;
  (** [sess.get(url, timeout=20)], [raise_for_status()], [r.json()] *)
  get_json : str -> result json
}.

Definition TODAY (w : world) : str := today w.

Definition DEBUG (w : world) : bool := mem (lit "--debug") (argv w).

Definition save_debug (w : world) (bank_key html : str) : result unit :=
  if negb (DEBUG w) then Return tt else write_debug w bank_key html.

(** The first two statements under [try:] in every adapter. *)
Definition fetch_page (w : world) (bank_key url : str) : result soup :=
  bind (fetch_html w url) (fun sh =>
  bind (save_debug w bank_key (snd sh)) (fun _ =>
  Return (fst sh))).

(** What [main] does that can be seen from outside, in order.  The pause
    between adapters and the progress lines are not recorded. *)
Inductive event : Type :=
  | Called (fn_name : str)            (* br = fn() *)
  | CalledReference                   (* ref = cbu_reference() *)
  | Wrote (path : str) (text : str).  (* the file, as json.dump left it *)

(** An entry of [ADAPTERS]: the function and its [__name__]. *)
Record adapter : Type := mkAdapter {
  name : str;
  call : world -> result BankRates
}.

(** ** The headers of a request

    What [fetch_html] computes before it goes to the network. *)

(** [HEADERS] *)
Definition HEADERS : dict str :=
  [ (lit "User-Agent",
     lit "Mozilla/5.0 (Windows NT 10.0; Win64; x64) "
     ++ lit "AppleWebKit/537.36 (KHTML, like Gecko) "
     ++ lit "Chrome/120.0.0.0 Safari/537.36");
    (lit "Accept",
     lit "text/html,application/xhtml+xml,application/xml;q=0.9,*/*;q=0.8");
    (lit "Accept-Language", lit "ru-RU,ru;q=0.9,en-US;q=0.8,en;q=0.7");
    (lit "Cache-Control", lit "no-cache");
    (lit "Referer", lit "https://www.google.com/") ].

(** The headers [fetch_html] sends when [random.randint(1000,9999)] is
    [tail]: [hdrs] after the assignment to [hdrs["User-Agent"]]. *)
Definition request_headers (tail : N) : result (dict str) :=
  let hdrs := HEADERS in                             (* dict(HEADERS) *)
  let ua_tail := str_of_int tail in
  match dict_get hdrs (lit "User-Agent") with
  | None => Raise (Exception (lit "KeyError"))
  | Some ua =>
    Return (dict_set hdrs (lit "User-Agent")
              (replace_text (lit "120.0.0.0")
                            (lit "12" ++ ua_tail ++ lit ".0.0") ua))
  end.

(* ================================================================== *)
(** * The program *)
(* ================================================================== *)

Section Program.

(** [str.upper] *)
Variable upper : str -> str.
(** [float(v)] for a decoded JSON value [v]; [None] when it raises *)
Variable float_of : json -> option Q.
(** [Py_UNICODE_ISALPHA], the test [str.isalpha] applies to each character *)
Variable isalpha_char : N -> bool.
(** the text [json.dump(..., ensure_ascii=False, indent=2)] writes for one
    element of the outer list, one level in *)
Variable dump_item : json -> str.

(** ** Pieces of the row loops *)

(** [next((c.upper() for c in cells if c.upper() in known), None)] *)
Definition next_ccy (known cells : list str) : option str :=
  hd_error (filter (fun u => mem u known) (map upper cells)).

(** [nums = [_num(c) for c in cells]; nums = [n for n in nums if n is not None]] *)
Definition numbers (cells : list str) : list Q :=
  let nums := map _num cells in
  not_none nums.

(** [dedup = {r.ccy: r for r in rates}] *)
Definition dedup (rs : list Rate) : dict Rate :=
  fold_left (fun d r => dict_set d (ccy r) r) rs [].

(** [[dedup[c] for c in ("USD","EUR","RUB") if c in dedup]] *)
Definition major (d : dict Rate) : list Rate :=
  flat_map (fun c => match dict_get d c with Some r => [r] | None => [] end)
           MAJOR.

(** ** hamkorbank *)

Definition hamkorbank_urls : list str :=
  map lit ["https://hamkorbank.uz/ru/exchange-rate/";
           "https://hamkorbank.uz/en/exchange-rate/"]%string.

(** The body of [for tr in table.find_all("tr")], on the list [rates]. *)
Definition hamkorbank_row (rs : list Rate) (cells : list str) : list Rate :=
  match cells with
  | [] => rs                                                (* continue *)
  | _ =>
    match next_ccy CCYS cells with
    | None => rs                                            (* continue *)
    | Some c =>
      let nums := numbers cells in
      if 2 <=? List.length nums then
        rs ++ [mkRate c (Some (getitem nums (-2))) (Some (getitem nums (-1)))]
      else rs
    end
  end.

Definition hamkorbank_scan (page : soup) : list Rate :=
  fold_left (fun rs table => fold_left hamkorbank_row table rs)
            (tables page) [].

Fixpoint hamkorbank_loop (w : world) (urls : list str) : option BankRates :=
  match urls with
  | [] => None
  | url :: urls' =>
    match fetch_page w (lit "hamkorbank") url with
    | Raise e => hamkorbank_loop w urls'         (* except Exception: continue *)
    | Return page =>
      match hamkorbank_scan page with
      | [] => hamkorbank_loop w urls'
      | rs =>
        match major (dedup rs) with
        | [] => hamkorbank_loop w urls'
        | mj => Some (mkBankRates (lit "Hamkorbank") (TODAY w) mj url)
        end
      end
    end
  end.

Definition hamkorbank (w : world) : result BankRates :=
  match hamkorbank_loop w hamkorbank_urls with
  | Some br => Return br
  | None =>
    Return (mkBankRates (lit "Hamkorbank") (TODAY w) []
                        (hd [] hamkorbank_urls))
  end.

(** ** kapitalbank *)

Definition kapitalbank_urls : list str :=
  map lit ["https://www.kapitalbank.uz/ru/services/exchange-rates-new/";
           "https://www.kapitalbank.uz/ru/services/exchange-rates/";
           "https://www.kapitalbank.uz/en/services/exchange-rates-new/";
           "https://www.kapitalbank.uz/services/exchange-rates-new/"]%string.

(** [bag.setdefault(c, []).append(r)] *)
Definition bag_add (bag : dict (list Rate)) (c : str) (r : Rate)
  : dict (list Rate) :=
  match dict_get bag c with
  | Some arr => dict_set bag c (arr ++ [r])
  | None => dict_set bag c [r]
  end.

(** The body of [for tr in soup.find_all("tr")], on the dict [bag]. *)
Definition kapitalbank_row (bag : dict (list Rate)) (cells : list str)
  : dict (list Rate) :=
  match cells with
  | [] => bag
  | _ =>
    match next_ccy MAJOR cells with
    | None => bag
    | Some c =>
      let nums := numbers cells in
      if 2 <=? List.length nums then
        bag_add bag c
          (mkRate c (Some (getitem nums 0)) (Some (getitem nums 1)))
      else bag
    end
  end.

(** The body of [for ccy, arr in bag.items()]. *)
Definition kapitalbank_mean (item : str * list Rate) : Rate :=
  let (c, arr) := item in
  let n := inject_Z (Z.of_nat (List.length arr)) in
  let b := truediv (fsum (not_none (map buy arr))) n in
  let s := truediv (fsum (not_none (map sell arr))) n in
  mkRate c (Some (round b 2)) (Some (round s 2)).

Definition kapitalbank_scan (page : soup) : list Rate :=
  let bag := fold_left kapitalbank_row (trs page) [] in
  map kapitalbank_mean bag.

(** The loop over [urls]: what it returned, if it did, and [last]. *)
Fixpoint kapitalbank_loop (w : world) (urls : list str) (last : option exn)
  : option BankRates * option exn :=
  match urls with
  | [] => (None, last)
  | url :: urls' =>
    match fetch_page w (lit "kapitalbank") url with
    | Raise e => kapitalbank_loop w urls' (Some e)   (* last = e; continue *)
    | Return page =>
      match kapitalbank_scan page with
      | [] => kapitalbank_loop w urls' last
      | out =>
        (Some (mkBankRates (lit "Kapitalbank") (TODAY w)
                           (sorted ccy out) url), last)
      end
    end
  end.

Definition kapitalbank (w : world) : result BankRates :=
  match kapitalbank_loop w kapitalbank_urls None with
  | (Some br, _) => Return br
  | (None, Some last) => Raise last                  (* if last: raise last *)
  | (None, None) =>
    Return (mkBankRates (lit "Kapitalbank") (TODAY w) []
                        (hd [] kapitalbank_urls))
  end.

(** ** agrobank, ipakyulibank, tbc_bank_uz

    The three functions are one text, up to the bank's name, the name of
    its debug file and its addresses. *)

(** The body of [for tr in soup.find_all("tr")], on the list [rates]. *)
Definition major_row (rs : list Rate) (cells : list str) : list Rate :=
  match cells with
  | [] => rs
  | _ =>
    match next_ccy MAJOR cells with
    | None => rs
    | Some c =>
      let nums := numbers cells in
      if 2 <=? List.length nums then
        rs ++ [mkRate c (Some (getitem nums 0)) (Some (getitem nums 1))]
      else rs
    end
  end.

Definition major_scan (page : soup) : list Rate :=
  fold_left major_row (trs page) [].

Fixpoint major_loop (bank_name bank_key : str) (w : world) (urls : list str)
  : option BankRates :=
  match urls with
  | [] => None
  | url :: urls' =>
    match fetch_page w bank_key url with
    | Raise e => major_loop bank_name bank_key w urls'
    | Return page =>
      match major_scan page with
      | [] => major_loop bank_name bank_key w urls'
      | rs =>
        match major (dedup rs) with
        | [] => major_loop bank_name bank_key w urls'
        | mj => Some (mkBankRates bank_name (TODAY w) mj url)
        end
      end
    end
  end.

Definition major_adapter (bank_name bank_key : str) (urls : list str)
           (w : world) : result BankRates :=
  match major_loop bank_name bank_key w urls with
  | Some br => Return br
  | None => Return (mkBankRates bank_name (TODAY w) [] (hd [] urls))
  end.

Definition agrobank_urls : list str :=
  map lit ["https://agrobank.uz/ru/person";
           "https://agrobank.uz/ru/individuals";
           "https://agrobank.uz/en/person"]%string.

Definition agrobank : world -> result BankRates :=
  major_adapter (lit "Agrobank") (lit "agrobank") agrobank_urls.

Definition ipakyulibank_urls : list str :=
  map lit ["https://ipakyulibank.uz/ru";
           "https://ipakyulibank.uz/ru/exchange-rates";
           "https://ipakyulibank.uz/ru/individuals/exchange-rates";
           "https://ipakyulibank.uz/en"]%string.

Definition ipakyulibank : world -> result BankRates :=
  major_adapter (lit "Ipak Yuli Bank") (lit "ipakyulibank") ipakyulibank_urls.

Definition tbc_bank_uz_urls : list str :=
  map lit ["https://tbcbank.uz/ru"; "https://tbcbank.uz/en"]%string.

Definition tbc_bank_uz : world -> result BankRates :=
  major_adapter (lit "TBC Bank Uzbekistan") (lit "tbc_bank_uz")
                tbc_bank_uz_urls.

Definition ADAPTERS : list adapter :=
  [ mkAdapter (lit "hamkorbank") hamkorbank;
    mkAdapter (lit "agrobank") agrobank;
    mkAdapter (lit "kapitalbank") kapitalbank;
    mkAdapter (lit "ipakyulibank") ipakyulibank;
    mkAdapter (lit "tbc_bank_uz") tbc_bank_uz ].

(** ** cbu_reference *)

Definition AttributeError : exn := Exception (lit "AttributeError").
Definition KeyError : exn := Exception (lit "KeyError").
Definition TypeError : exn := Exception (lit "TypeError").
Definition ValueError : exn := Exception (lit "ValueError").

(** [for x in data] *)
Definition iterate (data : json) : result (list json) :=
  match data with
  | JList l => Return l
  | JDict d => Return (map (fun kv => JStr (fst kv)) d)
  | JStr s => Return (map (fun c => JStr [c]) s)
  | _ => Raise TypeError
  end.

(** [x.get(k)] *)
Definition get (x : json) (k : str) : result json :=
  match x with
  | JDict d =>
    Return (match dict_get d k with Some v => v | None => JNone end)
  | _ => Raise AttributeError
  end.

(** [x[k]] *)
Definition subscript (x : json) (k : str) : result json :=
  match x with
  | JDict d =>
    match dict_get d k with Some v => Return v | None => Raise KeyError end
  | _ => Raise TypeError
  end.

(** [v.upper()] *)
Definition upper_of (v : json) : result str :=
  match v with
  | JStr s => Return (upper s)
  | _ => Raise AttributeError
  end.

(** [float(v)] *)
Definition float_json (v : json) : result Q :=
  match float_of v with
  | Some q => Return q
  | None => Raise ValueError
  end.

(** [{x["Ccy"].upper(): float(x["Rate"]) for x in data if x.get("Ccy")}],
    from the entries not yet visited and the dict built so far. *)
Fixpoint reference_dict (xs : list json) (d : dict Q) : result (dict Q) :=
  match xs with
  | [] => Return d
  | x :: xs' =>
    bind (get x (lit "Ccy")) (fun c =>
    if truthy c then
      bind (subscript x (lit "Ccy")) (fun k0 =>
      bind (upper_of k0) (fun k =>
      bind (subscript x (lit "Rate")) (fun r =>
      bind (float_json r) (fun v =>
      reference_dict xs' (dict_set d k v)))))
    else reference_dict xs' d)
  end.

(** [wanted], after its loop. *)
Definition wanted_of (d : dict Q) : list Rate :=
  flat_map (fun c => match dict_get d c with
                     | Some v => [mkRate c (Some v) (Some v)]
                     | None => []
                     end) MAJOR.

Definition cbu_url (w : world) : str :=
  lit "https://cbu.uz/ru/arkhiv-kursov-valyut/json/all/" ++ TODAY w ++ lit "/".

Definition cbu_bank : str := lit "CBU (справочно)".

(** The statements under [try:]; [Return None] is falling out of it. *)
Definition cbu_reference_try (w : world) : result (option BankRates) :=
  let url := cbu_url w in
  bind (get_json w url) (fun data =>
  bind (iterate data) (fun xs =>
  bind (reference_dict xs []) (fun d =>
  match wanted_of d with
  | [] => Return None
  | wanted => Return (Some (mkBankRates cbu_bank (TODAY w) wanted url))
  end))).

Definition cbu_reference (w : world) : result (option BankRates) :=
  match cbu_reference_try w with
  | Return (Some br) => Return (Some br)
  | Return None => Return None                       (* return None *)
  | Raise e => Return None      (* except Exception: print; return None *)
  end.

(** ** main *)

(** [arg.isalpha()] *)
Definition isalpha (arg : str) : bool :=
  match arg with
  | [] => false
  | _ => forallb isalpha_char arg
  end.

(** [ONLY] *)
Definition ONLY (w : world) : option str :=
  find (fun arg => isalpha arg && negb (str_eqb arg (lit "--debug")))
       (tl (argv w)).

(** [asdict(r)] *)
Definition asdict (r : Rate) : json :=
  let num o := match o with Some q => JNum q | None => JNone end in
  JDict [(lit "ccy", JStr (ccy r)); (lit "buy", num (buy r));
         (lit "sell", num (sell r))].

(** The dict [main] appends to [out] for a result. *)
Definition entry (br : BankRates) : json :=
  JDict [(lit "bank", JStr (bank br)); (lit "date", JStr (date br));
         (lit "rates", JList (map asdict (rates br)));
         (lit "source_url", JStr (source_url br))].

Definition newline : N := 10%N.

(** [json.dump(out, f, ensure_ascii=False, indent=2)] for the list [out]. *)
Definition json_dump (out : list json) : str :=
  match out with
  | [] => lit "[]"
  | x :: xs =>
    lit "[" ++ [newline] ++ lit "  " ++ dump_item x
    ++ flat_map (fun y => lit "," ++ [newline] ++ lit "  " ++ dump_item y) xs
    ++ [newline] ++ lit "]"
  end.

(** [used] *)
Definition used (w : world) : list adapter :=
  filter (fun fn => match ONLY w with
                    | None => true
                    | Some only => str_eqb (name fn) only
                    end) ADAPTERS.

(** The body of [for fn in used], on [out] and the record of events. *)
Definition main_step (w : world) (st : list json * list event) (fn : adapter)
  : list json * list event :=
  let (out, log) := st in
  let log := log ++ [Called (name fn)] in
  match call fn w with
  | Return br =>
    match rates br with
    | [] => (out, log)
    | _ => (out ++ [entry br], log)
    end
  | Raise e => (out, log)                      (* except Exception: print *)
  end.

Definition rates_json : str := lit "public/rates.json".

(** [out] and the record of events when [main] reaches [os.makedirs]. *)
Definition main_out (w : world) : result (list json * list event) :=
  let (out, log) := fold_left (main_step w) (used w) ([], []) in
  match out with
  | [] =>                                               (* if not out: *)
    bind (cbu_reference w) (fun ref =>
    match ref with
    | Some r => Return (out ++ [entry r], log ++ [CalledReference])
    | None => Return (out, log ++ [CalledReference])
    end)
  | _ => Return (out, log)
  end.

Definition main (w : world) : result (list event) :=
  bind (main_out w) (fun st =>
  Return (snd st ++ [Wrote rates_json (json_dump (fst st))])).

End Program.

(* ================================================================== *)
(** * Vocabulary of the statements *)
(* ================================================================== *)

(** ** Text *)

Definition ascii_digit (c : N) : bool := in_range c 48 57.

(** The two blanks [_num] removes wherever they stand. *)
Definition blank (c : N) : bool := is_char space c || is_char nbsp c.

Definition digits (ds : str) : Prop :=
  Forall (fun c => ascii_digit c = true) ds.

(** Digits with the blanks that group them. *)
Definition grouped (g : str) : Prop :=
  Forall (fun c => ascii_digit c = true \/ blank c = true) g.

Definition digit_value (c : N) : N := (c - 48)%N.

(** The number written [ip.fp] in ASCII digits. *)
Definition decimal_value (ip fp : str) : Q :=
  inject_Z (Z.of_N (of_digits (map digit_value ip)))
  + inject_Z (Z.of_N (of_digits (map digit_value fp)))
    / inject_Z (10 ^ Z.of_nat (List.length fp)).

(** [s] does not start with a character of class [p]. *)
Definition head_not (p : N -> bool) (s : str) : Prop :=
  match s with
  | c :: _ => p c = false
  | [] => True
  end.

(** [.replace("\xa0"," ").replace(" ", "").replace(",", ".")] *)
Definition unspace (p : str) : str :=
  replace comma [dot] (replace space [] (replace nbsp [space] p)).

(** The text [_num] matches its patterns against. *)
Definition normalized (x : str) : str := unspace (strip x).

(** The characters a pattern can consume. *)
Fixpoint accepts (r : re) (c : N) : bool :=
  match r with
  | Bos | Eos => false
  | Cls p | Star p => p c
  | Opt r1 => accepts r1 c
  | Seq r1 r2 | Alt r1 r2 => accepts r1 c || accepts r2 c
  end.

(** The text [_num] passes to [float], when it gets that far. *)
Definition float_argument (x : str) : option str :=
  match x with
  | [] => None
  | _ =>
    match search whole_number (normalized x) with
    | Some _ => Some (normalized x)
    | None =>
      match search embedded_number (normalized x) with
      | None => None
      | Some g1 => Some (replace comma [dot] (replace space [] g1))
      end
    end
  end.

(** What the model of [float] reads: digits, white space, the point and
    the minus sign. *)
Definition numeric_char (c : N) : bool :=
  isdecimal c || isspace c || is_char dot c || is_char minus c.

(** What the whole-text pattern matches before the end of the text. *)
Definition whole_number_body : re :=
  Seq (Opt (Cls (is_char minus)))
    (Seq (Plus isdecimal) (Opt (Seq (Cls (is_char dot)) (Plus isdecimal)))).

(** White space that [_num] does not remove: a tab, a thin space, a narrow
    no-break space, ... *)
Definition other_space (c : N) : bool := isspace c && negb (blank c).

(** Neither a blank nor a comma. *)
Definition clean (c : N) : Prop := blank c = false /\ (c =? comma)%N = false.

(** The fraction of a numeral: nothing, or a point and digits. *)
Definition fraction (D2 : str) : str :=
  match D2 with
  | [] => []
  | _ => dot :: D2
  end.

(** An optionally signed numeral in ASCII digits. *)
Definition numeral (neg : bool) (D1 D2 : str) : str :=
  (if neg then [minus] else []) ++ D1 ++ fraction D2.

(** [str(n)] has four digits, which are those of [n]. *)
Definition four_digits (n : N) : bool :=
  (List.length (str_of_int n) =? 4)%nat && forallb ascii_digit (str_of_int n)
  && (of_digits (map digit_value (str_of_int n)) =? n)%N.

(** The numbers [random.randint(1000,9999)] can draw. *)
Definition tails : list N :=
  map (fun k => (1000 + N.of_nat k)%N) (seq 0%nat (N.to_nat 9000%N)).

(** ** Rates *)

Definition has_ccy (c : str) (r : Rate) : bool := str_eqb (ccy r) c.

(** Both prices are there. *)
Definition complete (r : Rate) : Prop :=
  exists b s, buy r = Some b /\ sell r = Some s.

(** The Rate of the last row of currency [c]. *)
Definition last_with (c : str) (rs : list Rate) : option Rate :=
  hd_error (rev (filter (has_ccy c) rs)).

(** One Rate per major currency that has a row, the last row's, in the
    order USD, EUR, RUB. *)
Definition kept (rs : list Rate) : list Rate :=
  flat_map (fun c => match last_with c rs with
                     | Some r => [r]
                     | None => []
                     end) MAJOR.

(** The Rates of the rows that qualify (a known currency and two numbers),
    in the order of the scan: of [soup.find_all("tr")] for the four
    adapters that read the first two numbers, of the tables' rows for
    [hamkorbank]. *)
Definition row_rates (upper : str -> str) (rows : list (list str))
  : list Rate :=
  flat_map (major_row upper []) rows.

Definition hamkorbank_row_rates (upper : str -> str)
           (tbls : list (list (list str))) : list Rate :=
  flat_map (flat_map (hamkorbank_row upper [])) tbls.

(** The three adapters of one text, each with the name of its debug file
    and its addresses. *)
Definition major_three (upper : str -> str)
  : list (str * list str * (world -> result BankRates)) :=
  [ (lit "agrobank", agrobank_urls, agrobank upper);
    (lit "ipakyulibank", ipakyulibank_urls, ipakyulibank upper);
    (lit "tbc_bank_uz", tbc_bank_uz_urls, tbc_bank_uz upper) ].

(** Kapitalbank's bag after the rows [rs]. *)
Definition bag_of (rs : list Rate) (bag : dict (list Rate))
  : dict (list Rate) :=
  fold_left (fun bag r => bag_add bag (ccy r) r) rs bag.

Definition group_of (bag : dict (list Rate)) (c : str) : list Rate :=
  match dict_get bag c with
  | Some arr => arr
  | None => []
  end.

(** The mean of a list of floats, as [sum(xs)/len(xs)] computes it: the
    sum from the left, then one division, each rounded to a double. *)
Definition mean (xs : list Q) : Q :=
  truediv (fsum xs) (inject_Z (Z.of_nat (List.length xs))).

(** The largest finite double. *)
Definition max_float : Q := inject_Z ((2 ^ 53 - 1) * 2 ^ 971).

(** The float [x] stands for is finite. *)
Definition isfinite (x : Q) : bool := Qle_bool (Qabs (binary64 x)) max_float.

(** [sum] goes from [acc] through [xs] without leaving the finite
    doubles: every number and every sum on the way is finite. *)
Fixpoint sums_finite (acc : Q) (xs : list Q) : bool :=
  match xs with
  | [] => true
  | x :: r =>
    isfinite x && isfinite (fadd acc x) && sums_finite (fadd acc x) r
  end.


(** ** Candidate addresses and results *)

(** What an adapter returns from a page, when it is not empty: of the three
    adapters of one text, of [hamkorbank], of [kapitalbank]. *)
Definition major_offer (upper : str -> str) (page : soup) : list Rate :=
  kept (row_rates upper (trs page)).

Definition hamkorbank_offer (upper : str -> str) (page : soup) : list Rate :=
  kept (hamkorbank_row_rates upper (tables page)).

Definition kapitalbank_offer (upper : str -> str) (page : soup) : list Rate :=
  sorted ccy (kapitalbank_scan upper page).

(** The page at [url] cannot be had, or it offers no rate. *)
Definition no_rates (offer : soup -> list Rate) (w : world) (key url : str)
  : Prop :=
  match fetch_page w key url with
  | Return page => offer page = []
  | Raise _ => True
  end.

(** The page at [url] is had and offers no rate. *)
Definition empty_page (offer : soup -> list Rate) (w : world) (key url : str)
  : Prop :=
  exists page, fetch_page w key url = Return page /\ offer page = [].

(** Each adapter's [__name__], the name of its bank and its addresses. *)
Definition banks : list (str * str * list str) :=
  [ (lit "hamkorbank", lit "Hamkorbank", hamkorbank_urls);
    (lit "agrobank", lit "Agrobank", agrobank_urls);
    (lit "kapitalbank", lit "Kapitalbank", kapitalbank_urls);
    (lit "ipakyulibank", lit "Ipak Yuli Bank", ipakyulibank_urls);
    (lit "tbc_bank_uz", lit "TBC Bank Uzbekistan", tbc_bank_uz_urls) ].

(** What every result of an adapter of bank [b] with addresses [urls]
    satisfies, in a run of date [d]. *)
Definition well_formed (b d : str) (urls : list str) (br : BankRates) : Prop :=
  bank br = b /\ date br = d /\ In (source_url br) urls
  /\ (rates br = [] -> source_url br = hd [] urls)
  /\ NoDup (map ccy (rates br))
  /\ incl (map ccy (rates br)) MAJOR
  /\ (List.length (rates br) <= 3)%nat.

(** ** The reference data *)

(** What one element of the reference data contributes: nothing when its
    ["Ccy"] is missing or empty, else its code and rate. *)
Inductive reads (upper : str -> str) (float_of : json -> option Q)
  : json -> option (str * Q) -> Prop :=
  | reads_skip fields :
      truthy (match dict_get fields (lit "Ccy") with
              | Some v => v
              | None => JNone
              end) = false ->
      reads upper float_of (JDict fields) None
  | reads_rate fields s r v :
      dict_get fields (lit "Ccy") = Some (JStr s) -> s <> [] ->
      dict_get fields (lit "Rate") = Some r -> float_of r = Some v ->
      reads upper float_of (JDict fields) (Some (upper s, v)).

Definition table_of (kvs : list (str * Q)) (d : dict Q) : dict Q :=
  fold_left (fun d kv => dict_set d (fst kv) (snd kv)) kvs d.

(** An element of the reference data that [cbu_reference] cannot read:
    it is no JSON object, or it has a ["Ccy"] that counts as true without
    being text, or it has a code and no ["Rate"], or a ["Rate"] that
    [float] refuses. *)
Inductive refused (float_of : json -> option Q) : json -> Prop :=
  | refused_no_object x :
      (forall fields, x <> JDict fields) -> refused float_of x
  | refused_code fields c :
      dict_get fields (lit "Ccy") = Some c -> truthy c = true ->
      (forall s, c <> JStr s) -> refused float_of (JDict fields)
  | refused_no_rate fields s :
      dict_get fields (lit "Ccy") = Some (JStr s) -> s <> [] ->
      dict_get fields (lit "Rate") = None -> refused float_of (JDict fields)
  | refused_rate fields s r :
      dict_get fields (lit "Ccy") = Some (JStr s) -> s <> [] ->
      dict_get fields (lit "Rate") = Some r -> float_of r = None ->
      refused float_of (JDict fields).

(** ** The orchestrator *)

(** What an adapter adds to [out]. *)
Definition yield (w : world) (fn : adapter) : list json :=
  match call fn w with
  | Return br =>
    match rates br with
    | [] => []
    | _ => [entry br]
    end
  | Raise _ => []
  end.

Definition all_names : list str :=
  map lit ["hamkorbank"; "agrobank"; "kapitalbank"; "ipakyulibank";
           "tbc_bank_uz"]%string.

(** The adapters whose name is a word. *)
Definition word_names : list str :=
  map lit ["hamkorbank"; "agrobank"; "kapitalbank"; "ipakyulibank"]%string.

(** The result of an adapter that goes into the document. *)
Definition collected (w : world) (fn : adapter) : list BankRates :=
  match call fn w with
  | Return br =>
    match rates br with
    | [] => []
    | _ => [br]
    end
  | Raise _ => []
  end.

(** The document when no adapter gave rates: the reference entry, if there
    is one. *)
Definition reference_doc (upper : str -> str) (float_of : json -> option Q)
           (w : world) : list json :=
  match cbu_reference upper float_of w with
  | Return (Some ref) => [entry ref]
  | _ => []
  end.

Definition bank_names : list str :=
  map lit ["Hamkorbank"; "Agrobank"; "Kapitalbank"; "Ipak Yuli Bank";
           "TBC Bank Uzbekistan"]%string.

(** [a] is [b] with some elements left out. *)
Inductive subseq {A : Type} : list A -> list A -> Prop :=
  | subseq_nil : subseq [] []
  | subseq_skip x a b : subseq a b -> subseq a (x :: b)
  | subseq_keep x a b : subseq a b -> subseq (x :: a) (x :: b).

(** The two worlds differ at most in what writing a debug file does. *)
Definition same_but_debug_files (w w' : world) : Prop :=
  today w = today w' /\ argv w = argv w'
  /\ (forall url, fetch_html w url = fetch_html w' url)
  /\ (forall url, get_json w url = get_json w' url).

(** The two worlds have the same day, the same command line, the same
    debug directory, and the same pages at the addresses [urls]. *)
Definition same_at (urls : list str) (w w' : world) : Prop :=
  today w = today w' /\ argv w = argv w'
  /\ (forall bank_key html,
         write_debug w bank_key html = write_debug w' bank_key html)
  /\ (forall url, In url urls -> fetch_html w url = fetch_html w' url).

(** ** A runtime and worlds to run the program in

    On ASCII text these are [str.upper] and [str.isalpha]; the examples
    below hold ASCII text only where the two are applied. *)

Definition upper_ascii (s : str) : str :=
  map (fun c => if in_range c 97 122 then (c - 32)%N else c) s.

Definition isalpha_ascii (c : N) : bool :=
  in_range c 65 90 || in_range c 97 122.

(** [float] of a JSON string or number. *)
Definition float_of_text (v : json) : option Q :=
  match v with
  | JStr s => float s
  | JNum q => Some q
  | _ => None
  end.

Definition dump_braces (j : json) : str := lit "{}".

Definition script : str := lit "tools/build_rates.py".

(** Every address serves the one page [rows]; the reference endpoint is
    down. *)
Definition serving (rows : list (list str)) : world :=
  mkWorld (lit "2024-05-17") [script]
          (fun _ => Return (mkSoup [rows] rows, []))
          (fun _ _ => Return tt)
          (fun url => Raise (Exception url)).

(** Nothing can be fetched; [args] are the command line's. *)
Definition offline (args : list str) : world :=
  mkWorld (lit "2024-05-17") (script :: args)
          (fun url => Raise (Exception url))
          (fun _ _ => Return tt)
          (fun url => Raise (Exception url)).

(** The banks are down and the reference endpoint answers [data]. *)
Definition reference_only (data : json) : world :=
  mkWorld (lit "2024-05-17") [script]
          (fun url => Raise (Exception url))
          (fun _ _ => Return tt)
          (fun _ => Return data).

Definition row (cells : list string) : list str := map lit cells.

(** A row that starts with its index, as Hamkorbank's do. *)
Definition indexed_usd_row : list str := row ["USD"; "1"; "100"; "105"]%string.

Definition two_usd_rows : list (list str) :=
  [row ["USD"; "1"; "2"]%string; row ["usd"; "3"; "4"]%string].

Definition two_eur_rows : list (list str) :=
  [row ["EUR"; "100"; "105"]%string; row ["EUR"; "102"; "107"]%string].

(** Two rows whose means fall, in decimals, halfway between two cents. *)
Definition two_usd_rows_of_cents : list (list str) :=
  [row ["USD"; "12650.01"; "12700.02"]%string;
   row ["USD"; "12650.02"; "12700.03"]%string].

Definition four_currencies : list (list str) :=
  [row ["GBP"; "15 000"; "15 500"]%string; row ["RUB"; "130,5"; "140"]%string;
   row ["EUR"; "13500"; "13700"]%string; row ["USD"; "12300"; "12450"]%string].

Definition run_date : str := lit "2024-05-17".

Definition agrobank_of_two_usd_rows : BankRates :=
  mkBankRates (lit "Agrobank") run_date [mkRate USD (Some 3) (Some 4)]
              (lit "https://agrobank.uz/ru/person").

Definition kapitalbank_of_two_eur_rows : BankRates :=
  mkBankRates (lit "Kapitalbank") run_date [mkRate EUR (Some 101) (Some 106)]
              (lit "https://www.kapitalbank.uz/ru/services/exchange-rates-new/").

Definition kapitalbank_of_two_usd_rows_of_cents : BankRates :=
  mkBankRates (lit "Kapitalbank") run_date
              [mkRate USD (Some (1265001 # 100)) (Some (1270003 # 100))]
              (lit "https://www.kapitalbank.uz/ru/services/exchange-rates-new/").

Definition hamkorbank_of_four_currencies : BankRates :=
  mkBankRates (lit "Hamkorbank") run_date
              [mkRate USD (Some 12300) (Some 12450);
               mkRate EUR (Some 13500) (Some 13700);
               mkRate RUB (Some (261 # 2)) (Some 140)]
              (lit "https://hamkorbank.uz/ru/exchange-rate/").

(** The reference data of the specification's fallback scenario. *)
Definition usd_reference : json :=
  JList [JDict [(lit "Ccy", JStr (lit "USD"));
                (lit "Rate", JStr (lit "12345.0"))]].

(** The page [rows] is served at the address [good] alone. *)
Definition serving_at (good : str) (rows : list (list str)) : world :=
  mkWorld (lit "2024-05-17") [script]
          (fun url => if str_eqb url good
                      then Return (mkSoup [rows] rows, [])
                      else Raise (Exception url))
          (fun _ _ => Return tt)
          (fun url => Raise (Exception url)).

(** Every address serves a page without a row, but for [bad], which is
    down. *)
Definition down_at (bad : str) : world :=
  mkWorld (lit "2024-05-17") [script]
          (fun url => if str_eqb url bad
                      then Raise (Exception url)
                      else Return (mkSoup [] [], []))
          (fun _ _ => Return tt)
          (fun url => Raise (Exception url)).

(** [w] with a debug directory that cannot be written. *)
Definition read_only (w : world) : world :=
  mkWorld (today w) (argv w) (fetch_html w)
          (fun _ _ => Raise (Exception (lit "PermissionError")))
          (get_json w).

(** [w] with [--debug] on the command line. *)
Definition with_debug (w : world) : world :=
  mkWorld (today w) (argv w ++ [lit "--debug"]) (fetch_html w)
          (write_debug w) (get_json w).

(** The page [rows] is served at the addresses [urls] and nowhere else. *)
Definition serving_only (urls : list str) (rows : list (list str)) : world :=
  mkWorld (lit "2024-05-17") [script]
          (fun url => if mem url urls
                      then Return (mkSoup [rows] rows, [])
                      else Raise (Exception url))
          (fun _ _ => Return tt)
          (fun url => Raise (Exception url)).

Definition hamkorbank_en : str := lit "https://hamkorbank.uz/en/exchange-rate/".

Definition kapitalbank_old : str :=
  lit "https://www.kapitalbank.uz/ru/services/exchange-rates/".

(** Reference data with an element that has a code and no rate. *)
Definition gbp_without_rate : list json :=
  [JDict [(lit "Ccy", JStr (lit "USD")); (lit "Rate", JStr (lit "12345.0"))];
   JDict [(lit "Ccy", JStr (lit "GBP"))]].

Definition cbu_of_usd_reference : BankRates :=
  mkBankRates cbu_bank run_date [mkRate USD (Some 12345) (Some 12345)]
    (lit "https://cbu.uz/ru/arkhiv-kursov-valyut/json/all/2024-05-17/").

(* ================================================================== *)
(** * The numeric normalizer: properties *)
(* ================================================================== *)

Unset Implicit Arguments.
Local Open Scope nat_scope.

(** ** ASCII digits *)

Lemma ascii_digit_bounds c : ascii_digit c = true -> (48 <= c <= 57)%N.
Proof.
  unfold ascii_digit, in_range. intros H.
  apply andb_true_iff in H as [H1 H2].
  apply N.leb_le in H1, H2. lia.
Qed.

Lemma ascii_digit_cases c :
  ascii_digit c = true -> In c [48; 49; 50; 51; 52; 53; 54; 55; 56; 57]%N.
Proof.
  intros H. apply ascii_digit_bounds in H. cbn [In].
  assert (Hc : (c = 48 \/ c = 49 \/ c = 50 \/ c = 51 \/ c = 52 \/ c = 53
                \/ c = 54 \/ c = 55 \/ c = 56 \/ c = 57)%N) by lia.
  intuition auto.
Qed.

(** A fact of the ten ASCII digits, by running through them. *)
Ltac by_ascii_digit H :=
  apply ascii_digit_cases in H; cbn [In] in H;
  repeat (destruct H as [H | H]; [subst; now vm_compute | ]);
  contradiction.

Lemma todecimal_ascii c :
  ascii_digit c = true -> todecimal c = Some (c - 48)%N.
Proof. intros H. by_ascii_digit H. Qed.

Lemma isdecimal_ascii c : ascii_digit c = true -> isdecimal c = true.
Proof. intros H. unfold isdecimal. now rewrite todecimal_ascii. Qed.

Lemma isspace_ascii_digit c : ascii_digit c = true -> isspace c = false.
Proof. intros H. by_ascii_digit H. Qed.

Lemma ascii_digit_plain c :
  ascii_digit c = true ->
  (c =? nbsp)%N = false /\ (c =? space)%N = false /\ (c =? comma)%N = false
  /\ (c =? dot)%N = false /\ (c =? minus)%N = false /\ (c =? 43)%N = false.
Proof. intros H. by_ascii_digit H. Qed.

(** ** strip *)


Lemma lstrip_app pre a mid :
  isspace a = false -> lstrip (pre ++ a :: mid) = lstrip pre ++ a :: mid.
Proof.
  intros Ha. induction pre as [ | c pre IH ]; cbn [app lstrip].
  - now rewrite Ha.
  - destruct (isspace c); [ exact IH | reflexivity ].
Qed.

Lemma rstrip_app mid z post :
  isspace z = false -> rstrip (mid ++ z :: post) = mid ++ z :: rstrip post.
Proof.
  intros Hz. unfold rstrip.
  rewrite rev_app_distr. cbn [rev]. rewrite <- app_assoc. cbn [app].
  rewrite lstrip_app by assumption.
  rewrite rev_app_distr. cbn [rev]. rewrite rev_involutive.
  now rewrite <- app_assoc.
Qed.



(** [strip] leaves what lies between two characters that are not blank. *)
Lemma strip_app pre a mid z post :
  isspace a = false -> isspace z = false ->
  strip (pre ++ a :: mid ++ z :: post)
  = lstrip pre ++ a :: mid ++ z :: rstrip post.
Proof.
  intros Ha Hz. unfold strip. rewrite lstrip_app by assumption.
  change (lstrip pre ++ a :: mid ++ z :: post)
    with (lstrip pre ++ (a :: mid) ++ z :: post).
  rewrite app_assoc, rstrip_app by assumption.
  now rewrite <- app_assoc.
Qed.

(** ** replace *)

Lemma replace_app old new x y :
  replace old new (x ++ y) = replace old new x ++ replace old new y.
Proof. unfold replace. apply flat_map_app. Qed.

Lemma replace_absent old new x :
  Forall (fun c => (c =? old)%N = false) x -> replace old new x = x.
Proof.
  induction 1 as [ | c x Hc _ IH ]; [ reflexivity | ].
  unfold replace in *. cbn [flat_map]. rewrite Hc, IH. reflexivity.
Qed.

(** ** The matcher *)

Lemma star_run (A : Type) p (k : nat -> str -> option A) ds rest a pos :
  Forall (fun c => p c = true) ds -> head_not p rest ->
  k (pos + List.length ds) rest = Some a ->
  star p k pos (ds ++ rest) = Some a.
Proof.
  intros Hds Hrest. revert pos.
  induction Hds as [ | d ds Hd _ IH ]; intros pos Hk.
  - rewrite Nat.add_0_r in Hk. cbn [app].
    destruct rest as [ | c r ]; cbn [star]; [ exact Hk | ].
    cbn in Hrest. now rewrite Hrest.
  - cbn [app star]. rewrite Hd.
    rewrite (IH (S pos)); [ reflexivity | ].
    cbn [List.length] in Hk. now rewrite Nat.add_succ_r in Hk.
Qed.

Lemma whole_number_anchored (A : Type) (k : nat -> str -> option A) pos s :
  rmatch whole_number k (S pos) s = None.
Proof. reflexivity. Qed.

Lemma search_whole_number x :
  search whole_number x = match_at whole_number 0 x.
Proof.
  unfold search.
  assert (H : forall s pos, search_from whole_number (S pos) s = None).
  { induction s as [ | c s IH ]; intros pos; cbn [search_from];
      unfold match_at; rewrite whole_number_anchored; [ reflexivity | apply IH ]. }
  destruct x as [ | c x ]; cbn [search_from];
    destruct (match_at whole_number 0 _); try reflexivity. apply H.
Qed.

Lemma digits_decimal ds : digits ds -> Forall (fun c => isdecimal c = true) ds.
Proof. apply Forall_impl. exact isdecimal_ascii. Qed.

Lemma isdecimal_dot : isdecimal dot = false.
Proof. reflexivity. Qed.


Lemma firstn_exact (A : Type) (l r : list A) n :
  n = List.length l -> firstn n (l ++ r) = l.
Proof.
  intros ->. rewrite <- (Nat.add_0_r (List.length l)).
  rewrite firstn_app_2. cbn. apply app_nil_r.
Qed.

(** ** The embedded-number pattern *)

Lemma embedded_number_needs_digit (A : Type) (k : nat -> str -> option A) pos s :
  head_not isdecimal s -> rmatch embedded_number k pos s = None.
Proof.
  intros H. unfold embedded_number, Plus. cbn [rmatch].
  destruct s as [ | c s ]; [ reflexivity | ].
  cbn in H. now rewrite H.
Qed.



(** At a number followed by something that is not a digit, the pattern
    matches the number and no more. *)
Lemma match_at_embedded d D1 e D2 post pos :
  digits (d :: D1) -> digits (e :: D2) -> head_not isdecimal post ->
  match_at embedded_number pos (d :: D1 ++ dot :: e :: D2 ++ post)
  = Some (d :: D1 ++ dot :: e :: D2).
Proof.
  intros H1 H2 Hpost.
  inversion H1 as [ | ? ? Hd HD1 ]; inversion H2 as [ | ? ? He HD2 ]; subst.
  unfold match_at.
  assert (Hm : rmatch embedded_number (fun e0 _ => Some e0) pos
                 (d :: D1 ++ dot :: e :: D2 ++ post)
               = Some (pos + List.length (d :: D1 ++ dot :: e :: D2))).
  { unfold embedded_number, Plus. cbn [rmatch].
    rewrite (isdecimal_ascii _ Hd).
    rewrite (@star_run _ _ _ D1 (dot :: e :: D2 ++ post)
               (pos + List.length (d :: D1 ++ dot :: e :: D2)));
      [ reflexivity | | reflexivity | ].
    - eapply Forall_impl; [ | exact HD1 ].
      intros c Hc. cbn. now rewrite (isdecimal_ascii _ Hc).
    - cbn [rmatch]. unfold is_char. rewrite N.eqb_refl. cbn [orb].
      rewrite (isdecimal_ascii _ He).
      rewrite (@star_run _ isdecimal _ D2 post
                 (pos + List.length (d :: D1 ++ dot :: e :: D2)));
        [ reflexivity | now apply digits_decimal | exact Hpost | ].
      f_equal. cbn [List.length]. rewrite length_app. cbn [List.length]. lia. }
  rewrite Hm. f_equal.
  assert (Happ : d :: D1 ++ dot :: e :: D2 ++ post
                 = (d :: D1 ++ dot :: e :: D2) ++ post).
  { cbn [app]. now rewrite <- app_assoc. }
  rewrite Happ. apply firstn_exact. lia.
Qed.

(** ** float *)

Lemma span_digits_run ds rest :
  digits ds -> head_not isdecimal rest ->
  span_digits (ds ++ rest) = (map digit_value ds, rest).
Proof.
  intros Hds Hrest. induction Hds as [ | d ds Hd _ IH ].
  - destruct rest as [ | c r ]; [ reflexivity | ].
    cbn in Hrest. unfold isdecimal in Hrest. cbn [app span_digits].
    destruct (todecimal c); [ discriminate | reflexivity ].
  - cbn [app span_digits map]. rewrite (todecimal_ascii _ Hd), IH.
    reflexivity.
Qed.

Lemma of_digits_from ds acc :
  fold_left (fun a d => (10 * a + d)%N) ds acc
  = (acc * 10 ^ N.of_nat (List.length ds) + of_digits ds)%N.
Proof.
  unfold of_digits. revert acc.
  induction ds as [ | d ds IH ]; intros acc.
  - cbn. lia.
  - cbn [fold_left List.length]. rewrite IH, (IH (10 * 0 + d)%N).
    rewrite Nat2N.inj_succ, N.pow_succ_r'. lia.
Qed.

Lemma of_digits_app a b :
  of_digits (a ++ b)
  = (of_digits a * 10 ^ N.of_nat (List.length b) + of_digits b)%N.
Proof.
  unfold of_digits at 1. rewrite fold_left_app. apply of_digits_from.
Qed.

Lemma strip_id x :
  head_not isspace x -> head_not isspace (rev x) -> strip x = x.
Proof.
  intros H1 H2. unfold strip, rstrip.
  assert (L : forall y, head_not isspace y -> lstrip y = y).
  { intros [ | c y ] Hy; [ reflexivity | ]. cbn in *. now rewrite Hy. }
  rewrite (L x H1), (L _ H2). apply rev_involutive.
Qed.

Lemma head_not_Forall p x :
  Forall (fun c => p c = false) x -> head_not p x.
Proof. destruct 1; [ exact I | assumption ]. Qed.

Lemma number_not_space D1 D2 :
  digits D1 -> digits D2 ->
  Forall (fun c => isspace c = false) (D1 ++ dot :: D2).
Proof.
  intros H1 H2. apply Forall_app. split; [ | constructor ].
  - eapply Forall_impl; [ | exact H1 ]. exact isspace_ascii_digit.
  - reflexivity.
  - eapply Forall_impl; [ | exact H2 ]. exact isspace_ascii_digit.
Qed.

Lemma float_decimal d D1 e D2 :
  digits (d :: D1) -> digits (e :: D2) ->
  float (d :: D1 ++ dot :: e :: D2)
  = Some (Qred (decimal_value (d :: D1) (e :: D2))).
Proof.
  intros H1 H2.
  pose proof (number_not_space _ _ H1 H2) as Hns.
  unfold float. rewrite strip_id.
  2: { apply head_not_Forall. exact Hns. }
  2: { apply head_not_Forall. apply Forall_rev. exact Hns. }
  inversion H1 as [ | ? ? Hd HD1 ]; subst.
  destruct (ascii_digit_plain _ Hd) as (_ & _ & _ & _ & Hm & Hp).
  unfold minus in Hm. rewrite Hm, Hp.
  change (d :: D1 ++ dot :: e :: D2) with ((d :: D1) ++ dot :: e :: D2).
  rewrite span_digits_run; [ | assumption | exact isdecimal_dot ].
  change (dot =? 46)%N with true. cbv iota.
  rewrite <- (app_nil_r (e :: D2)) at 1.
  rewrite span_digits_run; [ | assumption | exact I ].
  cbn [map app]. f_equal. apply Qred_complete.
  unfold decimal_value. cbn [map].
  set (ip := digit_value d :: map digit_value D1).
  set (fp := digit_value e :: map digit_value D2).
  change (digit_value d :: map digit_value D1 ++ fp) with (ip ++ fp).
  rewrite of_digits_app.
  assert (Hlen : List.length fp = List.length (e :: D2)).
  { unfold fp. cbn [List.length]. now rewrite length_map. }
  rewrite Hlen.
  set (n := List.length (e :: D2)).
  assert (Hpos : (0 < 10 ^ Z.of_nat n)%Z) by (apply Z.pow_pos_nonneg; lia).
  rewrite Qmake_Qdiv, Z2Pos.id by exact Hpos.
  rewrite N2Z.inj_add, N2Z.inj_mul, N2Z.inj_pow, nat_N_Z.
  change (Z.of_N 10) with 10%Z.
  rewrite inject_Z_plus, inject_Z_mult.
  field. intros Hz.
  apply (Qlt_not_eq (inject_Z 0) (inject_Z (10 ^ Z.of_nat n))).
  - rewrite <- Zlt_Qlt. exact Hpos.
  - symmetry. exact Hz.
Qed.

(** ** Normalisation: what [_num] does to its argument before matching *)

Lemma unspace_app x y : unspace (x ++ y) = unspace x ++ unspace y.
Proof. unfold unspace. now rewrite !replace_app. Qed.

Lemma unspace_cons a p :
  unspace (a :: p)
  = (if blank a then [] else if (a =? comma)%N then [dot] else [a])
    ++ unspace p.
Proof.
  change (a :: p) with ([a] ++ p). rewrite unspace_app. f_equal.
  unfold unspace, replace, blank, is_char. cbn [flat_map app].
  destruct (N.eqb_spec a nbsp) as [ -> | Hn ]; [ reflexivity | ].
  cbn [flat_map app].
  destruct (N.eqb_spec a space) as [ -> | Hs ]; [ reflexivity | ].
  cbn [flat_map app orb].
  destruct (a =? comma)%N; reflexivity.
Qed.

Lemma blank_ascii_digit c : ascii_digit c = true -> blank c = false.
Proof.
  intros H. destruct (ascii_digit_plain _ H) as (Hn & Hs & _).
  unfold blank, is_char. now rewrite Hn, Hs.
Qed.

Lemma unspace_digit c p :
  ascii_digit c = true -> unspace (c :: p) = c :: unspace p.
Proof.
  intros H. rewrite unspace_cons, (blank_ascii_digit _ H).
  destruct (ascii_digit_plain _ H) as (_ & _ & Hc & _). now rewrite Hc.
Qed.

Lemma unspace_digits ds : digits ds -> unspace ds = ds.
Proof.
  induction 1 as [ | c ds Hc _ IH ]; [ reflexivity | ].
  now rewrite unspace_digit, IH.
Qed.

Lemma ascii_digit_blank c : blank c = true -> ascii_digit c = false.
Proof.
  unfold blank, is_char. intros H. apply orb_true_iff in H.
  destruct H as [ H | H ]; apply N.eqb_eq in H; subst; reflexivity.
Qed.

Lemma unspace_grouped g : grouped g -> unspace g = filter ascii_digit g.
Proof.
  induction 1 as [ | c g Hc _ IH ]; [ reflexivity | ].
  cbn [filter]. destruct Hc as [ Hc | Hc ].
  - now rewrite unspace_digit, IH, Hc.
  - rewrite unspace_cons, Hc, IH, (ascii_digit_blank _ Hc). reflexivity.
Qed.


Lemma unspace_sep sep : sep = dot \/ sep = comma -> unspace [sep] = [dot].
Proof. intros [ -> | -> ]; reflexivity. Qed.







(** The text [_num] matches against, for an argument that holds a number
    [g sep fp]: grouped digits, a decimal separator and digits. *)
Lemma normalized_number pre d g sep e fp post :
  ascii_digit d = true -> grouped g -> sep = dot \/ sep = comma ->
  digits (e :: fp) ->
  normalized (pre ++ d :: g ++ sep :: e :: fp ++ post)
  = unspace (lstrip pre)
    ++ (d :: filter ascii_digit g) ++ dot :: (e :: fp)
    ++ unspace (rstrip post).
Proof.
  intros Hd Hg Hsep Hfp.
  destruct (@exists_last _ (e :: fp)) as (fp' & z & E); [ discriminate | ].
  assert (Hz : ascii_digit z = true).
  { unfold digits in Hfp. rewrite E in Hfp.
    apply Forall_app in Hfp as [_ Hfp]. now inversion Hfp. }
  unfold normalized.
  replace (pre ++ d :: g ++ sep :: e :: fp ++ post)
    with (pre ++ d :: (g ++ sep :: fp') ++ z :: post).
  2: { f_equal. f_equal. rewrite <- app_assoc. f_equal. cbn [app]. f_equal.
       change (e :: fp ++ post) with ((e :: fp) ++ post).
       rewrite E, <- app_assoc. reflexivity. }
  rewrite strip_app by (now apply isspace_ascii_digit).
  replace (lstrip pre ++ d :: (g ++ sep :: fp') ++ z :: rstrip post)
    with (lstrip pre ++ (d :: g) ++ [sep] ++ (e :: fp) ++ rstrip post).
  2: { f_equal. cbn [app]. f_equal. rewrite <- app_assoc. f_equal.
       cbn [app]. f_equal.
       change (e :: fp ++ rstrip post) with ((e :: fp) ++ rstrip post).
       rewrite E, <- app_assoc. reflexivity. }
  rewrite !unspace_app, unspace_digit, (unspace_grouped _ Hg) by assumption.
  rewrite (unspace_sep _ Hsep), (unspace_digits _ Hfp). reflexivity.
Qed.


Lemma _num_eq x :
  x <> [] ->
  _num x
  = match search whole_number (normalized x) with
    | Some _ => float (normalized x)
    | None =>
      match search embedded_number (normalized x) with
      | None => None
      | Some g1 => float (replace comma [dot] (replace space [] g1))
      end
    end.
Proof. destruct x; [ congruence | reflexivity ]. Qed.


Lemma number_plain a D1 D2 :
  a = space \/ a = comma -> digits D1 -> digits D2 ->
  Forall (fun c => (c =? a)%N = false) (D1 ++ dot :: D2).
Proof.
  intros Ha H1 H2.
  assert (L : forall ds, digits ds -> Forall (fun c => (c =? a)%N = false) ds).
  { intros ds. apply Forall_impl. intros c Hc.
    destruct (ascii_digit_plain _ Hc) as (_ & Hs & Hco & _).
    now destruct Ha as [ -> | -> ]. }
  apply Forall_app. split; [ now apply L | constructor; [ | now apply L ] ].
  now destruct Ha as [ -> | -> ].
Qed.



(** ** The text handed to [float] *)

Section MatcherFacts.
Variable A : Type.

Lemma star_sound p (k : nat -> str -> option A) pos s a :
  star p k pos s = Some a ->
  exists m rest,
    s = m ++ rest /\ Forall (fun c => p c = true) m
    /\ k (pos + List.length m) rest = Some a.
Proof.
  revert pos. induction s as [ | c s IH ]; intros pos; cbn [star].
  - intros H. exists [], []. rewrite Nat.add_0_r. now repeat split.
  - assert (Hstay : k pos (c :: s) = Some a ->
                    exists m rest,
                      c :: s = m ++ rest /\ Forall (fun c => p c = true) m
                      /\ k (pos + List.length m) rest = Some a).
    { intros H. exists [], (c :: s). rewrite Nat.add_0_r. now repeat split. }
    destruct (p c) eqn:Hc; [ | exact Hstay ].
    destruct (star p k (S pos) s) as [ a' | ] eqn:Hs; [ | exact Hstay ].
    intros [= ->]. destruct (IH _ Hs) as (m & rest & -> & Hm & Hk).
    exists (c :: m), rest. cbn [app List.length].
    rewrite Nat.add_succ_r. repeat split; auto.
Qed.

(** A match consumes a prefix made of characters the pattern accepts and
    goes on with what follows. *)
Lemma rmatch_sound r (k : nat -> str -> option A) pos s a :
  rmatch r k pos s = Some a ->
  exists m rest,
    s = m ++ rest /\ Forall (fun c => accepts r c = true) m
    /\ k (pos + List.length m) rest = Some a.
Proof.
  assert (Hstay : forall r' k' pos' s',
             k' pos' s' = Some a ->
             exists m rest,
               s' = m ++ rest /\ Forall (fun c => accepts r' c = true) m
               /\ k' (pos' + List.length m) rest = Some a).
  { intros r' k' pos' s' H. exists [], s'. rewrite Nat.add_0_r.
    now repeat split. }
  revert k pos s.
  induction r as [ | | p | p | r1 IH1 | r1 IH1 r2 IH2 | r1 IH1 r2 IH2 ];
    intros k pos s; cbn [rmatch].
  - destruct (Nat.eqb pos 0); [ apply Hstay | discriminate ].
  - destruct s as [ | c [ | c' s ] ]; try discriminate; [ apply Hstay | ].
    destruct (c =? 10)%N; [ apply Hstay | discriminate ].
  - destruct s as [ | c s ]; [ discriminate | ].
    destruct (p c) eqn:Hc; [ | discriminate ].
    intros H. exists [c], s. cbn [app List.length].
    rewrite Nat.add_1_r. repeat split; auto.
  - apply star_sound.
  - destruct (rmatch r1 k pos s) as [ a' | ] eqn:H1; [ | apply Hstay ].
    intros [= ->]. exact (IH1 _ _ _ H1).
  - intros H. destruct (IH1 _ _ _ H) as (m1 & rest1 & -> & Hm1 & H2).
    destruct (IH2 _ _ _ H2) as (m2 & rest2 & -> & Hm2 & Hk).
    exists (m1 ++ m2), rest2. rewrite <- app_assoc, length_app, Nat.add_assoc.
    repeat split; [ | assumption ].
    apply Forall_app. split; [ eapply Forall_impl; [ | exact Hm1 ]
                             | eapply Forall_impl; [ | exact Hm2 ] ];
      intros c Hc; cbn [accepts]; rewrite Hc; auto using orb_true_r.
  - destruct (rmatch r1 k pos s) as [ a' | ] eqn:H1.
    + intros [= ->]. destruct (IH1 _ _ _ H1) as (m & rest & -> & Hm & Hk).
      exists m, rest. repeat split; [ | assumption ].
      eapply Forall_impl; [ | exact Hm ]. intros c Hc. cbn [accepts].
      now rewrite Hc.
    + intros H. destruct (IH2 _ _ _ H) as (m & rest & -> & Hm & Hk).
      exists m, rest. repeat split; [ | assumption ].
      eapply Forall_impl; [ | exact Hm ]. intros c Hc. cbn [accepts].
      rewrite Hc. apply orb_true_r.
Qed.
End MatcherFacts.

Lemma match_at_accepts r pos s m :
  match_at r pos s = Some m -> Forall (fun c => accepts r c = true) m.
Proof.
  unfold match_at.
  destruct (rmatch r (fun e _ => Some e) pos s) as [ e | ] eqn:H;
    [ | discriminate ].
  intros [= <-].
  destruct (rmatch_sound _ _ _ _ _ _ H) as (m' & rest & -> & Hm & [= <-]).
  replace (pos + List.length m' - pos) with (List.length m') by lia.
  now rewrite firstn_exact.
Qed.

Lemma search_from_accepts r pos s m :
  search_from r pos s = Some m -> Forall (fun c => accepts r c = true) m.
Proof.
  revert pos. induction s as [ | c s IH ]; intros pos; cbn [search_from];
    destruct (match_at r pos _) as [ m' | ] eqn:H;
    try discriminate; try (intros [= <-]; exact (match_at_accepts _ _ _ _ H)).
  apply IH.
Qed.

Lemma whole_number_body_accepts c :
  accepts whole_number_body c = true -> numeric_char c = true.
Proof.
  unfold whole_number_body, Plus, numeric_char. cbn [accepts].
  destruct (isdecimal c), (isspace c), (is_char dot c), (is_char minus c);
    cbn; congruence.
Qed.

Lemma embedded_number_accepts c :
  accepts embedded_number c = true ->
  (isdecimal c || isspace c || is_char dot c || is_char comma c) = true.
Proof.
  unfold embedded_number, Plus. cbn [accepts].
  destruct (isdecimal c), (isspace c), (is_char dot c), (is_char comma c);
    cbn; congruence.
Qed.

(** A text the whole-text pattern matches is made of digits, a minus sign,
    a point and, at most, a last newline. *)
Lemma whole_number_text x m :
  search whole_number x = Some m ->
  Forall (fun c => numeric_char c = true) x.
Proof.
  rewrite search_whole_number. unfold match_at.
  destruct (rmatch whole_number (fun e _ => Some e) 0 x) as [ e | ] eqn:H;
    [ intros _ | discriminate ].
  change (rmatch whole_number_body (rmatch Eos (fun e0 _ => Some e0)) 0 x
          = Some e) in H.
  destruct (rmatch_sound _ _ _ _ _ _ H) as (m1 & rest & -> & Hm & Hk).
  apply Forall_app. split.
  - eapply Forall_impl; [ | exact Hm ]. exact whole_number_body_accepts.
  - cbn [rmatch] in Hk.
    destruct rest as [ | c [ | c' rest ] ]; try discriminate; [ constructor | ].
    destruct (N.eqb_spec c 10) as [ -> | ]; [ | discriminate ].
    constructor; [ now vm_compute | constructor ].
Qed.

Lemma replace_char_Forall (P : N -> Prop) c new x :
  Forall P new -> Forall (fun a => a <> c -> P a) x ->
  Forall P (replace c new x).
Proof.
  intros Hnew. unfold replace.
  induction 1 as [ | a x Ha Hx IH ]; cbn [flat_map]; [ constructor | ].
  apply Forall_app. split; [ | exact IH ].
  destruct (N.eqb_spec a c); [ assumption | ]. constructor; auto.
Qed.

Lemma float_argument_chars x t :
  float_argument x = Some t -> Forall (fun c => numeric_char c = true) t.
Proof.
  unfold float_argument. destruct x as [ | c x ]; [ discriminate | ].
  destruct (search whole_number (normalized (c :: x))) as [ m | ] eqn:Hw.
  - intros [= <-]. exact (whole_number_text _ _ Hw).
  - destruct (search embedded_number (normalized (c :: x))) as [ g | ] eqn:He;
      [ | discriminate ].
    intros [= <-]. apply search_from_accepts in He.
    apply replace_char_Forall; [ repeat constructor | ].
    apply replace_char_Forall; [ constructor | ].
    eapply Forall_impl; [ | exact He ].
    intros a Ha Hs Hc. apply embedded_number_accepts in Ha.
    unfold numeric_char.
    assert (Hcomma : is_char comma a = false).
    { unfold is_char. now apply N.eqb_neq. }
    rewrite Hcomma, orb_false_r in Ha. rewrite Ha. reflexivity.
Qed.

(** C4, the reach of [float]: [_num] is [float] on the text it has
    normalised or cut out, and whatever the cell that text holds only
    decimal digits, white space, the point and the minus sign. *)
Theorem float_reads_numeric_text x :
  _num x = match float_argument x with
           | Some t => float t
           | None => None
           end
  /\ forall t, float_argument x = Some t ->
               Forall (fun c => numeric_char c = true) t.
Proof.
  split; [ | exact (float_argument_chars x) ].
  unfold _num, float_argument, normalized, unspace.
  destruct x as [ | c x ]; [ reflexivity | ].
  destruct (search whole_number _); [ reflexivity | ].
  destruct (search embedded_number _); reflexivity.
Qed.

(** ** What [_num] cannot tell apart *)

Lemma isspace_cases c :
  isspace c = true ->
  In c [9; 10; 11; 12; 13; 28; 29; 30; 31; 32; 133; 160; 5760; 8192; 8193;
        8194; 8195; 8196; 8197; 8198; 8199; 8200; 8201; 8202; 8232; 8233;
        8239; 8287; 12288]%N.
Proof.
  unfold isspace. cbn [existsb fst snd]. unfold in_range. intros H.
  repeat (apply orb_true_iff in H; destruct H as [H | H]);
    try discriminate;
    apply andb_true_iff in H as [H1 H2]; apply N.leb_le in H1, H2;
    cbn [In].
  all: try (assert (Hc : (c = 9 \/ c = 10 \/ c = 11 \/ c = 12 \/ c = 13)%N)
              by lia; intuition auto; fail).
  all: try (assert (Hc : (c = 28 \/ c = 29 \/ c = 30 \/ c = 31 \/ c = 32)%N)
              by lia; intuition auto; fail).
  all: try (assert (Hc : (c = 8192 \/ c = 8193 \/ c = 8194 \/ c = 8195
                          \/ c = 8196 \/ c = 8197 \/ c = 8198 \/ c = 8199
                          \/ c = 8200 \/ c = 8201 \/ c = 8202)%N)
              by lia; intuition auto; fail).
  all: try (assert (Hc : (c = 8232 \/ c = 8233)%N) by lia; intuition auto; fail).
  all: assert (Hc : (c = 133 \/ c = 160 \/ c = 5760 \/ c = 8239 \/ c = 8287
                     \/ c = 12288)%N) by lia; intuition auto.
Qed.

Ltac by_isspace H :=
  apply isspace_cases in H; cbn [In] in H;
  repeat (destruct H as [H | H]; [subst; now vm_compute | ]);
  contradiction.

Lemma isspace_not_decimal c : isspace c = true -> todecimal c = None.
Proof. intros H. by_isspace H. Qed.

Lemma isspace_plain c :
  isspace c = true ->
  (c =? comma)%N = false /\ (c =? dot)%N = false /\ (c =? minus)%N = false.
Proof. intros H. by_isspace H. Qed.

Lemma blank_isspace c : blank c = true -> isspace c = true.
Proof.
  unfold blank, is_char. intros H. apply orb_true_iff in H.
  destruct H as [H | H]; apply N.eqb_eq in H; subst; now vm_compute.
Qed.

Lemma unspace_idem p : unspace (unspace p) = unspace p.
Proof.
  induction p as [ | a p IH ]; [ reflexivity | ].
  rewrite unspace_cons.
  destruct (blank a) eqn:Hb; [ exact IH | ].
  destruct (a =? comma)%N eqn:Hc; cbn [app]; rewrite unspace_cons.
  - change (blank dot) with false. change (dot =? comma)%N with false.
    cbn [app]. now rewrite IH.
  - rewrite Hb, Hc. cbn [app]. now rewrite IH.
Qed.

Lemma lstrip_unspace x : lstrip (unspace x) = unspace (lstrip x).
Proof.
  induction x as [ | a x IH ]; [ reflexivity | ].
  rewrite unspace_cons. cbn [lstrip].
  destruct (blank a) eqn:Hb.
  - rewrite (blank_isspace _ Hb). exact IH.
  - destruct (isspace a) eqn:Hs.
    + rewrite (proj1 (isspace_plain _ Hs)). cbn [app lstrip].
      rewrite Hs. exact IH.
    + rewrite unspace_cons, Hb.
      destruct (a =? comma)%N; cbn [app lstrip]; [ reflexivity | ].
      now rewrite Hs.
Qed.

Lemma unspace_rev x : unspace (rev x) = rev (unspace x).
Proof.
  induction x as [ | a x IH ]; [ reflexivity | ].
  cbn [rev]. rewrite unspace_app, IH, (unspace_cons a x), rev_app_distr.
  f_equal. rewrite unspace_cons.
  destruct (blank a); [ reflexivity | ].
  destruct (a =? comma)%N; reflexivity.
Qed.

Lemma strip_unspace x : strip (unspace x) = unspace (strip x).
Proof.
  unfold strip, rstrip.
  now rewrite lstrip_unspace, <- unspace_rev, lstrip_unspace, unspace_rev.
Qed.

Lemma normalized_unspace x : normalized (unspace x) = normalized x.
Proof. unfold normalized. now rewrite strip_unspace, unspace_idem. Qed.

Lemma normalized_nil x : unspace x = [] -> normalized x = [].
Proof.
  intros H. rewrite <- normalized_unspace, H. reflexivity.
Qed.

Lemma _num_unspace x : _num (unspace x) = _num x.
Proof.
  destruct x as [ | c x ]; [ reflexivity | ].
  rewrite (_num_eq (c :: x)) by discriminate.
  destruct (unspace (c :: x)) as [ | c' x' ] eqn:Hu.
  - rewrite (normalized_nil _ Hu). reflexivity.
  - rewrite _num_eq by discriminate.
    now rewrite <- Hu, normalized_unspace.
Qed.

(** Blanks count for nothing and a comma is a point: [_num] sees a cell
    only through the text left when the spaces and no-break spaces are
    taken out and the commas are turned into points. *)
Theorem num_ignores_blanks :
  (forall x, _num (unspace x) = _num x)
  /\ (forall x, _num (filter (fun c => negb (blank c)) x) = _num x)
  /\ (forall x y, unspace x = unspace y -> _num x = _num y).
Proof.
  split; [ exact _num_unspace | split ].
  - intros x. rewrite <- (_num_unspace x), <- (_num_unspace (filter _ x)).
    f_equal. induction x as [ | a x IH ]; [ reflexivity | ].
    cbn [filter]. rewrite (unspace_cons a x).
    destruct (blank a) eqn:Hb; cbn [negb app]; [ exact IH | ].
    now rewrite unspace_cons, Hb, IH.
  - intros x y H. now rewrite <- (_num_unspace x), H, _num_unspace.
Qed.

(** ** The second normalisation *)

Lemma match_at_prefix r pos s m :
  match_at r pos s = Some m -> exists rest, s = m ++ rest.
Proof.
  unfold match_at.
  destruct (rmatch r (fun e _ => Some e) pos s) as [ e | ] eqn:H;
    [ | discriminate ].
  intros [= <-].
  destruct (rmatch_sound _ _ _ _ _ _ H) as (m' & rest & -> & _ & [= <-]).
  exists rest.
  replace (pos + List.length m' - pos) with (List.length m') by lia.
  now rewrite firstn_exact.
Qed.

Lemma search_from_part r pos s m :
  search_from r pos s = Some m -> exists a b, s = a ++ m ++ b.
Proof.
  revert pos. induction s as [ | c s IH ]; intros pos; cbn [search_from];
    destruct (match_at r pos _) as [ m' | ] eqn:H; try discriminate.
  - intros [= <-]. destruct (match_at_prefix _ _ _ _ H) as [rest ->].
    now exists [], rest.
  - intros [= <-]. destruct (match_at_prefix _ _ _ _ H) as [rest Hr].
    exists [], rest. exact Hr.
  - intros Hs. destruct (IH _ Hs) as (a & b & ->). now exists (c :: a), b.
Qed.

Lemma unspace_clean p :
  Forall (fun c => blank c = false /\ (c =? comma)%N = false) (unspace p).
Proof.
  induction p as [ | a p IH ]; [ constructor | ].
  rewrite unspace_cons.
  destruct (blank a) eqn:Hb; [ exact IH | ].
  destruct (a =? comma)%N eqn:Hc; cbn [app]; constructor; auto.
Qed.

(** The match the second pattern finds holds no space, no no-break space
    and no comma, so that the two [replace] calls on it change nothing:
    [_num] hands the match to [float] as it is. *)
Theorem embedded_match_is_clean x g :
  search embedded_number (normalized x) = Some g ->
  Forall (fun c => blank c = false /\ (c =? comma)%N = false) g
  /\ replace comma [dot] (replace space [] g) = g.
Proof.
  intros H. destruct (search_from_part _ _ _ _ H) as (a & b & Hn).
  assert (Hg : Forall (fun c => blank c = false /\ (c =? comma)%N = false) g).
  { pose proof (unspace_clean (strip x)) as Hc.
    fold (normalized x) in Hc. rewrite Hn in Hc.
    apply Forall_app in Hc as [_ Hc]. now apply Forall_app in Hc as [Hc _]. }
  split; [ exact Hg | ].
  rewrite (replace_absent space).
  - apply replace_absent. eapply Forall_impl; [ | exact Hg ]. now intros c [_ Hc].
  - eapply Forall_impl; [ | exact Hg ]. intros c [Hb _].
    unfold blank, is_char in Hb. now apply orb_false_iff in Hb as [Hb _].
Qed.

(** ** Grouping by other white space *)

Lemma unspace_id p : Forall clean p -> unspace p = p.
Proof.
  induction 1 as [ | a p [Hb Hc] _ IH ]; [ reflexivity | ].
  now rewrite unspace_cons, Hb, Hc, IH.
Qed.

Lemma clean_digit c : ascii_digit c = true -> clean c.
Proof.
  intros H. split; [ now apply blank_ascii_digit | ].
  now destruct (ascii_digit_plain _ H) as (_ & _ & Hc & _).
Qed.

Lemma clean_other_space c : other_space c = true -> clean c.
Proof.
  unfold other_space. intros H. apply andb_true_iff in H as [Hs Hb].
  split; [ now apply negb_true_iff in Hb | exact (proj1 (isspace_plain _ Hs)) ].
Qed.

(** The digits before the first white space of a group. *)
Lemma first_other_space G :
  Forall (fun c => ascii_digit c = true \/ other_space c = true) G ->
  Exists (fun c => other_space c = true) G ->
  exists D c G', G = D ++ c :: G' /\ digits D /\ other_space c = true.
Proof.
  induction 1 as [ | a G Ha HG IH ]; intros He; [ inversion He | ].
  destruct (other_space a) eqn:Ho.
  - exists [], a, G. repeat split; [ constructor | exact Ho ].
  - destruct Ha as [Ha | Ha]; [ | congruence ].
    inversion He as [ ? ? H | ? ? H ]; subst; [ congruence | ].
    destruct (IH H) as (D & c & G' & -> & HD & Hc).
    exists (a :: D), c, G'. repeat split; [ now constructor | exact Hc ].
Qed.

Lemma whole_number_shape x m :
  search whole_number x = Some m ->
  exists body rest,
    x = body ++ rest
    /\ Forall (fun c => accepts whole_number_body c = true) body
    /\ (rest = [] \/ rest = [10%N]).
Proof.
  rewrite search_whole_number. unfold match_at.
  destruct (rmatch whole_number (fun e _ => Some e) 0 x) as [ e | ] eqn:H;
    [ intros _ | discriminate ].
  change (rmatch whole_number_body (rmatch Eos (fun e0 _ => Some e0)) 0 x
          = Some e) in H.
  destruct (rmatch_sound _ _ _ _ _ _ H) as (m1 & rest & -> & Hm & Hk).
  exists m1, rest. repeat split; [ exact Hm | ].
  cbn [rmatch] in Hk.
  destruct rest as [ | c [ | c' rest ] ]; try discriminate; [ now left | ].
  destruct (N.eqb_spec c 10) as [ -> | ]; [ now right | discriminate ].
Qed.

Lemma whole_number_body_char c :
  accepts whole_number_body c = true -> isspace c = false.
Proof.
  unfold whole_number_body, Plus. cbn [accepts]. intros H.
  destruct (isspace c) eqn:Hs; [ | reflexivity ].
  destruct (isspace_plain _ Hs) as (_ & Hd & Hm).
  unfold is_char in H. unfold isdecimal in H.
  rewrite (isspace_not_decimal _ Hs), Hd, Hm in H. discriminate.
Qed.

(** The whole-text pattern fails on text with white space before its
    last character. *)
Lemma whole_number_no_space pre c post z :
  isspace c = true -> isspace z = false ->
  search whole_number (pre ++ c :: post ++ [z]) = None.
Proof.
  intros Hc Hz.
  destruct (search whole_number _) as [ m | ] eqn:H; [ exfalso | reflexivity ].
  destruct (whole_number_shape _ _ H) as (body & rest & Hx & Hb & Hr).
  assert (Hbody : body = pre ++ c :: post ++ [z]).
  { destruct Hr as [ -> | -> ]; [ now rewrite app_nil_r in Hx | exfalso ].
    change (pre ++ c :: post ++ [z]) with (pre ++ (c :: post) ++ [z]) in Hx.
    rewrite app_assoc in Hx. apply app_inj_tail in Hx as [_ ->].
    now vm_compute in Hz. }
  subst body. apply Forall_app in Hb as [_ Hb].
  inversion Hb as [ | ? ? Hcb _ ]; subst.
  apply whole_number_body_char in Hcb. congruence.
Qed.

Lemma match_at_embedded_spaced d G e fp :
  ascii_digit d = true ->
  Forall (fun c => ascii_digit c = true \/ other_space c = true) G ->
  digits (e :: fp) ->
  match_at embedded_number 0 (d :: G ++ dot :: e :: fp)
  = Some (d :: G ++ dot :: e :: fp).
Proof.
  intros Hd HG Hfp. inversion Hfp as [ | ? ? He Hfp' ]; subst.
  unfold match_at.
  assert (Hm : rmatch embedded_number (fun e0 _ => Some e0) 0
                 (d :: G ++ dot :: e :: fp)
               = Some (List.length (d :: G ++ dot :: e :: fp))).
  { unfold embedded_number, Plus. cbn [rmatch].
    rewrite (isdecimal_ascii _ Hd).
    rewrite (@star_run _ _ _ G (dot :: e :: fp)
               (List.length (d :: G ++ dot :: e :: fp)));
      [ reflexivity | | reflexivity | ].
    - eapply Forall_impl; [ | exact HG ].
      intros c [Hc | Hc]; cbn.
      + now rewrite (isdecimal_ascii _ Hc).
      + unfold other_space in Hc. apply andb_true_iff in Hc as [Hc _].
        rewrite Hc. apply orb_true_r.
    - cbn [rmatch]. unfold is_char. rewrite N.eqb_refl. cbn [orb].
      rewrite (isdecimal_ascii _ He).
      rewrite <- (app_nil_r fp) at 1.
      rewrite (@star_run _ isdecimal _ fp []
                 (List.length (d :: G ++ dot :: e :: fp)));
        [ reflexivity | now apply digits_decimal | exact I | ].
      f_equal. cbn [List.length]. rewrite length_app. cbn [List.length]. lia. }
  rewrite Hm. f_equal. rewrite Nat.sub_0_r.
  rewrite <- (app_nil_r (d :: G ++ dot :: e :: fp)) at 2.
  now apply firstn_exact.
Qed.

Lemma float_spaced d D c rest :
  digits (d :: D) -> isspace c = true ->
  head_not isspace (rev (d :: D ++ c :: rest)) ->
  float (d :: D ++ c :: rest) = None.
Proof.
  intros HD Hc Hlast. unfold float. rewrite strip_id; [ | | exact Hlast ].
  2: { inversion HD; subst. cbn. now apply isspace_ascii_digit. }
  inversion HD as [ | ? ? Hd _ ]; subst.
  destruct (ascii_digit_plain _ Hd) as (_ & _ & _ & _ & Hm & Hp).
  unfold minus in Hm. rewrite Hm, Hp.
  change (d :: D ++ c :: rest) with ((d :: D) ++ c :: rest).
  rewrite span_digits_run; [ | assumption | ].
  2: { cbn. unfold isdecimal. now rewrite (isspace_not_decimal _ Hc). }
  destruct (isspace_plain _ Hc) as (_ & Hdot & _). unfold dot in Hdot.
  rewrite Hdot. reflexivity.
Qed.

Lemma num_spaced d G e fp :
  ascii_digit d = true ->
  Forall (fun c => ascii_digit c = true \/ other_space c = true) G ->
  Exists (fun c => other_space c = true) G ->
  digits (e :: fp) ->
  _num (d :: G ++ dot :: e :: fp) = None.
Proof.
  intros Hd HG Hex Hfp.
  set (x := d :: G ++ dot :: e :: fp).
  assert (Hclean : Forall clean x).
  { unfold x. constructor; [ now apply clean_digit | ].
    apply Forall_app. split.
    - eapply Forall_impl; [ | exact HG ].
      intros c [Hc | Hc]; [ now apply clean_digit | now apply clean_other_space ].
    - constructor; [ now split | ].
      eapply Forall_impl; [ | exact Hfp ]. exact clean_digit. }
  destruct (exists_last (l := e :: fp)) as (fp' & z & Hz); [ discriminate | ].
  assert (Hzd : ascii_digit z = true).
  { unfold digits in Hfp. rewrite Hz in Hfp.
    apply Forall_app in Hfp as [_ Hfp]. now inversion Hfp. }
  destruct (first_other_space G HG Hex) as (D & c & G' & HGeq & HD & Hc).
  assert (Hcs : isspace c = true).
  { unfold other_space in Hc. now apply andb_true_iff in Hc as [Hc _]. }
  assert (Hx : x = (d :: D) ++ c :: (G' ++ dot :: fp') ++ [z]).
  { unfold x. rewrite HGeq, Hz. cbn [app].
    now rewrite <- !app_assoc. }
  assert (Hlast : head_not isspace (rev x)).
  { rewrite Hx. change (c :: (G' ++ dot :: fp') ++ [z])
      with ((c :: G' ++ dot :: fp') ++ [z]).
    rewrite app_assoc, rev_app_distr. cbn. now apply isspace_ascii_digit. }
  assert (Hn : normalized x = x).
  { unfold normalized. rewrite strip_id; [ now apply unspace_id | | exact Hlast ].
    cbn. now apply isspace_ascii_digit. }
  rewrite _num_eq by discriminate. fold x. rewrite Hn.
  assert (Hw : search whole_number x = None).
  { rewrite Hx. apply whole_number_no_space; [ exact Hcs | ].
    now apply isspace_ascii_digit. }
  assert (He : search embedded_number x = Some x).
  { unfold search, x. cbn [search_from].
    now rewrite match_at_embedded_spaced. }
  rewrite Hw, He.
  rewrite (replace_absent space).
  2: { eapply Forall_impl; [ | exact Hclean ]. intros a [Hb _].
       unfold blank, is_char in Hb. now apply orb_false_iff in Hb as [Hb _]. }
  rewrite (replace_absent comma).
  2: { eapply Forall_impl; [ | exact Hclean ]. now intros a [_ Ha]. }
  rewrite Hx in Hlast |- *.
  apply float_spaced; [ now constructor | exact Hcs | exact Hlast ].
Qed.

Lemma unspace_group G :
  Forall (fun c => ascii_digit c = true \/ isspace c = true) G ->
  Forall (fun c => ascii_digit c = true \/ other_space c = true) (unspace G)
  /\ (Exists (fun c => other_space c = true) G ->
      Exists (fun c => other_space c = true) (unspace G)).
Proof.
  induction 1 as [ | a G Ha _ [IH1 IH2] ].
  - split; [ constructor | intros H; inversion H ].
  - rewrite unspace_cons. destruct (blank a) eqn:Hb; cbn [app].
    + split; [ exact IH1 | ].
      intros H. inversion H as [ ? ? Ho | ? ? Ho ]; subst; [ | now apply IH2 ].
      unfold other_space in Ho. rewrite Hb in Ho.
      now rewrite andb_false_r in Ho.
    + assert (Ha' : ascii_digit a = true \/ other_space a = true).
      { destruct Ha as [Ha | Ha]; [ now left | right ].
        unfold other_space. now rewrite Ha, Hb. }
      assert (Hc : (a =? comma)%N = false).
      { destruct Ha' as [H | H]; [ apply clean_digit in H
                                 | apply clean_other_space in H ];
          exact (proj2 H). }
      rewrite Hc. cbn [app]. split; [ now constructor | ].
      intros H. inversion H as [ ? ? Ho | ? ? Ho ]; subst;
        [ now apply Exists_cons_hd | apply Exists_cons_tl; now apply IH2 ].
Qed.

(** ** Signs and integers *)

Lemma whole_number_numeral (A : Type) (k : nat -> str -> option A)
      neg d D1 D2 a :
  digits (d :: D1) -> digits D2 ->
  k (List.length (numeral neg (d :: D1) D2)) [] = Some a ->
  rmatch whole_number k 0 (numeral neg (d :: D1) D2) = Some a.
Proof.
  intros H1 H2 Hk.
  inversion H1 as [ | ? ? Hd HD1 ]; subst.
  destruct (ascii_digit_plain _ Hd) as (_ & _ & _ & _ & Hm & _).
  assert (Hrest : forall pos,
             k (pos + List.length (d :: D1 ++ fraction D2)) [] = Some a ->
             rmatch (Seq (Plus isdecimal)
                       (Seq (Opt (Seq (Cls (is_char dot)) (Plus isdecimal)))
                            Eos)) k pos (d :: D1 ++ fraction D2) = Some a).
  { intros pos Hk'. unfold Plus. cbn [rmatch].
    rewrite (isdecimal_ascii _ Hd).
    apply star_run.
    - now apply digits_decimal.
    - destruct D2; [ exact I | exact isdecimal_dot ].
    - destruct D2 as [ | e D2 ]; cbn [fraction] in *.
      + cbn [rmatch]. rewrite app_nil_r in Hk'. cbn [List.length] in Hk'.
        now rewrite Nat.add_succ_r in Hk'.
      + inversion H2 as [ | ? ? He HD2 ]; subst.
        cbn [rmatch]. unfold is_char at 1. rewrite N.eqb_refl.
        rewrite (isdecimal_ascii _ He).
        rewrite <- (app_nil_r D2).
        rewrite (@star_run _ isdecimal _ D2 [] a);
          [ reflexivity | now apply digits_decimal | exact I | ].
        cbn [rmatch]. rewrite <- Hk'. f_equal.
        cbn [List.length]. rewrite length_app. cbn [List.length]. lia. }
  unfold numeral.
  assert (Hopt : forall c s,
             rmatch whole_number k 0 (c :: s)
             = if is_char minus c
               then match rmatch (Seq (Plus isdecimal)
                             (Seq (Opt (Seq (Cls (is_char dot))
                                            (Plus isdecimal))) Eos)) k 1 s with
                    | Some a' => Some a'
                    | None => rmatch (Seq (Plus isdecimal)
                                (Seq (Opt (Seq (Cls (is_char dot))
                                               (Plus isdecimal))) Eos))
                                k 0 (c :: s)
                    end
               else rmatch (Seq (Plus isdecimal)
                      (Seq (Opt (Seq (Cls (is_char dot)) (Plus isdecimal)))
                           Eos)) k 0 (c :: s)).
  { intros c s. unfold whole_number. cbn [rmatch Nat.eqb].
    destruct (is_char minus c); reflexivity. }
  destruct neg; cbn [app]; rewrite Hopt.
  - unfold is_char at 1. rewrite N.eqb_refl.
    rewrite (Hrest 1); [ reflexivity | ].
    rewrite <- Hk. f_equal.
  - unfold is_char at 1. rewrite Hm. apply Hrest. exact Hk.
Qed.

Lemma decimal_value_make D1 D2 :
  Qmake (Z.of_N (of_digits (map digit_value D1 ++ map digit_value D2)))
        (Z.to_pos (10 ^ Z.of_nat (List.length D2)))
  == decimal_value D1 D2.
Proof.
  unfold decimal_value. rewrite of_digits_app, length_map.
  set (n := List.length D2).
  assert (Hpos : (0 < 10 ^ Z.of_nat n)%Z) by (apply Z.pow_pos_nonneg; lia).
  rewrite Qmake_Qdiv, Z2Pos.id by exact Hpos.
  rewrite N2Z.inj_add, N2Z.inj_mul, N2Z.inj_pow, nat_N_Z.
  change (Z.of_N 10) with 10%Z.
  rewrite inject_Z_plus, inject_Z_mult.
  field. intros Hz.
  apply (Qlt_not_eq (inject_Z 0) (inject_Z (10 ^ Z.of_nat n))).
  - rewrite <- Zlt_Qlt. exact Hpos.
  - symmetry. exact Hz.
Qed.

Lemma numeral_not_space neg D1 D2 :
  digits D1 -> digits D2 ->
  Forall (fun c => isspace c = false) (numeral neg D1 D2).
Proof.
  intros H1 H2. unfold numeral. apply Forall_app. split.
  - destruct neg; repeat constructor.
  - apply Forall_app. split.
    + eapply Forall_impl; [ | exact H1 ]. exact isspace_ascii_digit.
    + destruct D2 as [ | e D2 ]; [ constructor | ].
      cbn [fraction]. constructor; [ reflexivity | ].
      eapply Forall_impl; [ | exact H2 ]. exact isspace_ascii_digit.
Qed.

Lemma float_numeral neg d D1 D2 :
  digits (d :: D1) -> digits D2 ->
  float (numeral neg (d :: D1) D2)
  = Some (Qred (if neg then - decimal_value (d :: D1) D2
                else decimal_value (d :: D1) D2)).
Proof.
  intros H1 H2.
  pose proof (numeral_not_space neg _ _ H1 H2) as Hns.
  unfold float. rewrite strip_id.
  2: { apply head_not_Forall. exact Hns. }
  2: { apply head_not_Forall. apply Forall_rev. exact Hns. }
  inversion H1 as [ | ? ? Hd HD1 ]; subst.
  destruct (ascii_digit_plain _ Hd) as (_ & _ & _ & _ & Hm & Hp).
  unfold minus in Hm.
  assert (Hspan : span_digits ((d :: D1) ++ fraction D2)
                  = (map digit_value (d :: D1), fraction D2)).
  { apply span_digits_run; [ assumption | ].
    destruct D2; [ exact I | exact isdecimal_dot ]. }
  assert (Hfrac : (match fraction D2 with
                   | c :: r => if (c =? 46)%N then span_digits r
                               else ([], fraction D2)
                   | [] => ([], fraction D2)
                   end) = (map digit_value D2, [])).
  { destruct D2 as [ | e D2 ]; [ reflexivity | ]. cbn [fraction].
    change (dot =? 46)%N with true. cbv iota.
    rewrite <- (app_nil_r (e :: D2)) at 1.
    now rewrite span_digits_run. }
  assert (Hval : forall sgn : bool,
             Some (Qred (Qmake (if sgn
                                then - Z.of_N (of_digits
                                       (map digit_value (d :: D1)
                                        ++ map digit_value D2))
                                else Z.of_N (of_digits
                                       (map digit_value (d :: D1)
                                        ++ map digit_value D2)))
                               (Z.to_pos (10 ^ Z.of_nat
                                  (List.length (map digit_value D2))))))
             = Some (Qred (if sgn then - decimal_value (d :: D1) D2
                           else decimal_value (d :: D1) D2))).
  { intros sgn. f_equal. apply Qred_complete. rewrite length_map.
    destruct sgn; [ | apply decimal_value_make ].
    rewrite <- decimal_value_make. reflexivity. }
  unfold numeral. destruct neg; cbn [app].
  - change (minus =? 45)%N with true. cbv iota.
    change (d :: D1 ++ fraction D2) with ((d :: D1) ++ fraction D2).
    rewrite Hspan, Hfrac. cbn [map app]. exact (Hval true).
  - rewrite Hm, Hp.
    change (d :: D1 ++ fraction D2) with ((d :: D1) ++ fraction D2).
    rewrite Hspan, Hfrac. cbn [map app]. exact (Hval false).
Qed.

(** When what is left of a cell, once stripped and rid of its blanks, is
    an optionally signed numeral with or without a fraction, [_num] is its
    value: integers are read, and a leading minus sign is kept. *)
Theorem num_signed_numeral x neg d D1 D2 :
  digits (d :: D1) -> digits D2 ->
  normalized x = numeral neg (d :: D1) D2 ->
  _num x = Some (Qred (if neg then - decimal_value (d :: D1) D2
                       else decimal_value (d :: D1) D2)).
Proof.
  intros H1 H2 Hn.
  assert (Hx : x <> []).
  { intros ->. unfold numeral in Hn. now destruct neg. }
  rewrite _num_eq by exact Hx. rewrite Hn, search_whole_number.
  unfold match_at. erewrite whole_number_numeral by (eauto).
  now apply float_numeral.
Qed.

(** ** Digits grouped by other white space *)

(** A repetition cannot be followed by a character of class [q] when the
    text holds none. *)
Lemma star_stuck (A : Type) p q (k : nat -> str -> option A) pos s :
  (forall pos' s', head_not q s' -> k pos' s' = None) ->
  Forall (fun c => q c = false) s ->
  star p k pos s = None.
Proof.
  intros Hk H. revert pos. induction H as [ | c s Hc _ IH ]; intros pos.
  - cbn [star]. apply Hk. exact I.
  - cbn [star]. rewrite IH, (Hk pos (c :: s)) by exact Hc.
    now destruct (p c).
Qed.

(** Without a separator the second pattern matches the first digits. *)
Lemma match_at_embedded_group d D c rest :
  digits (d :: D) -> other_space c = true ->
  Forall (fun a => ascii_digit a = true \/ other_space a = true) rest ->
  match_at embedded_number 0 (d :: D ++ c :: rest) = Some (d :: D).
Proof.
  intros HD Hc Hrest. inversion HD as [ | ? ? Hd HD' ]; subst.
  assert (Hcs : isspace c = true).
  { unfold other_space in Hc. now apply andb_true_iff in Hc as [Hc _]. }
  set (sep := fun a => is_char dot a || is_char comma a).
  assert (Hsep : Forall (fun a => sep a = false) (D ++ c :: rest)).
  { assert (L : forall a, ascii_digit a = true \/ other_space a = true ->
                          sep a = false).
    { intros a [Ha | Ha]; unfold sep, is_char.
      - destruct (ascii_digit_plain _ Ha) as (_ & _ & H1 & H2 & _).
        now rewrite H1, H2.
      - unfold other_space in Ha. apply andb_true_iff in Ha as [Ha _].
        destruct (isspace_plain _ Ha) as (H1 & H2 & _). now rewrite H1, H2. }
    apply Forall_app. split.
    - eapply Forall_impl; [ | exact HD' ]. intros a Ha. apply L. now left.
    - constructor; [ apply L; now right | ].
      eapply Forall_impl; [ | exact Hrest ]. exact L. }
  unfold match_at.
  assert (Hm : rmatch embedded_number (fun e _ => Some e) 0
                 (d :: D ++ c :: rest)
               = Some (List.length (d :: D))).
  { unfold embedded_number, Plus.
    change (match (if isdecimal d
                   then star (fun a => isdecimal a || isspace a)
                          (rmatch (Seq (Cls sep) (Seq (Cls isdecimal)
                                                    (Star isdecimal)))
                                  (fun e _ => Some e))
                          1 (D ++ c :: rest)
                   else None) with
            | Some a => Some a
            | None =>
              if isdecimal d
              then star isdecimal (fun e _ => Some e) 1 (D ++ c :: rest)
              else None
            end = Some (List.length (d :: D))).
    rewrite (isdecimal_ascii _ Hd).
    rewrite (star_stuck _ _ sep).
    - apply star_run; [ now apply digits_decimal | | reflexivity ].
      cbn. unfold isdecimal. now rewrite (isspace_not_decimal _ Hcs).
    - intros pos' [ | a s' ] Hh; cbn [rmatch]; [ reflexivity | ].
      cbn in Hh. now rewrite Hh.
    - exact Hsep. }
  rewrite Hm, Nat.sub_0_r. f_equal.
  change (d :: D ++ c :: rest) with ((d :: D) ++ c :: rest).
  now apply firstn_exact.
Qed.

Lemma num_first_group d D c G' z :
  digits (d :: D) -> other_space c = true ->
  Forall (fun a => ascii_digit a = true \/ other_space a = true) G' ->
  ascii_digit z = true ->
  _num (d :: D ++ c :: G' ++ [z]) = Some (Qred (decimal_value (d :: D) [])).
Proof.
  intros HD Hc HG Hz.
  assert (Hd : ascii_digit d = true) by now inversion HD.
  assert (Hcs : isspace c = true).
  { unfold other_space in Hc. now apply andb_true_iff in Hc as [Hc _]. }
  assert (Hplain : forall a, (a = space \/ a = comma) ->
                             Forall (fun b => (b =? a)%N = false) (d :: D)).
  { intros a Ha. eapply Forall_impl; [ | exact HD ]. intros b Hb.
    destruct (ascii_digit_plain _ Hb) as (_ & Hs & Hco & _).
    now destruct Ha as [ -> | -> ]. }
  set (x := d :: D ++ c :: G' ++ [z]).
  assert (Hx : x = ((d :: D) ++ c :: G') ++ [z]).
  { unfold x. cbn [app]. now rewrite <- app_assoc. }
  assert (Hclean : Forall clean x).
  { rewrite Hx. apply Forall_app. split; [ apply Forall_app; split | ].
    - eapply Forall_impl; [ | exact HD ]. exact clean_digit.
    - constructor; [ now apply clean_other_space | ].
      eapply Forall_impl; [ | exact HG ].
      intros a [Ha | Ha]; [ now apply clean_digit | now apply clean_other_space ].
    - constructor; [ now apply clean_digit | constructor ]. }
  assert (Hlast : head_not isspace (rev x)).
  { rewrite Hx, rev_app_distr. cbn. now apply isspace_ascii_digit. }
  assert (Hn : normalized x = x).
  { unfold normalized. rewrite strip_id; [ now apply unspace_id | | exact Hlast ].
    cbn. now apply isspace_ascii_digit. }
  rewrite _num_eq by discriminate. rewrite Hn.
  assert (Hw : search whole_number x = None).
  { unfold x. change (d :: D ++ c :: G' ++ [z])
      with ((d :: D) ++ c :: G' ++ [z]).
    apply whole_number_no_space; [ exact Hcs | ].
    now apply isspace_ascii_digit. }
  assert (He : search embedded_number x = Some (d :: D)).
  { unfold search, x. cbn [search_from].
    rewrite match_at_embedded_group; [ reflexivity | exact HD | exact Hc | ].
    apply Forall_app. split; [ exact HG | ].
    constructor; [ now left | constructor ]. }
  rewrite Hw, He.
  rewrite (replace_absent space) by (apply Hplain; now left).
  rewrite (replace_absent comma) by (apply Hplain; now right).
  pose proof (float_numeral false d D [] HD (Forall_nil _)) as Hf.
  unfold numeral in Hf. cbn [app fraction] in Hf.
  now rewrite app_nil_r in Hf.
Qed.

(** Digits grouped by white space other than the space and the no-break
    space (a tab, a thin space, a narrow no-break space).  With a decimal
    part the number is not read: the second pattern matches it with that
    white space in it and [float] refuses the match.  Without one the
    second pattern matches the digits before the first such white space,
    and the number read is that first group alone. *)
Theorem num_other_space_grouping d G :
  ascii_digit d = true ->
  Forall (fun c => ascii_digit c = true \/ isspace c = true) G ->
  Exists (fun c => other_space c = true) G ->
  (forall sep e fp,
      sep = dot \/ sep = comma -> digits (e :: fp) ->
      _num (d :: G ++ sep :: e :: fp) = None)
  /\ (forall z,
         ascii_digit z = true ->
         exists D c G',
           unspace G = D ++ c :: G' /\ digits D /\ other_space c = true
           /\ _num (d :: G ++ [z])
              = Some (Qred (decimal_value (d :: D) []))).
Proof.
  intros Hd HG Hex. destruct (unspace_group G HG) as [HG1 HG2]. split.
  - intros sep e fp Hsep Hfp.
    rewrite <- _num_unspace.
    change (d :: G ++ sep :: e :: fp) with ([d] ++ G ++ [sep] ++ e :: fp).
    rewrite !unspace_app, (unspace_sep sep Hsep), (unspace_digits (e :: fp) Hfp).
    rewrite (unspace_digits [d]) by (now constructor).
    cbn [app]. apply num_spaced; auto.
  - intros z Hz.
    destruct (first_other_space (unspace G) HG1 (HG2 Hex))
      as (D & c & G' & HGeq & HD & Hc).
    exists D, c, G'. repeat split; try assumption.
    rewrite <- _num_unspace.
    change (d :: G ++ [z]) with ([d] ++ G ++ [z]).
    rewrite !unspace_app, (unspace_digits [d]), (unspace_digits [z])
      by (now repeat constructor).
    rewrite HGeq. cbn [app]. rewrite <- app_assoc. cbn [app].
    rewrite HGeq in HG1. apply Forall_app in HG1 as [_ HG1].
    apply num_first_group; [ now constructor | exact Hc | | exact Hz ].
    now inversion HG1.
Qed.

(** ** The minus sign *)

Lemma lstrip_idem x : lstrip (lstrip x) = lstrip x.
Proof.
  induction x as [ | c x IH ]; [ reflexivity | ].
  cbn [lstrip]. destruct (isspace c) eqn:E; [ exact IH | ].
  cbn [lstrip]. now rewrite E.
Qed.

Lemma lstrip_head x : head_not isspace (lstrip x).
Proof.
  induction x as [ | c x IH ]; [ exact I | ].
  cbn [lstrip]. destruct (isspace c) eqn:E; [ exact IH | exact E ].
Qed.

Lemma rstrip_cons c x : isspace c = false -> rstrip (c :: x) = c :: rstrip x.
Proof. intros H. exact (rstrip_app [] c x H). Qed.

Lemma strip_cons c x : isspace c = false -> strip (c :: x) = c :: rstrip x.
Proof. intros H. unfold strip. cbn [lstrip]. rewrite H. now apply rstrip_cons. Qed.

Lemma strip_idem x : strip (strip x) = strip x.
Proof.
  assert (H : forall y, head_not isspace y -> strip (rstrip y) = rstrip y).
  { intros [ | c y ] Hh; [ reflexivity | ]. cbn in Hh.
    rewrite (rstrip_cons c y Hh), (strip_cons c _ Hh). f_equal.
    unfold rstrip. now rewrite rev_involutive, lstrip_idem. }
  unfold strip at 2 3. apply H, lstrip_head.
Qed.

Lemma normalized_stripped x : strip (normalized x) = normalized x.
Proof. unfold normalized. now rewrite strip_unspace, strip_idem. Qed.

Lemma Qred_nonneg (m : Z) (p : positive) :
  (0 <= m)%Z -> (0 <= Qred (m # p))%Q.
Proof.
  intros H. rewrite Qred_correct. unfold Qle. cbn. lia.
Qed.

(** Without a minus sign in front, [float] gives no negative number. *)
Lemma float_nonneg t c r q :
  strip t = c :: r -> is_char minus c = false ->
  float t = Some q -> (0 <= q)%Q.
Proof.
  intros Hs Hc. unfold float. rewrite Hs.
  unfold is_char, minus in Hc. rewrite Hc.
  assert (H : forall y,
             (let '(ip, r1) := span_digits y in
              let '(fp, r2) :=
                match r1 with
                | c0 :: r0 => if (c0 =? 46)%N then span_digits r0 else ([], r1)
                | [] => ([], r1)
                end in
              match r2, ip ++ fp with
              | [], _ :: _ =>
                Some (Qred (Qmake (Z.of_N (of_digits (ip ++ fp)))
                             (Z.to_pos (10 ^ Z.of_nat (List.length fp)))))
              | _, _ => None
              end) = Some q -> (0 <= q)%Q).
  { intros y. destruct (span_digits y) as [ip r1].
    destruct (match r1 with
              | c0 :: r0 => if (c0 =? 46)%N then span_digits r0 else ([], r1)
              | [] => ([], r1)
              end) as [fp r2].
    destruct r2; [ | discriminate ].
    destruct (ip ++ fp); [ discriminate | ].
    intros [= <-]. apply Qred_nonneg. lia. }
  destruct (c =? 43)%N; apply H.
Qed.

Lemma isdecimal_not_space c : isdecimal c = true -> isspace c = false.
Proof.
  intros H. destruct (isspace c) eqn:E; [ | reflexivity ].
  unfold isdecimal in H. now rewrite (isspace_not_decimal c E) in H.
Qed.

Lemma isdecimal_not_minus c : isdecimal c = true -> is_char minus c = false.
Proof.
  intros H. unfold is_char. destruct (N.eqb_spec c minus) as [ -> | ];
    [ | reflexivity ].
  now vm_compute in H.
Qed.

Lemma match_at_embedded_head pos s m :
  match_at embedded_number pos s = Some m ->
  m = [] \/ exists c m', m = c :: m' /\ isdecimal c = true.
Proof.
  intros H. destruct m as [ | c m' ]; [ now left | right ].
  exists c, m'. split; [ reflexivity | ].
  destruct (match_at_prefix _ _ _ _ H) as [rest ->].
  destruct (isdecimal c) eqn:E; [ reflexivity | exfalso ].
  unfold match_at in H.
  rewrite embedded_number_needs_digit in H; [ discriminate | exact E ].
Qed.

Lemma search_from_embedded_head pos s m :
  search_from embedded_number pos s = Some m ->
  m = [] \/ exists c m', m = c :: m' /\ isdecimal c = true.
Proof.
  revert pos. induction s as [ | c s IH ]; intros pos; cbn [search_from];
    destruct (match_at embedded_number pos _) as [ m' | ] eqn:H;
    try discriminate; try (intros [= <-]; exact (match_at_embedded_head _ _ _ H)).
  apply IH.
Qed.

(** A negative number comes only from a minus sign that opens the cell
    (white space and blanks apart) on text that is a numeral as a whole:
    a sign further in, as in [lit "x -5,5"], is dropped. *)
Theorem minus_sign_only_in_front x q :
  _num x = Some q -> (q < 0)%Q ->
  exists rest,
    normalized x = minus :: rest
    /\ search whole_number (normalized x) <> None.
Proof.
  intros Hq Hneg.
  assert (Hx : x <> []) by (intros ->; discriminate).
  rewrite _num_eq in Hq by exact Hx.
  assert (Hpos : forall t c r,
             strip t = c :: r -> is_char minus c = false ->
             float t = Some q -> False).
  { intros t c r Hs Hc Hf. pose proof (float_nonneg t c r q Hs Hc Hf) as H.
    exact (Qlt_not_le _ _ Hneg H). }
  destruct (search whole_number (normalized x)) as [ m | ] eqn:Hw.
  - destruct (normalized x) as [ | c r ] eqn:Hn; [ discriminate | ].
    exists r. split; [ | discriminate ].
    destruct (is_char minus c) eqn:Hc.
    + unfold is_char in Hc. apply N.eqb_eq in Hc. now subst c.
    + exfalso. apply (Hpos (c :: r) c r); [ | exact Hc | exact Hq ].
      rewrite <- Hn. apply normalized_stripped.
  - exfalso.
    destruct (search embedded_number (normalized x)) as [ g | ] eqn:He;
      [ | discriminate ].
    destruct (search_from_embedded_head _ _ _ He) as [ -> | (c & g' & -> & Hc) ];
      [ discriminate | ].
    pose proof (isdecimal_not_space c Hc) as Hs.
    assert (Hkeep : replace comma [dot] (replace space [] (c :: g'))
                    = c :: replace comma [dot] (replace space [] g')).
    { unfold replace. cbn [flat_map].
      destruct (N.eqb_spec c space) as [ -> | _ ]; [ discriminate | ].
      cbn [app flat_map].
      destruct (N.eqb_spec c comma) as [ -> | _ ]; [ discriminate | ].
      reflexivity. }
    rewrite Hkeep in Hq.
    apply (Hpos (c :: replace comma [dot] (replace space [] g')) c
                (rstrip (replace comma [dot] (replace space [] g'))));
      [ | | exact Hq ].
    + now apply strip_cons.
    + now apply isdecimal_not_minus.
Qed.

(** ** Two separators *)

Lemma filter_none (A : Type) (p q : A -> bool) l :
  Forall (fun c => q c = true) l -> (forall c, q c = true -> p c = false) ->
  filter p l = [].
Proof.
  intros H Hq. induction H as [ | c l Hc _ IH ]; [ reflexivity | ].
  cbn [filter]. now rewrite (Hq c Hc).
Qed.

Lemma Eos_rest (A : Type) (k : nat -> str -> option A) pos s a :
  rmatch Eos k pos s = Some a -> filter (is_char dot) s = [].
Proof.
  cbn [rmatch]. destruct s as [ | c [ | c' s ] ]; try discriminate;
    [ reflexivity | ].
  destruct (N.eqb_spec c 10) as [ -> | ]; [ reflexivity | discriminate ].
Qed.

Lemma decimal_not_dot c :
  (isdecimal c || isdecimal c) = true -> is_char dot c = false.
Proof.
  rewrite orb_diag. intros H. unfold is_char.
  destruct (N.eqb_spec c dot) as [ -> | ]; [ | reflexivity ].
  now rewrite isdecimal_dot in H.
Qed.

(** What the optional fraction of the whole-text pattern consumes. *)
Lemma fraction_sound (A : Type) (k : nat -> str -> option A) pos s a :
  rmatch (Opt (Seq (Cls (is_char dot)) (Plus isdecimal))) k pos s = Some a ->
  exists m rest pos',
    s = m ++ rest /\ List.length (filter (is_char dot) m) <= 1
    /\ k pos' rest = Some a.
Proof.
  assert (Hopt : rmatch (Opt (Seq (Cls (is_char dot)) (Plus isdecimal))) k pos s
                 = match rmatch (Cls (is_char dot))
                           (rmatch (Plus isdecimal) k) pos s with
                   | Some a' => Some a'
                   | None => k pos s
                   end) by reflexivity.
  rewrite Hopt. clear Hopt.
  destruct (rmatch (Cls (is_char dot)) (rmatch (Plus isdecimal) k) pos s)
    as [ a' | ] eqn:H.
  - intros [= ->].
    assert (Hcls : rmatch (Cls (is_char dot)) (rmatch (Plus isdecimal) k) pos s
                   = match s with
                     | c :: s' =>
                       if is_char dot c
                       then rmatch (Plus isdecimal) k (S pos) s'
                       else None
                     | [] => None
                     end) by reflexivity.
    rewrite Hcls in H. clear Hcls.
    destruct s as [ | c s' ]; [ discriminate | ].
    destruct (is_char dot c) eqn:Hc; [ | discriminate ].
    destruct (rmatch_sound _ _ _ _ _ _ H) as (m4 & r4 & -> & Hm4 & H4).
    exists (c :: m4), r4, (S pos + List.length m4).
    repeat split; [ | exact H4 ].
    cbn [filter]. rewrite Hc.
    rewrite (filter_none _ (is_char dot) _ m4 Hm4) by exact decimal_not_dot.
    cbn. lia.
  - intros Hk. exists [], s, pos. repeat split; [ cbn; lia | exact Hk ].
Qed.

(** Text the whole-text pattern matches has one point at most. *)
Lemma whole_number_one_dot x m :
  search whole_number x = Some m ->
  List.length (filter (is_char dot) x) <= 1.
Proof.
  rewrite search_whole_number. unfold match_at.
  destruct (rmatch whole_number (fun e _ => Some e) 0 x) as [ e | ] eqn:H;
    [ intros _ | discriminate ].
  change (rmatch (Opt (Cls (is_char minus)))
            (rmatch (Plus isdecimal)
               (rmatch (Opt (Seq (Cls (is_char dot)) (Plus isdecimal)))
                  (rmatch Eos (fun e0 _ => Some e0)))) 0 x = Some e) in H.
  destruct (rmatch_sound _ _ _ _ _ _ H) as (m1 & r1 & -> & Hm1 & H1).
  destruct (rmatch_sound _ _ _ _ _ _ H1) as (m2 & r2 & -> & Hm2 & H2).
  destruct (fraction_sound _ _ _ _ _ H2) as (m3 & r3 & pos' & -> & Hm3 & H3).
  rewrite !filter_app.
  rewrite (filter_none _ (is_char dot) _ m1 Hm1).
  2: { cbn [accepts]. intros c Hc. unfold is_char in *.
       apply N.eqb_eq in Hc. now subst c. }
  rewrite (filter_none _ (is_char dot) _ m2 Hm2) by exact decimal_not_dot.
  rewrite (Eos_rest _ _ _ _ _ H3). cbn [app]. now rewrite app_nil_r.
Qed.

Lemma digits_no_dot D : digits D -> filter (is_char dot) D = [].
Proof.
  intros H. apply (filter_none _ _ _ _ H). intros c Hc.
  now destruct (ascii_digit_plain _ Hc) as (_ & _ & _ & Hd & _).
Qed.

(** Of a number with two separators, as [12,345.67] or [1.234.567], the
    part up to the second separator is read, with the first separator as
    its decimal point: the thousands are taken for units. *)
Theorem second_separator_ends_the_number d D1 sep1 e D2 sep2 rest :
  digits (d :: D1) -> digits (e :: D2) ->
  sep1 = dot \/ sep1 = comma -> sep2 = dot \/ sep2 = comma ->
  _num (d :: D1 ++ sep1 :: e :: D2 ++ sep2 :: rest)
  = Some (Qred (decimal_value (d :: D1) (e :: D2))).
Proof.
  intros H1 H2 Hs1 Hs2.
  inversion H1 as [ | ? ? Hd HD1 ]; subst.
  assert (Hg : grouped D1).
  { eapply Forall_impl; [ | exact HD1 ]. intros c Hc. now left. }
  assert (Hf : filter ascii_digit D1 = D1).
  { clear - HD1. induction HD1 as [ | c l Hc _ IH ]; [ reflexivity | ].
    cbn [filter]. now rewrite Hc, IH. }
  assert (Hpost : unspace (rstrip (sep2 :: rest))
                  = dot :: unspace (rstrip rest)).
  { rewrite rstrip_cons by (destruct Hs2 as [ -> | -> ]; reflexivity).
    rewrite unspace_cons. destruct Hs2 as [ -> | -> ]; reflexivity. }
  assert (Hn : normalized (d :: D1 ++ sep1 :: e :: D2 ++ sep2 :: rest)
               = (d :: D1) ++ dot :: (e :: D2) ++ dot :: unspace (rstrip rest)).
  { pose proof (normalized_number [] d D1 sep1 e D2 (sep2 :: rest)
                  Hd Hg Hs1 H2) as Hn.
    cbn [app lstrip] in Hn. rewrite Hn, Hf, Hpost.
    change (unspace []) with (@nil N). reflexivity. }
  rewrite _num_eq by discriminate. rewrite Hn.
  assert (Hw : search whole_number
                 ((d :: D1) ++ dot :: (e :: D2) ++ dot :: unspace (rstrip rest))
               = None).
  { destruct (search whole_number _) as [ m | ] eqn:E; [ exfalso | reflexivity ].
    apply whole_number_one_dot in E.
    change ((d :: D1) ++ dot :: (e :: D2) ++ dot :: unspace (rstrip rest))
      with ((d :: D1) ++ [dot] ++ (e :: D2) ++ [dot] ++ unspace (rstrip rest))
      in E.
    rewrite !filter_app in E.
    rewrite (digits_no_dot _ H1), (digits_no_dot _ H2) in E.
    change (filter (is_char dot) [dot]) with [dot] in E.
    cbn [app List.length] in E. lia. }
  rewrite Hw. unfold search. cbn [app search_from].
  rewrite (match_at_embedded d D1 e D2 (dot :: unspace (rstrip rest)) 0 H1 H2)
    by exact isdecimal_dot.
  change (d :: D1 ++ dot :: e :: D2) with ((d :: D1) ++ dot :: e :: D2).
  rewrite (replace_absent space) by (apply number_plain; auto).
  rewrite (replace_absent comma) by (apply number_plain; auto).
  now apply float_decimal.
Qed.

(* ================================================================== *)
(** * The arithmetic of floats: properties *)
(* ================================================================== *)

Section FloatFacts.
Local Open Scope Q_scope.

Lemma pow2_Qpower e : pow2 e == 2 ^ e.
Proof.
  unfold pow2. destruct (Z.leb_spec 0 e) as [ H | H ].
  - now rewrite Zpower_Qpower.
  - rewrite Zpower_Qpower by lia.
    rewrite <- (Z.opp_involutive e) at 2. rewrite (Qpower_opp 2 (- e)).
    unfold Qdiv. now rewrite Qmult_1_l.
Qed.

Lemma pow2_pos e : 0 < pow2 e.
Proof. rewrite pow2_Qpower. apply Qpower_0_lt. reflexivity. Qed.

Lemma pow2_add a b : pow2 (a + b) == pow2 a * pow2 b.
Proof. rewrite !pow2_Qpower. apply Qpower_plus. discriminate. Qed.

Lemma pow2_log2 a :
  (0 < a)%Z -> pow2 (Z.log2 a) <= inject_Z a /\ inject_Z a < pow2 (Z.log2 a + 1).
Proof.
  intros Ha. destruct (Z.log2_spec a Ha) as [H1 H2].
  pose proof (Z.log2_nonneg a) as Hn.
  unfold pow2. destruct (Z.leb_spec 0 (Z.log2 a)); [ | lia ].
  destruct (Z.leb_spec 0 (Z.log2 a + 1)); [ | lia ].
  split; [ now rewrite <- Zle_Qle | rewrite <- Zlt_Qlt ].
  now rewrite <- Z.add_1_r in H2.
Qed.

(** [ilog2 q] is the exponent of the leading binary digit of [q]. *)
Lemma ilog2_bounds q :
  ~ q == 0 -> pow2 (ilog2 q) <= Qabs q /\ Qabs q < pow2 (ilog2 q + 1).
Proof.
  intros Hq. destruct q as [n d].
  assert (Hn : (0 < Z.abs n)%Z).
  { assert (n <> 0%Z); [ | lia ].
    intros ->. apply Hq. reflexivity. }
  unfold ilog2. cbn [Qnum Qden].
  set (la := Z.log2 (Z.abs n)). set (ld := Z.log2 (Z.pos d)).
  assert (Habs : Qabs (n # d) == inject_Z (Z.abs n) / inject_Z (Z.pos d)).
  { cbn [Qabs]. apply Qmake_Qdiv. }
  destruct (pow2_log2 (Z.abs n) Hn) as [Ha1 Ha2]. fold la in Ha1, Ha2.
  destruct (pow2_log2 (Z.pos d) eq_refl) as [Hd1 Hd2]. fold ld in Hd1, Hd2.
  set (A := inject_Z (Z.abs n)) in *. set (D := inject_Z (Z.pos d)) in *.
  assert (HD : 0 < D) by (unfold D, Qlt; cbn; lia).
  destruct (Qle_bool (pow2 (la - ld)) (Qabs (n # d))) eqn:E.
  - apply Qle_bool_iff in E. split; [ exact E | ].
    rewrite Habs. apply Qlt_shift_div_r; [ exact HD | ].
    pose proof (pow2_add (la - ld + 1) ld) as Hp.
    replace (la - ld + 1 + ld)%Z with (la + 1)%Z in Hp by lia.
    pose proof (pow2_pos (la - ld + 1)) as Hpos.
    rewrite Hp in Ha2.
    apply (Qlt_le_trans _ _ _ Ha2).
    apply Qmult_le_l; assumption.
  - assert (E' : Qabs (n # d) < pow2 (la - ld)).
    { apply Qnot_le_lt. intros H. apply Qle_bool_iff in H. congruence. }
    replace (la - ld - 1 + 1)%Z with (la - ld)%Z by lia.
    split; [ | exact E' ].
    rewrite Habs. apply Qle_shift_div_l; [ exact HD | ].
    pose proof (pow2_add (la - ld - 1) (ld + 1)) as Hp.
    replace (la - ld - 1 + (ld + 1))%Z with la in Hp by lia.
    pose proof (pow2_pos (la - ld - 1)) as Hpos.
    rewrite Hp in Ha1.
    apply (Qle_trans _ (pow2 (la - ld - 1) * pow2 (ld + 1))); [ | exact Ha1 ].
    apply Qmult_le_l; [ exact Hpos | ]. now apply Qlt_le_weak.
Qed.

(** No integer is nearer to [z] than [round_half_even z]. *)
Lemma round_half_even_nearest z m :
  Qabs (z - inject_Z (round_half_even z)) <= Qabs (z - inject_Z m).
Proof.
  unfold round_half_even.
  pose proof (Qfloor_le z) as H1. pose proof (Qlt_floor z) as H2.
  set (f := Qfloor z) in *.
  rewrite inject_Z_plus in H2. change (inject_Z 1) with 1 in H2.
  assert (Hup : inject_Z (f + 1) == inject_Z f + 1).
  { now rewrite inject_Z_plus. }
  assert (Hm : (m <= f)%Z \/ (f + 1 <= m)%Z) by lia.
  assert (Hother : z - inject_Z f <= Qabs (z - inject_Z m)
                   \/ inject_Z f + 1 - z <= Qabs (z - inject_Z m)).
  { destruct Hm as [ Hm | Hm ].
    - left. rewrite Zle_Qle in Hm.
      apply (Qle_trans _ (z - inject_Z m)); [ lra | apply Qle_Qabs ].
    - right. rewrite Zle_Qle, Hup in Hm.
      apply (Qle_trans _ (- (z - inject_Z m))); [ lra | ].
      rewrite <- Qabs_opp. apply Qle_Qabs. }
  assert (Hboth : (m <= f)%Z -> z - inject_Z f <= Qabs (z - inject_Z m)).
  { intros Hm'. rewrite Zle_Qle in Hm'.
    apply (Qle_trans _ (z - inject_Z m)); [ lra | apply Qle_Qabs ]. }
  assert (Hboth' : (f + 1 <= m)%Z ->
                   inject_Z f + 1 - z <= Qabs (z - inject_Z m)).
  { intros Hm'. rewrite Zle_Qle, Hup in Hm'.
    apply (Qle_trans _ (- (z - inject_Z m))); [ lra | ].
    rewrite <- Qabs_opp. apply Qle_Qabs. }
  assert (Hlo : Qabs (z - inject_Z f) == z - inject_Z f).
  { apply Qabs_pos. lra. }
  assert (Hhi : Qabs (z - inject_Z (f + 1)) == inject_Z f + 1 - z).
  { rewrite Hup, <- Qabs_opp. rewrite Qabs_pos; lra. }
  destruct (Qcompare_spec (z - inject_Z f) (1 # 2)) as [ E | E | E ].
  - destruct (Z.even f).
    + rewrite Hlo. destruct Hm as [ Hm | Hm ];
        [ now apply Hboth | specialize (Hboth' Hm); lra ].
    + rewrite Hhi. destruct Hm as [ Hm | Hm ];
        [ specialize (Hboth Hm); lra | now apply Hboth' ].
  - rewrite Hlo. destruct Hm as [ Hm | Hm ];
      [ now apply Hboth | specialize (Hboth' Hm); lra ].
  - rewrite Hhi. destruct Hm as [ Hm | Hm ];
      [ specialize (Hboth Hm); lra | now apply Hboth' ].
Qed.

Lemma round_half_even_bounds z :
  (Qfloor z <= round_half_even z <= Qfloor z + 1)%Z.
Proof.
  unfold round_half_even.
  destruct (Qcompare _ _); [ destruct (Z.even _) | | ]; lia.
Qed.

Lemma scaled_distance q e m :
  Qabs (q - inject_Z m * pow2 e) == Qabs (q / pow2 e - inject_Z m) * pow2 e.
Proof.
  pose proof (pow2_pos e) as Hp.
  transitivity (Qabs ((q / pow2 e - inject_Z m) * pow2 e)).
  - apply Qabs_wd. field. intros H. rewrite H in Hp. discriminate.
  - rewrite Qabs_Qmult, (Qabs_pos (pow2 e)) by now apply Qlt_le_weak.
    reflexivity.
Qed.

(** [binary64 q] is a double of the binade of [q]: a multiple of the unit
    in the last place [2 ** e] of that binade (of [2 ** -1074] for the
    subnormal numbers), with a significand of 53 binary digits or the
    power of two that opens the next binade; and no multiple of that
    unit, hence no double, is nearer to [q]. *)
Theorem binary64_nearest q :
  ~ q == 0 ->
  exists n,
    let e := Z.max (ilog2 q - 52) (-1074) in
    binary64 q == inject_Z n * pow2 e
    /\ (Z.abs n <= 2 ^ 53)%Z
    /\ forall m, Qabs (q - binary64 q) <= Qabs (q - inject_Z m * pow2 e).
Proof.
  intros Hq. set (e := Z.max (ilog2 q - 52) (-1074)).
  exists (round_half_even (q / pow2 e)). cbv zeta. fold e.
  assert (Hb : binary64 q
               == inject_Z (round_half_even (q / pow2 e)) * pow2 e).
  { unfold binary64. destruct (Qeq_bool q 0) eqn:E.
    - apply Qeq_bool_iff in E. contradiction.
    - fold e. apply Qred_correct. }
  pose proof (pow2_pos e) as Hp.
  split; [ exact Hb | split ].
  - destruct (ilog2_bounds q Hq) as [_ Hlt].
    assert (Hz : Qabs (q / pow2 e) < inject_Z (2 ^ 53)).
    { unfold Qdiv. rewrite Qabs_Qmult, Qabs_Qinv.
      rewrite (Qabs_pos (pow2 e)) by now apply Qlt_le_weak.
      apply Qlt_shift_div_r; [ exact Hp | ].
      apply (Qlt_le_trans _ _ _ Hlt).
      assert (H53 : inject_Z (2 ^ 53) == pow2 53) by reflexivity.
      rewrite H53, <- pow2_add, !pow2_Qpower.
      apply Qpower_le_compat_l; [ unfold e; lia | discriminate ]. }
    pose proof (round_half_even_bounds (q / pow2 e)) as [Hlo Hhi].
    pose proof (Qfloor_le (q / pow2 e)) as Hf1.
    pose proof (Qlt_floor (q / pow2 e)) as Hf2.
    apply Qabs_Qlt_condition in Hz as [Hz1 Hz2].
    assert (Hfl : (- 2 ^ 53 < Qfloor (q / pow2 e) + 1
                   /\ Qfloor (q / pow2 e) < 2 ^ 53)%Z).
    { split; rewrite Zlt_Qlt.
      - rewrite inject_Z_opp. now apply (Qlt_trans _ (q / pow2 e)).
      - now apply (Qle_lt_trans _ (q / pow2 e)). }
    lia.
  - intros m. rewrite Hb, !scaled_distance.
    apply Qmult_le_compat_r; [ | now apply Qlt_le_weak ].
    apply round_half_even_nearest.
Qed.

Lemma pow2_le a b : (a <= b)%Z -> pow2 a <= pow2 b.
Proof.
  intros H. rewrite !pow2_Qpower.
  apply Qpower_le_compat_l; [ exact H | discriminate ].
Qed.

Lemma pow2_lt_inv a b : pow2 a < pow2 b -> (a < b)%Z.
Proof.
  intros H. destruct (Z.lt_ge_cases a b) as [ Hlt | Hge ]; [ exact Hlt | ].
  apply pow2_le in Hge. lra.
Qed.

Lemma round_half_even_Z z n : z == inject_Z n -> round_half_even z = n.
Proof.
  intros H. unfold round_half_even.
  assert (Hf : Qfloor z = n) by (rewrite H; apply Qfloor_Z).
  rewrite Hf.
  destruct (Qcompare_spec (z - inject_Z n) (1 # 2)) as [ E | E | E ];
    [ lra | reflexivity | lra ].
Qed.

Lemma pow2_nonneg_Z k : (0 <= k)%Z -> pow2 k = inject_Z (2 ^ k).
Proof. intros H. unfold pow2. now destruct (Z.leb_spec 0 k); [ | lia ]. Qed.

(** A double is its own nearest double: an operand that is the result of
    an operation enters the next one as it is. *)
Theorem binary64_idempotent q : binary64 (binary64 q) == binary64 q.
Proof.
  destruct (Qeq_dec q 0) as [ Hq | Hq ].
  { assert (H0 : binary64 q = 0).
    { unfold binary64. apply Qeq_bool_iff in Hq. now rewrite Hq. }
    rewrite H0. reflexivity. }
  destruct (binary64_nearest q Hq) as (n & Hy & Hn & _). cbv zeta in Hy.
  set (e := Z.max (ilog2 q - 52) (-1074)) in *.
  set (y := binary64 q) in *.
  unfold binary64 at 1. destruct (Qeq_bool y 0) eqn:E.
  { apply Qeq_bool_iff in E. now rewrite E. }
  assert (Hy0 : ~ y == 0).
  { intros H. apply Qeq_bool_iff in H. congruence. }
  rewrite Qred_correct.
  set (e' := Z.max (ilog2 y - 52) (-1074)).
  pose proof (pow2_pos e) as Hp. pose proof (pow2_pos e') as Hp'.
  assert (Hne : ~ pow2 e' == 0) by (intros H; rewrite H in Hp'; discriminate).
  assert (Hint : exists k, y / pow2 e' == inject_Z k).
  { destruct (ilog2_bounds y Hy0) as [Hl1 Hl2].
    assert (Habs : Qabs y == inject_Z (Z.abs n) * pow2 e).
    { rewrite Hy, Qabs_Qmult, (Qabs_pos (pow2 e)) by now apply Qlt_le_weak.
      reflexivity. }
    assert (Hcase : (Z.abs n < 2 ^ 53)%Z \/ Z.abs n = (2 ^ 53)%Z) by lia.
    destruct Hcase as [ Hlt | Heq ].
    - assert (He : (e' <= e)%Z).
      { assert (Hil : (ilog2 y < e + 53)%Z).
        { apply pow2_lt_inv. apply (Qle_lt_trans _ _ _ Hl1).
          rewrite Habs, Z.add_comm, pow2_add.
          apply Qmult_lt_compat_r; [ exact Hp | ].
          change (pow2 53) with (inject_Z (2 ^ 53)). now rewrite <- Zlt_Qlt. }
        unfold e' in *. unfold e in *. lia. }
      exists (n * 2 ^ (e - e'))%Z.
      rewrite inject_Z_mult, <- pow2_nonneg_Z by lia.
      rewrite Hy. replace e with ((e - e') + e')%Z at 1 by lia.
      rewrite pow2_add. field. exact Hne.
    - assert (Hil : ilog2 y = (e + 53)%Z).
      { assert (Hval : Qabs y == pow2 (e + 53)).
        { rewrite Habs, Heq, Z.add_comm, pow2_add. reflexivity. }
        rewrite Hval in Hl1, Hl2.
        assert (H1 : (ilog2 y < e + 53 + 1)%Z).
        { apply pow2_lt_inv. apply (Qle_lt_trans _ _ _ Hl1).
          rewrite (pow2_add (e + 53) 1).
          rewrite <- (Qmult_1_r (pow2 (e + 53))) at 1.
          apply Qmult_lt_l; [ apply pow2_pos | reflexivity ]. }
        assert (H2 : (e + 53 < ilog2 y + 1)%Z) by now apply pow2_lt_inv.
        lia. }
      assert (He : e' = (e + 1)%Z) by (unfold e' in *; unfold e in *; lia).
      exists (n / 2)%Z.
      assert (Hn2 : n = (2 * (n / 2))%Z).
      { assert (n = 2 ^ 53 \/ n = - 2 ^ 53)%Z as [ -> | -> ] by lia;
          reflexivity. }
      rewrite Hy, He, Z.add_comm, pow2_add. rewrite Hn2 at 1.
      rewrite inject_Z_mult. change (pow2 1) with 2.
      change (inject_Z 2) with 2. field.
      intros H. rewrite H in Hp. discriminate. }
  destruct Hint as [k Hk].
  rewrite (round_half_even_Z _ _ Hk), <- Hk. field. exact Hne.
Qed.

End FloatFacts.

(* ================================================================== *)
(** * The adapters: properties *)
(* ================================================================== *)

(** ** Equality of strings, dicts *)

Lemma str_eqb_eq a b : str_eqb a b = true <-> a = b.
Proof.
  unfold str_eqb. destruct (list_eq_dec N.eq_dec a b); split;
    congruence.
Qed.

Lemma str_eqb_refl a : str_eqb a a = true.
Proof. now apply str_eqb_eq. Qed.

Lemma str_eqb_neq a b : str_eqb a b = false <-> a <> b.
Proof.
  unfold str_eqb. destruct (list_eq_dec N.eq_dec a b); split;
    congruence.
Qed.

Lemma Return_inj (A : Type) (a b : A) : Return a = Return b -> a = b.
Proof. now intros [= ->]. Qed.

Section DictFacts.
Variable V : Type.
Implicit Types (d : dict V) (k : str) (v : V).

Lemma dict_get_set_same d k v : dict_get (dict_set d k v) k = Some v.
Proof.
  induction d as [ | [k' v'] d IH ]; cbn [dict_set dict_get].
  - now rewrite str_eqb_refl.
  - destruct (str_eqb k' k) eqn:E; cbn [dict_get]; rewrite E; auto.
Qed.

Lemma dict_get_set_other d k k' v :
  k' <> k -> dict_get (dict_set d k v) k' = dict_get d k'.
Proof.
  intros Hne. induction d as [ | [k0 v0] d IH ]; cbn [dict_set dict_get].
  - assert (E : str_eqb k k' = false) by (apply str_eqb_neq; congruence).
    now rewrite E.
  - destruct (str_eqb k0 k) eqn:E; cbn [dict_get].
    + apply str_eqb_eq in E. subst k0.
      assert (E : str_eqb k k' = false) by (apply str_eqb_neq; congruence).
      now rewrite E.
    + destruct (str_eqb k0 k'); auto.
Qed.

Lemma dict_get_In d k v : dict_get d k = Some v -> In (k, v) d.
Proof.
  induction d as [ | [k' v'] d IH ]; cbn [dict_get]; [ discriminate | ].
  destruct (str_eqb k' k) eqn:E.
  - apply str_eqb_eq in E. intros [= ->]. subst. now left.
  - intros H. right. auto.
Qed.

Lemma dict_get_None d k : dict_get d k = None <-> ~ In k (map fst d).
Proof.
  induction d as [ | [k' v'] d IH ]; cbn [dict_get map fst In].
  - tauto.
  - destruct (str_eqb k' k) eqn:E.
    + apply str_eqb_eq in E. split; [ discriminate | intros H; tauto ].
    + apply str_eqb_neq in E. rewrite IH. tauto.
Qed.

(** Setting a key keeps the keys in their order and adds a new one at
    the end. *)
Lemma dict_set_keys d k v :
  map fst (dict_set d k v)
  = match dict_get d k with
    | Some _ => map fst d
    | None => map fst d ++ [k]
    end.
Proof.
  induction d as [ | [k' v'] d IH ]; cbn [dict_set dict_get map fst app].
  - reflexivity.
  - destruct (str_eqb k' k) eqn:E; cbn [map fst]; [ reflexivity | ].
    rewrite IH. now destruct (dict_get d k).
Qed.

Lemma dict_set_NoDup d k v :
  NoDup (map fst d) -> NoDup (map fst (dict_set d k v)).
Proof.
  intros H. rewrite dict_set_keys.
  destruct (dict_get d k) eqn:E; [ assumption | ].
  apply dict_get_None in E.
  apply NoDup_rev in H. rewrite <- (rev_involutive (map fst d ++ [k])).
  apply NoDup_rev. rewrite rev_app_distr. cbn [rev app].
  constructor; [ | assumption ]. now rewrite <- in_rev.
Qed.

End DictFacts.

(** ** [getitem] *)

Lemma getitem_last_but_one pre b s : getitem (pre ++ [b; s]) (-2) = b.
Proof.
  unfold getitem. rewrite length_app. cbn [List.length].
  change (-2 <? 0)%Z with true. cbv iota.
  replace (Z.to_nat (Z.of_nat (List.length pre + 2) + -2))
    with (List.length pre) by lia.
  apply nth_middle.
Qed.

Lemma getitem_last pre b s : getitem (pre ++ [b; s]) (-1) = s.
Proof.
  unfold getitem. rewrite length_app. cbn [List.length].
  change (-1 <? 0)%Z with true. cbv iota.
  replace (Z.to_nat (Z.of_nat (List.length pre + 2) + -1))
    with (List.length pre + 1) by lia.
  rewrite app_nth2 by lia.
  replace (List.length pre + 1 - List.length pre) with 1 by lia.
  reflexivity.
Qed.

(** ** Duplicate rows of a currency *)

Lemma last_with_cons c r rs :
  last_with c (r :: rs)
  = match last_with c rs with
    | Some x => Some x
    | None => if has_ccy c r then Some r else None
    end.
Proof.
  unfold last_with. cbn [filter].
  destruct (has_ccy c r); [ | now destruct (rev _) ].
  cbn [rev]. now destruct (rev (filter (has_ccy c) rs)).
Qed.

Lemma dedup_from rs d c :
  dict_get (fold_left (fun d r => dict_set d (ccy r) r) rs d) c
  = match last_with c rs with
    | Some r => Some r
    | None => dict_get d c
    end.
Proof.
  revert d. induction rs as [ | r rs IH ]; intros d; [ reflexivity | ].
  cbn [fold_left]. rewrite IH, last_with_cons.
  destruct (last_with c rs); [ reflexivity | ].
  unfold has_ccy. destruct (str_eqb (ccy r) c) eqn:E.
  - apply str_eqb_eq in E. subst c. apply dict_get_set_same.
  - apply str_eqb_neq in E. apply dict_get_set_other. congruence.
Qed.

Lemma dedup_get rs c : dict_get (dedup rs) c = last_with c rs.
Proof. unfold dedup. rewrite dedup_from. now destruct (last_with c rs). Qed.

Lemma major_dedup rs : major (dedup rs) = kept rs.
Proof.
  unfold major, kept. apply flat_map_ext. intros c. now rewrite dedup_get.
Qed.

Lemma last_with_spec c rs :
  match last_with c rs with
  | Some r => ccy r = c /\ In r rs /\ existsb (has_ccy c) rs = true
  | None => existsb (has_ccy c) rs = false
  end.
Proof.
  unfold last_with.
  destruct (rev (filter (has_ccy c) rs)) as [ | r l ] eqn:E; cbn [hd_error].
  - apply (f_equal (@rev Rate)) in E. rewrite rev_involutive in E.
    cbn in E. destruct (existsb (has_ccy c) rs) eqn:Ex; [ | reflexivity ].
    apply existsb_exists in Ex as (x & Hx & Hc).
    assert (Hin : In x (filter (has_ccy c) rs)) by now apply filter_In.
    rewrite E in Hin. contradiction.
  - assert (Hin : In r (filter (has_ccy c) rs)).
    { apply in_rev. rewrite E. now left. }
    apply filter_In in Hin as [Hin Hc].
    split; [ now apply str_eqb_eq | split; [ assumption | ] ].
    apply existsb_exists. now exists r.
Qed.

Lemma kept_ccy rs :
  map ccy (kept rs) = filter (fun c => existsb (has_ccy c) rs) MAJOR.
Proof.
  unfold kept, MAJOR. cbn [flat_map filter].
  pose proof (last_with_spec USD rs) as HU.
  pose proof (last_with_spec EUR rs) as HE.
  pose proof (last_with_spec RUB rs) as HR.
  destruct (last_with USD rs), (last_with EUR rs), (last_with RUB rs);
    repeat match goal with
           | H : _ /\ _ /\ _ |- _ => destruct H as (? & _ & ->)
           | H : existsb _ _ = false |- _ => rewrite H
           end; cbn [app map]; congruence.
Qed.

Lemma kept_last rs r :
  In r (kept rs) -> last_with (ccy r) rs = Some r /\ In (ccy r) MAJOR.
Proof.
  unfold kept. rewrite in_flat_map. intros (c & Hc & Hr).
  pose proof (last_with_spec c rs) as Hs.
  destruct (last_with c rs) as [ x | ] eqn:E; [ | contradiction ].
  destruct Hr as [ <- | [] ]. destruct Hs as (-> & _). now split.
Qed.

(** ** Kapitalbank's bag *)

Lemma group_of_add bag k r c :
  group_of (bag_add bag k r) c
  = group_of bag c ++ (if str_eqb k c then [r] else []).
Proof.
  unfold group_of, bag_add.
  destruct (str_eqb k c) eqn:E.
  - apply str_eqb_eq in E. subst c.
    destruct (dict_get bag k); now rewrite dict_get_set_same.
  - apply str_eqb_neq in E.
    destruct (dict_get bag k); rewrite dict_get_set_other by congruence;
      now rewrite app_nil_r.
Qed.

Lemma group_of_bag rs bag c :
  group_of (bag_of rs bag) c = group_of bag c ++ filter (has_ccy c) rs.
Proof.
  revert bag. induction rs as [ | r rs IH ]; intros bag.
  - cbn. now rewrite app_nil_r.
  - unfold bag_of in *. cbn [fold_left filter].
    rewrite IH, group_of_add, <- app_assoc. unfold has_ccy.
    now destruct (str_eqb (ccy r) c).
Qed.

Lemma bag_add_keys bag k r c :
  In c (map fst (bag_add bag k r)) <-> In c (map fst bag) \/ c = k.
Proof.
  unfold bag_add.
  destruct (dict_get bag k) as [ arr | ] eqn:E; rewrite dict_set_keys, E.
  - split; [ tauto | ]. intros [ H | -> ]; [ assumption | ].
    apply dict_get_In in E. change k with (fst (k, arr)). now apply in_map.
  - rewrite in_app_iff. cbn [In]. intuition congruence.
Qed.

Lemma bag_of_keys rs bag c :
  In c (map fst (bag_of rs bag))
  <-> In c (map fst bag) \/ exists r, In r rs /\ ccy r = c.
Proof.
  revert bag. induction rs as [ | r rs IH ]; intros bag.
  - cbn. firstorder.
  - unfold bag_of in *. cbn [fold_left]. rewrite IH, bag_add_keys.
    cbn [In]. split.
    + intros [ [ H | -> ] | (x & Hx & Hc) ]; eauto.
    + intros [ H | (x & [ <- | Hx ] & Hc) ]; eauto.
Qed.

Lemma bag_of_NoDup rs bag :
  NoDup (map fst bag) -> NoDup (map fst (bag_of rs bag)).
Proof.
  revert bag. induction rs as [ | r rs IH ]; intros bag H; [ assumption | ].
  unfold bag_of in *. cbn [fold_left]. apply IH. unfold bag_add.
  destruct (dict_get bag (ccy r)); now apply dict_set_NoDup.
Qed.


Lemma kapitalbank_mean_ccy item : ccy (kapitalbank_mean item) = fst item.
Proof. now destruct item. Qed.


(** ** [sorted] *)

Lemma str_ltb_asym a b : str_ltb a b = true -> str_ltb b a = false.
Proof.
  revert b. induction a as [ | x a IH ]; intros [ | y b ]; cbn [str_ltb];
    try congruence.
  destruct (N.ltb_spec x y), (N.ltb_spec y x); try congruence; try lia.
  apply IH.
Qed.


Section SortedFacts.
Variable A : Type.
Variable key : A -> str.

Definition key_le (a b : A) : Prop := str_ltb (key b) (key a) = false.

Lemma insert_perm x l : Permutation (insert key x l) (x :: l).
Proof.
  induction l as [ | y l IH ]; cbn [insert]; [ reflexivity | ].
  destruct (str_ltb (key x) (key y)); [ reflexivity | ].
  rewrite IH. apply perm_swap.
Qed.

Lemma insert_hd x y l :
  key_le y x -> HdRel key_le y l -> HdRel key_le y (insert key x l).
Proof.
  intros Hyx Hl. destruct l as [ | z l ]; cbn [insert].
  - now constructor.
  - destruct (str_ltb (key x) (key z)); constructor; try assumption.
    now inversion Hl.
Qed.

Lemma insert_sorted x l :
  Sorted key_le l -> Sorted key_le (insert key x l).
Proof.
  induction 1 as [ | y l Hs IH Hhd ]; cbn [insert].
  - repeat constructor.
  - destruct (str_ltb (key x) (key y)) eqn:E.
    + constructor; [ now constructor | ]. constructor.
      unfold key_le. now apply str_ltb_asym.
    + constructor; [ assumption | ]. now apply insert_hd.
Qed.

Lemma sorted_from l acc :
  Sorted key_le acc ->
  Sorted key_le (fold_left (fun acc x => insert key x acc) l acc)
  /\ Permutation (fold_left (fun acc x => insert key x acc) l acc)
                 (acc ++ l).
Proof.
  revert acc. induction l as [ | x l IH ]; intros acc Hacc; cbn [fold_left].
  - split; [ assumption | now rewrite app_nil_r ].
  - destruct (IH (insert key x acc)) as [Hs Hp];
      [ now apply insert_sorted | ].
    split; [ assumption | ].
    rewrite Hp, insert_perm. apply Permutation_middle.
Qed.

Lemma sorted_perm l : Permutation (sorted key l) l.
Proof. apply (sorted_from l []). constructor. Qed.


End SortedFacts.


(** ** What the adapters do with a page *)

Section AdapterFacts.

Variable upper : str -> str.

(** ** Rows *)

Lemma next_ccy_mem known cells c :
  next_ccy upper known cells = Some c -> mem c known = true.
Proof.
  unfold next_ccy. intros H.
  destruct (filter _ _) as [ | u l ] eqn:E; [ discriminate | ].
  injection H as <-.
  assert (Hin : In u (filter (fun u => mem u known) (map upper cells)))
    by (rewrite E; now left).
  now apply filter_In in Hin.
Qed.

Lemma mem_In x s : mem x s = true <-> In x s.
Proof.
  unfold mem. rewrite existsb_exists. split.
  - intros (y & Hy & E). apply str_eqb_eq in E. now subst.
  - intros H. exists x. split; [ assumption | apply str_eqb_refl ].
Qed.

(** C1, as the code has it: Hamkorbank reads the pair off the end of the
    row's numbers, every other adapter (Kapitalbank too) off their start. *)
Theorem row_pair_position (cells : list str) (c : str) (b s : Q) :
  (forall pre,
      next_ccy upper CCYS cells = Some c ->
      numbers cells = pre ++ [b; s] ->
      forall rs,
        hamkorbank_row upper rs cells
        = rs ++ [mkRate c (Some b) (Some s)])
  /\ (forall post,
      next_ccy upper MAJOR cells = Some c ->
      numbers cells = b :: s :: post ->
      (forall rs,
          major_row upper rs cells = rs ++ [mkRate c (Some b) (Some s)])
      /\ (forall bag,
          kapitalbank_row upper bag cells
          = bag_add bag c (mkRate c (Some b) (Some s)))).
Proof.
  split.
  - intros pre Hc Hn rs. unfold hamkorbank_row.
    destruct cells as [ | c0 cells' ]; [ discriminate | ].
    rewrite Hc. cbv zeta. rewrite Hn.
    rewrite length_app. cbn [List.length].
    replace (2 <=? List.length pre + 2) with true
      by (symmetry; apply Nat.leb_le; lia).
    now rewrite getitem_last_but_one, getitem_last.
  - intros post Hc Hn.
    destruct cells as [ | c0 cells' ]; [ discriminate | ].
    split; intros acc; unfold major_row, kapitalbank_row;
      rewrite Hc; cbv zeta; rewrite Hn; reflexivity.
Qed.

(** What a row adds to [rates], seen apart from [rates]. *)
Lemma major_row_app rs cells :
  major_row upper rs cells = rs ++ major_row upper [] cells.
Proof.
  unfold major_row. destruct cells; [ now rewrite app_nil_r | ].
  destruct (next_ccy upper MAJOR _); [ | now rewrite app_nil_r ].
  cbv zeta. destruct (2 <=? _); [ reflexivity | now rewrite app_nil_r ].
Qed.

Lemma hamkorbank_row_app rs cells :
  hamkorbank_row upper rs cells = rs ++ hamkorbank_row upper [] cells.
Proof.
  unfold hamkorbank_row. destruct cells; [ now rewrite app_nil_r | ].
  destruct (next_ccy upper CCYS _); [ | now rewrite app_nil_r ].
  cbv zeta. destruct (2 <=? _); [ reflexivity | now rewrite app_nil_r ].
Qed.

Lemma fold_left_rows (f : list Rate -> list str -> list Rate) rows rs :
  (forall rs cells, f rs cells = rs ++ f [] cells) ->
  fold_left f rows rs = rs ++ flat_map (f []) rows.
Proof.
  intros Hf. revert rs.
  induction rows as [ | cells rows IH ]; intros rs; cbn [fold_left flat_map].
  - now rewrite app_nil_r.
  - rewrite IH, (Hf rs), <- app_assoc. reflexivity.
Qed.

Lemma major_scan_rows page : major_scan upper page = row_rates upper (trs page).
Proof. unfold major_scan. now rewrite fold_left_rows by apply major_row_app. Qed.

Lemma hamkorbank_scan_rows page :
  hamkorbank_scan upper page = hamkorbank_row_rates upper (tables page).
Proof.
  unfold hamkorbank_scan, hamkorbank_row_rates.
  assert (G : forall tbls rs,
             fold_left (fun rs table => fold_left (hamkorbank_row upper) table rs)
                       tbls rs
             = rs ++ flat_map (flat_map (hamkorbank_row upper [])) tbls).
  { induction tbls as [ | t tbls IH ]; intros rs; cbn [fold_left flat_map].
    - now rewrite app_nil_r.
    - rewrite IH, fold_left_rows by apply hamkorbank_row_app.
      now rewrite <- app_assoc. }
  apply (G _ []).
Qed.

(** ** The loop over the candidate addresses *)

Lemma major_loop_raise bank_name key w urls :
  (forall url, In url urls -> exists e, fetch_page w key url = Raise e) ->
  major_loop upper bank_name key w urls = None.
Proof.
  induction urls as [ | url urls IH ]; intros H; [ reflexivity | ].
  cbn [major_loop]. destruct (H url (or_introl eq_refl)) as [e He].
  rewrite He. apply IH. intros u Hu. apply H. now right.
Qed.

Lemma hamkorbank_loop_raise w urls :
  (forall url, In url urls ->
               exists e, fetch_page w (lit "hamkorbank") url = Raise e) ->
  hamkorbank_loop upper w urls = None.
Proof.
  induction urls as [ | url urls IH ]; intros H; [ reflexivity | ].
  cbn [hamkorbank_loop]. destruct (H url (or_introl eq_refl)) as [e He].
  rewrite He. apply IH. intros u Hu. apply H. now right.
Qed.

(** With every address raising, [last] ends as the last one's exception. *)
Lemma kapitalbank_loop_raise w urls last :
  (forall url, In url urls ->
               exists e, fetch_page w (lit "kapitalbank") url = Raise e) ->
  exists e,
    kapitalbank_loop upper w urls last = (None, e)
    /\ match rev urls with
       | url :: _ =>
         exists x, e = Some x /\ fetch_page w (lit "kapitalbank") url = Raise x
       | [] => e = last
       end.
Proof.
  revert last. induction urls as [ | url urls IH ]; intros last H.
  - exists last. now split.
  - cbn [kapitalbank_loop]. destruct (H url (or_introl eq_refl)) as [e He].
    rewrite He.
    destruct (IH (Some e)) as (e' & Hl & Hlast).
    { intros u Hu. apply H. now right. }
    exists e'. split; [ assumption | ].
    cbn [rev]. destruct (rev urls) as [ | u l ]; cbn [app].
    + subst e'. now exists e.
    + assumption.
Qed.

(** What a result read off a page is made of. *)
Lemma major_loop_Some bank_name key w urls br :
  major_loop upper bank_name key w urls = Some br ->
  exists page,
    In (source_url br) urls
    /\ fetch_page w key (source_url br) = Return page
    /\ rates br = kept (row_rates upper (trs page))
    /\ rates br <> [] /\ bank br = bank_name /\ date br = TODAY w.
Proof.
  induction urls as [ | url urls IH ]; cbn [major_loop]; [ discriminate | ].
  assert (Hrest : major_loop upper bank_name key w urls = Some br ->
                  exists page,
                    In (source_url br) (url :: urls)
                    /\ fetch_page w key (source_url br) = Return page
                    /\ rates br = kept (row_rates upper (trs page))
                    /\ rates br <> [] /\ bank br = bank_name
                    /\ date br = TODAY w).
  { intros H. destruct (IH H) as (page & Hin & Hrest).
    exists page. split; [ now right | assumption ]. }
  destruct (fetch_page w key url) as [ page | e ] eqn:Hf; [ | exact Hrest ].
  destruct (major_scan upper page) as [ | r rs ] eqn:Hs; [ exact Hrest | ].
  destruct (major (dedup (r :: rs))) as [ | m mj ] eqn:Hm; [ exact Hrest | ].
  intros [= <-]. exists page. cbn [source_url rates bank date].
  rewrite <- major_scan_rows, Hs, <- major_dedup, Hm.
  repeat split; try (now left); try assumption. discriminate.
Qed.

Lemma hamkorbank_loop_Some w urls br :
  hamkorbank_loop upper w urls = Some br ->
  exists page,
    In (source_url br) urls
    /\ fetch_page w (lit "hamkorbank") (source_url br) = Return page
    /\ rates br = kept (hamkorbank_row_rates upper (tables page))
    /\ rates br <> [] /\ bank br = lit "Hamkorbank" /\ date br = TODAY w.
Proof.
  induction urls as [ | url urls IH ]; cbn [hamkorbank_loop];
    [ discriminate | ].
  assert (Hrest : hamkorbank_loop upper w urls = Some br ->
                  exists page,
                    In (source_url br) (url :: urls)
                    /\ fetch_page w (lit "hamkorbank") (source_url br)
                       = Return page
                    /\ rates br = kept (hamkorbank_row_rates upper (tables page))
                    /\ rates br <> [] /\ bank br = lit "Hamkorbank"
                    /\ date br = TODAY w).
  { intros H. destruct (IH H) as (page & Hin & Hrest).
    exists page. split; [ now right | assumption ]. }
  destruct (fetch_page w (lit "hamkorbank") url) as [ page | e ] eqn:Hf;
    [ | exact Hrest ].
  destruct (hamkorbank_scan upper page) as [ | r rs ] eqn:Hs;
    [ exact Hrest | ].
  destruct (major (dedup (r :: rs))) as [ | m mj ] eqn:Hm; [ exact Hrest | ].
  intros [= <-]. exists page. cbn [source_url rates bank date].
  rewrite <- hamkorbank_scan_rows, Hs, <- major_dedup, Hm.
  repeat split; try (now left); try assumption. discriminate.
Qed.

Lemma major_three_adapter key urls fn :
  In (key, urls, fn) (major_three upper) ->
  exists bank_name, fn = major_adapter upper bank_name key urls.
Proof.
  unfold major_three. cbn [In].
  intros [ [= <- <- <-] | [ [= <- <- <-] | [ [= <- <- <-] | [] ] ] ];
    eexists; reflexivity.
Qed.

Lemma major_adapter_Return bank_name key urls w br :
  major_adapter upper bank_name key urls w = Return br ->
  (rates br = [] /\ source_url br = hd [] urls /\ bank br = bank_name)
  \/ exists page,
      In (source_url br) urls
      /\ fetch_page w key (source_url br) = Return page
      /\ rates br = kept (row_rates upper (trs page)) /\ rates br <> [].
Proof.
  unfold major_adapter.
  destruct (major_loop upper bank_name key w urls) as [ br' | ] eqn:E.
  - intros [= <-]. right.
    destruct (major_loop_Some _ _ _ _ _ E) as (page & H1 & H2 & H3 & H4 & _).
    now exists page.
  - intros [= <-]. now left.
Qed.

Lemma hamkorbank_Return w br :
  hamkorbank upper w = Return br ->
  (rates br = [] /\ source_url br = hd [] hamkorbank_urls)
  \/ exists page,
      In (source_url br) hamkorbank_urls
      /\ fetch_page w (lit "hamkorbank") (source_url br) = Return page
      /\ rates br = kept (hamkorbank_row_rates upper (tables page))
      /\ rates br <> [].
Proof.
  unfold hamkorbank.
  destruct (hamkorbank_loop upper w hamkorbank_urls) as [ br' | ] eqn:E.
  - intros [= <-]. right.
    destruct (hamkorbank_loop_Some _ _ _ E) as (page & H1 & H2 & H3 & H4 & _).
    now exists page.
  - intros H. apply Return_inj in H. subst br. left. split; reflexivity.
Qed.

(** C2, as the code has it: when the statements under [try:] raise for
    every candidate address, Hamkorbank, Agrobank, Ipak Yuli Bank and TBC Bank return a BankRates
    with no rates and their first address as source; Kapitalbank raises
    the exception of its last address. *)
Theorem every_url_raises (w : world) :
  ((forall url, In url hamkorbank_urls ->
                exists e, fetch_page w (lit "hamkorbank") url = Raise e) ->
   hamkorbank upper w
   = Return (mkBankRates (lit "Hamkorbank") (TODAY w) []
                         (lit "https://hamkorbank.uz/ru/exchange-rate/")))
  /\ ((forall url, In url agrobank_urls ->
                   exists e, fetch_page w (lit "agrobank") url = Raise e) ->
      agrobank upper w
      = Return (mkBankRates (lit "Agrobank") (TODAY w) []
                            (lit "https://agrobank.uz/ru/person")))
  /\ ((forall url, In url ipakyulibank_urls ->
                   exists e, fetch_page w (lit "ipakyulibank") url = Raise e) ->
      ipakyulibank upper w
      = Return (mkBankRates (lit "Ipak Yuli Bank") (TODAY w) []
                            (lit "https://ipakyulibank.uz/ru")))
  /\ ((forall url, In url tbc_bank_uz_urls ->
                   exists e, fetch_page w (lit "tbc_bank_uz") url = Raise e) ->
      tbc_bank_uz upper w
      = Return (mkBankRates (lit "TBC Bank Uzbekistan") (TODAY w) []
                            (lit "https://tbcbank.uz/ru")))
  /\ ((forall url, In url kapitalbank_urls ->
                   exists e, fetch_page w (lit "kapitalbank") url = Raise e) ->
      exists e,
        kapitalbank upper w = Raise e
        /\ fetch_page w (lit "kapitalbank")
             (lit "https://www.kapitalbank.uz/services/exchange-rates-new/")
           = Raise e).
Proof.
  split; [ | split; [ | split; [ | split ] ] ].
  - intros H. unfold hamkorbank.
    rewrite hamkorbank_loop_raise by exact H. reflexivity.
  - intros H. unfold agrobank, major_adapter.
    rewrite major_loop_raise by exact H. reflexivity.
  - intros H. unfold ipakyulibank, major_adapter.
    rewrite major_loop_raise by exact H. reflexivity.
  - intros H. unfold tbc_bank_uz, major_adapter.
    rewrite major_loop_raise by exact H. reflexivity.
  - intros H. unfold kapitalbank.
    destruct (kapitalbank_loop_raise w kapitalbank_urls None H)
      as (e & -> & Hlast).
    unfold kapitalbank_urls in Hlast. cbn [map rev app] in Hlast.
    destruct Hlast as (x & -> & Hx). exists x. split; [ reflexivity | exact Hx ].
Qed.

(** C3, as the code has it: the three adapters keep the last row of a
    currency, as [hamkorbank] does. *)
Theorem duplicate_rows_last_wins (w : world) (br : BankRates) :
  rates br <> [] ->
  (forall key urls fn,
      In (key, urls, fn) (major_three upper) -> fn w = Return br ->
      exists page,
        In (source_url br) urls
        /\ fetch_page w key (source_url br) = Return page
        /\ rates br = kept (row_rates upper (trs page))
        /\ forall r, In r (rates br) ->
                     last_with (ccy r) (row_rates upper (trs page)) = Some r)
  /\ (hamkorbank upper w = Return br ->
      exists page,
        In (source_url br) hamkorbank_urls
        /\ fetch_page w (lit "hamkorbank") (source_url br) = Return page
        /\ rates br = kept (hamkorbank_row_rates upper (tables page))
        /\ forall r, In r (rates br) ->
                     last_with (ccy r) (hamkorbank_row_rates upper (tables page))
                     = Some r).
Proof.
  intros Hne. split.
  - intros key urls fn Hin Hfn.
    destruct (major_three_adapter _ _ _ Hin) as [bank_name ->].
    destruct (major_adapter_Return _ _ _ _ _ Hfn)
      as [ (H & _) | (page & H1 & H2 & H3 & _) ]; [ contradiction | ].
    exists page. repeat split; try assumption.
    intros r Hr. rewrite H3 in Hr. now apply kept_last in Hr.
  - intros Hfn.
    destruct (hamkorbank_Return _ _ Hfn)
      as [ (H & _) | (page & H1 & H2 & H3 & _) ]; [ contradiction | ].
    exists page. repeat split; try assumption.
    intros r Hr. rewrite H3 in Hr. now apply kept_last in Hr.
Qed.

(** ** Kapitalbank's rows *)

Lemma kapitalbank_row_add bag cells :
  kapitalbank_row upper bag cells = bag_of (major_row upper [] cells) bag.
Proof.
  unfold kapitalbank_row, major_row, bag_of.
  destruct cells; [ reflexivity | ].
  destruct (next_ccy upper MAJOR _); [ | reflexivity ].
  cbv zeta. now destruct (2 <=? _).
Qed.

Lemma kapitalbank_bag rows bag :
  fold_left (kapitalbank_row upper) rows bag = bag_of (row_rates upper rows) bag.
Proof.
  revert bag. induction rows as [ | cells rows IH ]; intros bag;
    [ reflexivity | ].
  cbn [fold_left]. unfold row_rates. cbn [flat_map]. unfold bag_of.
  rewrite fold_left_app. fold (bag_of (major_row upper [] cells) bag).
  rewrite <- kapitalbank_row_add. apply IH.
Qed.


Lemma kapitalbank_loop_Some w urls last br last' :
  kapitalbank_loop upper w urls last = (Some br, last') ->
  exists page,
    In (source_url br) urls
    /\ fetch_page w (lit "kapitalbank") (source_url br) = Return page
    /\ rates br = sorted ccy (kapitalbank_scan upper page)
    /\ kapitalbank_scan upper page <> [].
Proof.
  revert last. induction urls as [ | url urls IH ]; intros last;
    cbn [kapitalbank_loop]; [ discriminate | ].
  assert (Hrest : forall l,
             kapitalbank_loop upper w urls l = (Some br, last') ->
             exists page,
               In (source_url br) (url :: urls)
               /\ fetch_page w (lit "kapitalbank") (source_url br)
                  = Return page
               /\ rates br = sorted ccy (kapitalbank_scan upper page)
               /\ kapitalbank_scan upper page <> []).
  { intros l H. destruct (IH _ H) as (page & Hin & Hrest).
    exists page. split; [ now right | assumption ]. }
  destruct (fetch_page w (lit "kapitalbank") url) as [ page | e ] eqn:Hf;
    [ | apply Hrest ].
  destruct (kapitalbank_scan upper page) as [ | r rs ] eqn:Hs;
    [ apply Hrest | ].
  intros H. assert (Hbr : br = mkBankRates (lit "Kapitalbank") (TODAY w)
                                 (sorted ccy (r :: rs)) url).
  { apply (f_equal fst) in H. cbn [fst] in H.
    apply (f_equal (fun o => match o with Some b => b | None => br end)) in H.
    now symmetry. }
  exists page. subst br. cbn [source_url rates]. rewrite Hs.
  repeat split; try (now left); try assumption. discriminate.
Qed.

Lemma kapitalbank_Return w br :
  kapitalbank upper w = Return br ->
  (rates br = [] /\ source_url br = hd [] kapitalbank_urls)
  \/ exists page,
      In (source_url br) kapitalbank_urls
      /\ fetch_page w (lit "kapitalbank") (source_url br) = Return page
      /\ rates br = sorted ccy (kapitalbank_scan upper page)
      /\ kapitalbank_scan upper page <> [].
Proof.
  unfold kapitalbank.
  destruct (kapitalbank_loop upper w kapitalbank_urls None)
    as [ [ br' | ] [ e | ] ] eqn:E; intros H;
    try discriminate; apply Return_inj in H; subst br.
  - right. exact (kapitalbank_loop_Some _ _ _ _ _ E).
  - right. exact (kapitalbank_loop_Some _ _ _ _ _ E).
  - left. split; reflexivity.
Qed.

(** ** The Rates of rows *)

Lemma major_row_rate cells r :
  In r (major_row upper [] cells) -> In (ccy r) MAJOR /\ complete r.
Proof.
  unfold major_row. destruct cells as [ | c0 cells ]; [ contradiction | ].
  destruct (next_ccy upper MAJOR (c0 :: cells)) as [ c | ] eqn:E;
    [ | contradiction ].
  cbv zeta. destruct (2 <=? _); [ | contradiction ].
  intros [ <- | [] ]. cbn [ccy]. split.
  - apply mem_In. exact (next_ccy_mem _ _ _ E).
  - eexists _, _. split; reflexivity.
Qed.

Lemma hamkorbank_row_rate cells r :
  In r (hamkorbank_row upper [] cells) -> In (ccy r) CCYS /\ complete r.
Proof.
  unfold hamkorbank_row. destruct cells as [ | c0 cells ]; [ contradiction | ].
  destruct (next_ccy upper CCYS (c0 :: cells)) as [ c | ] eqn:E;
    [ | contradiction ].
  cbv zeta. destruct (2 <=? _); [ | contradiction ].
  intros [ <- | [] ]. cbn [ccy]. split.
  - apply mem_In. exact (next_ccy_mem _ _ _ E).
  - eexists _, _. split; reflexivity.
Qed.

Lemma row_rates_rate rows r :
  In r (row_rates upper rows) -> In (ccy r) MAJOR /\ complete r.
Proof.
  unfold row_rates. rewrite in_flat_map. intros (cells & _ & H).
  exact (major_row_rate _ _ H).
Qed.

Lemma hamkorbank_row_rates_rate tbls r :
  In r (hamkorbank_row_rates upper tbls) -> In (ccy r) CCYS /\ complete r.
Proof.
  unfold hamkorbank_row_rates. rewrite in_flat_map. intros (t & _ & H).
  apply in_flat_map in H as (cells & _ & H).
  exact (hamkorbank_row_rate _ _ H).
Qed.



Lemma kapitalbank_scan_ccy page :
  map ccy (kapitalbank_scan upper page)
  = map fst (bag_of (row_rates upper (trs page)) []).
Proof.
  unfold kapitalbank_scan. rewrite kapitalbank_bag, map_map.
  apply map_ext. exact kapitalbank_mean_ccy.
Qed.


End AdapterFacts.

(** ** Candidate addresses *)

Section AddressFacts.

Variable upper : str -> str.

Lemma major_loop_step bank_name key w url urls :
  major_loop upper bank_name key w (url :: urls)
  = match fetch_page w key url with
    | Return page =>
      match major_offer upper page with
      | [] => major_loop upper bank_name key w urls
      | mj => Some (mkBankRates bank_name (TODAY w) mj url)
      end
    | Raise _ => major_loop upper bank_name key w urls
    end.
Proof.
  cbn [major_loop]. destruct (fetch_page w key url) as [ page | e ];
    [ | reflexivity ].
  unfold major_offer. rewrite <- major_scan_rows, <- major_dedup.
  destruct (major_scan upper page) as [ | r rs ]; reflexivity.
Qed.

Lemma hamkorbank_loop_step w url urls :
  hamkorbank_loop upper w (url :: urls)
  = match fetch_page w (lit "hamkorbank") url with
    | Return page =>
      match hamkorbank_offer upper page with
      | [] => hamkorbank_loop upper w urls
      | mj => Some (mkBankRates (lit "Hamkorbank") (TODAY w) mj url)
      end
    | Raise _ => hamkorbank_loop upper w urls
    end.
Proof.
  cbn [hamkorbank_loop].
  destruct (fetch_page w (lit "hamkorbank") url) as [ page | e ];
    [ | reflexivity ].
  unfold hamkorbank_offer. rewrite <- hamkorbank_scan_rows, <- major_dedup.
  destruct (hamkorbank_scan upper page) as [ | r rs ]; reflexivity.
Qed.

Lemma sorted_nil (A : Type) (key : A -> str) l : sorted key l = [] <-> l = [].
Proof.
  split; [ | now intros -> ].
  intros H. pose proof (sorted_perm A key l) as Hp. rewrite H in Hp.
  now apply Permutation_nil in Hp.
Qed.

Lemma kapitalbank_loop_step w url urls last :
  kapitalbank_loop upper w (url :: urls) last
  = match fetch_page w (lit "kapitalbank") url with
    | Return page =>
      match kapitalbank_offer upper page with
      | [] => kapitalbank_loop upper w urls last
      | out => (Some (mkBankRates (lit "Kapitalbank") (TODAY w) out url), last)
      end
    | Raise e => kapitalbank_loop upper w urls (Some e)
    end.
Proof.
  cbn [kapitalbank_loop].
  destruct (fetch_page w (lit "kapitalbank") url) as [ page | e ];
    [ | reflexivity ].
  unfold kapitalbank_offer.
  destruct (kapitalbank_scan upper page) as [ | r rs ] eqn:Hs; [ reflexivity | ].
  destruct (sorted ccy (r :: rs)) as [ | o out ] eqn:Ho; [ | reflexivity ].
  apply sorted_nil in Ho. discriminate.
Qed.

Lemma major_loop_skip bank_name key w pre urls :
  Forall (no_rates (major_offer upper) w key) pre ->
  major_loop upper bank_name key w (pre ++ urls)
  = major_loop upper bank_name key w urls.
Proof.
  induction 1 as [ | u pre Hu _ IH ]; [ reflexivity | ].
  cbn [app]. rewrite major_loop_step. unfold no_rates in Hu.
  destruct (fetch_page w key u) as [ page | e ]; [ | exact IH ].
  rewrite Hu. exact IH.
Qed.

Lemma hamkorbank_loop_skip w pre urls :
  Forall (no_rates (hamkorbank_offer upper) w (lit "hamkorbank")) pre ->
  hamkorbank_loop upper w (pre ++ urls) = hamkorbank_loop upper w urls.
Proof.
  induction 1 as [ | u pre Hu _ IH ]; [ reflexivity | ].
  cbn [app]. rewrite hamkorbank_loop_step. unfold no_rates in Hu.
  destruct (fetch_page w (lit "hamkorbank") u) as [ page | e ]; [ | exact IH ].
  rewrite Hu. exact IH.
Qed.

Lemma kapitalbank_loop_skip w pre urls last :
  Forall (no_rates (kapitalbank_offer upper) w (lit "kapitalbank")) pre ->
  exists last',
    kapitalbank_loop upper w (pre ++ urls) last
    = kapitalbank_loop upper w urls last'.
Proof.
  intros H. revert last. induction H as [ | u pre Hu _ IH ]; intros last.
  - now exists last.
  - cbn [app]. rewrite kapitalbank_loop_step. unfold no_rates in Hu.
    destruct (fetch_page w (lit "kapitalbank") u) as [ page | e ];
      [ rewrite Hu | ]; apply IH.
Qed.

Lemma kapitalbank_loop_empty w urls last :
  Forall (empty_page (kapitalbank_offer upper) w (lit "kapitalbank")) urls ->
  kapitalbank_loop upper w urls last = (None, last).
Proof.
  induction 1 as [ | u urls (page & Hf & Ho) _ IH ]; [ reflexivity | ].
  now rewrite kapitalbank_loop_step, Hf, Ho.
Qed.

(** An adapter returns what the first of its addresses with a rate offers,
    under that address: the addresses before it are passed over, whether
    they raised or had no rate, the ones after it are not looked at; and
    an exception Kapitalbank met on the way is forgotten. *)
Theorem first_address_with_rates (w : world) :
  (forall key urls fn pre url post page,
      In (key, urls, fn) (major_three upper) ->
      urls = pre ++ url :: post ->
      Forall (no_rates (major_offer upper) w key) pre ->
      fetch_page w key url = Return page ->
      major_offer upper page <> [] ->
      exists br,
        fn w = Return br /\ date br = TODAY w /\ source_url br = url
        /\ rates br = major_offer upper page)
  /\ (forall pre url post page,
         hamkorbank_urls = pre ++ url :: post ->
         Forall (no_rates (hamkorbank_offer upper) w (lit "hamkorbank")) pre ->
         fetch_page w (lit "hamkorbank") url = Return page ->
         hamkorbank_offer upper page <> [] ->
         hamkorbank upper w
         = Return (mkBankRates (lit "Hamkorbank") (TODAY w)
                               (hamkorbank_offer upper page) url))
  /\ (forall pre url post page,
         kapitalbank_urls = pre ++ url :: post ->
         Forall (no_rates (kapitalbank_offer upper) w (lit "kapitalbank")) pre ->
         fetch_page w (lit "kapitalbank") url = Return page ->
         kapitalbank_offer upper page <> [] ->
         kapitalbank upper w
         = Return (mkBankRates (lit "Kapitalbank") (TODAY w)
                               (kapitalbank_offer upper page) url)).
Proof.
  refine (conj _ (conj _ _)).
  - intros key urls fn pre url post page Hin -> Hpre Hf Ho.
    destruct (major_three_adapter _ _ _ _ Hin) as [bank_name ->].
    unfold major_adapter.
    rewrite major_loop_skip by exact Hpre.
    rewrite major_loop_step, Hf.
    destruct (major_offer upper page) as [ | r rs ] eqn:E; [ now elim Ho | ].
    eexists. split; [ reflexivity | ]. cbn [date source_url rates].
    repeat split; reflexivity.
  - intros pre url post page Hu Hpre Hf Ho. unfold hamkorbank.
    rewrite Hu, hamkorbank_loop_skip by exact Hpre.
    rewrite hamkorbank_loop_step, Hf.
    destruct (hamkorbank_offer upper page) as [ | r rs ] eqn:E;
      [ now elim Ho | reflexivity ].
  - intros pre url post page Hu Hpre Hf Ho. unfold kapitalbank.
    rewrite Hu.
    destruct (kapitalbank_loop_skip w pre (url :: post) None Hpre)
      as [last' ->].
    rewrite kapitalbank_loop_step, Hf.
    destruct (kapitalbank_offer upper page) as [ | r rs ] eqn:E;
      [ now elim Ho | reflexivity ].
Qed.

Lemma major_loop_none bank_name key w urls :
  Forall (no_rates (major_offer upper) w key) urls ->
  major_loop upper bank_name key w urls = None.
Proof.
  intros H. rewrite <- (app_nil_r urls). now rewrite major_loop_skip.
Qed.

Lemma hamkorbank_loop_none w urls :
  Forall (no_rates (hamkorbank_offer upper) w (lit "hamkorbank")) urls ->
  hamkorbank_loop upper w urls = None.
Proof.
  intros H. rewrite <- (app_nil_r urls). now rewrite hamkorbank_loop_skip.
Qed.

(** When none of its addresses has a rate, be it that they raise or that
    their pages hold none, an adapter other than Kapitalbank returns
    no rates under its first address.  Kapitalbank does so only when no
    address raised; otherwise it raises the exception of the last address
    that did, also when the pages fetched after it were fine. *)
Theorem no_address_with_rates (w : world) :
  (forall key urls fn,
      In (key, urls, fn) (major_three upper) ->
      Forall (no_rates (major_offer upper) w key) urls ->
      exists br,
        fn w = Return br /\ rates br = [] /\ date br = TODAY w
        /\ source_url br = hd [] urls)
  /\ (Forall (no_rates (hamkorbank_offer upper) w (lit "hamkorbank"))
             hamkorbank_urls ->
      hamkorbank upper w
      = Return (mkBankRates (lit "Hamkorbank") (TODAY w) []
                            (lit "https://hamkorbank.uz/ru/exchange-rate/")))
  /\ (Forall (empty_page (kapitalbank_offer upper) w (lit "kapitalbank"))
             kapitalbank_urls ->
      kapitalbank upper w
      = Return (mkBankRates (lit "Kapitalbank") (TODAY w) []
                  (lit "https://www.kapitalbank.uz/ru/services/exchange-rates-new/")))
  /\ (forall pre url post e,
         kapitalbank_urls = pre ++ url :: post ->
         Forall (no_rates (kapitalbank_offer upper) w (lit "kapitalbank")) pre ->
         fetch_page w (lit "kapitalbank") url = Raise e ->
         Forall (empty_page (kapitalbank_offer upper) w (lit "kapitalbank"))
                post ->
         kapitalbank upper w = Raise e).
Proof.
  refine (conj _ (conj _ (conj _ _))).
  - intros key urls fn Hin Hall.
    destruct (major_three_adapter _ _ _ _ Hin) as [bank_name ->].
    unfold major_adapter. rewrite major_loop_none by exact Hall.
    eexists. split; [ reflexivity | ]. repeat split; reflexivity.
  - intros Hall. unfold hamkorbank.
    now rewrite hamkorbank_loop_none by exact Hall.
  - intros Hall. unfold kapitalbank.
    now rewrite kapitalbank_loop_empty by exact Hall.
  - intros pre url post e Hu Hpre Hf Hpost. unfold kapitalbank.
    rewrite Hu.
    destruct (kapitalbank_loop_skip w pre (url :: post) None Hpre)
      as [last' ->].
    rewrite kapitalbank_loop_step, Hf.
    now rewrite kapitalbank_loop_empty by exact Hpost.
Qed.

End AddressFacts.

(** ** What every result satisfies *)

Lemma NoDup_MAJOR : NoDup MAJOR.
Proof.
  unfold MAJOR, USD, EUR, RUB.
  repeat constructor; cbn [In]; intuition discriminate.
Qed.

Lemma kept_ccys rs :
  NoDup (map ccy (kept rs)) /\ incl (map ccy (kept rs)) MAJOR.
Proof.
  rewrite kept_ccy. split.
  - apply NoDup_filter. exact NoDup_MAJOR.
  - intros c Hc. now apply filter_In in Hc as [Hc _].
Qed.

Section ResultFacts.

Variable upper : str -> str.

Lemma kapitalbank_scan_ccys page :
  NoDup (map ccy (kapitalbank_scan upper page))
  /\ incl (map ccy (kapitalbank_scan upper page)) MAJOR.
Proof.
  rewrite kapitalbank_scan_ccy. split.
  - apply bag_of_NoDup. constructor.
  - intros c Hc. apply bag_of_keys in Hc as [ [] | (r & Hr & <-) ].
    exact (proj1 (row_rates_rate _ _ _ Hr)).
Qed.

Lemma well_formed_intro b d urls br :
  bank br = b -> date br = d -> In (source_url br) urls ->
  (rates br = [] -> source_url br = hd [] urls) ->
  NoDup (map ccy (rates br)) -> incl (map ccy (rates br)) MAJOR ->
  well_formed b d urls br.
Proof.
  intros H1 H2 H3 H4 H5 H6. unfold well_formed.
  refine (conj H1 (conj H2 (conj H3 (conj H4 (conj H5 (conj H6 _)))))).
  rewrite <- (length_map ccy). exact (NoDup_incl_length H5 H6).
Qed.

Lemma well_formed_first b d urls :
  urls <> [] -> well_formed b d urls (mkBankRates b d [] (hd [] urls)).
Proof.
  intros Hne. destruct urls as [ | url urls ]; [ now elim Hne | ].
  apply well_formed_intro; cbn [bank date source_url rates map hd];
    try reflexivity.
  - now left.
  - constructor.
  - intros c [].
Qed.

Lemma major_adapter_well_formed bank_name key urls w br :
  urls <> [] ->
  major_adapter upper bank_name key urls w = Return br ->
  well_formed bank_name (TODAY w) urls br.
Proof.
  intros Hne. unfold major_adapter.
  destruct (major_loop upper bank_name key w urls) as [ br' | ] eqn:E;
    intros H; apply Return_inj in H; subst br.
  - destruct (major_loop_Some _ _ _ _ _ _ E)
      as (page & H1 & _ & H3 & H4 & H5 & H6).
    destruct (kept_ccys (row_rates upper (trs page))) as [Hn Hi].
    rewrite <- H3 in Hn, Hi.
    apply well_formed_intro; try assumption. intros Hr. now elim H4.
  - now apply well_formed_first.
Qed.

Lemma hamkorbank_well_formed w br :
  hamkorbank upper w = Return br ->
  well_formed (lit "Hamkorbank") (TODAY w) hamkorbank_urls br.
Proof.
  unfold hamkorbank.
  destruct (hamkorbank_loop upper w hamkorbank_urls) as [ br' | ] eqn:E;
    intros H; apply Return_inj in H; subst br.
  - destruct (hamkorbank_loop_Some _ _ _ _ E)
      as (page & H1 & _ & H3 & H4 & H5 & H6).
    destruct (kept_ccys (hamkorbank_row_rates upper (tables page))) as [Hn Hi].
    rewrite <- H3 in Hn, Hi.
    apply well_formed_intro; try assumption. intros Hr. now elim H4.
  - apply well_formed_first. unfold hamkorbank_urls. cbn [map]. discriminate.
Qed.

Lemma kapitalbank_loop_meta w urls last br last' :
  kapitalbank_loop upper w urls last = (Some br, last') ->
  bank br = lit "Kapitalbank" /\ date br = TODAY w.
Proof.
  revert last. induction urls as [ | url urls IH ]; intros last;
    cbn [kapitalbank_loop]; [ discriminate | ].
  destruct (fetch_page w (lit "kapitalbank") url) as [ page | e ];
    [ | apply IH ].
  destruct (kapitalbank_scan upper page) as [ | r rs ]; [ apply IH | ].
  intros H. apply (f_equal fst) in H. cbn [fst] in H.
  apply (f_equal (fun o => match o with Some b => b | None => br end)) in H.
  subst br. split; reflexivity.
Qed.

Lemma kapitalbank_loop_well_formed w last br last' :
  kapitalbank_loop upper w kapitalbank_urls last = (Some br, last') ->
  well_formed (lit "Kapitalbank") (TODAY w) kapitalbank_urls br.
Proof.
  intros E.
  destruct (kapitalbank_loop_Some _ _ _ _ _ _ E) as (page & H1 & _ & H3 & H4).
  destruct (kapitalbank_loop_meta _ _ _ _ _ E) as [H5 H6].
  destruct (kapitalbank_scan_ccys page) as [Hn Hi].
  pose proof (Permutation_map ccy
                (sorted_perm Rate ccy (kapitalbank_scan upper page))) as Hp.
  rewrite <- H3 in Hp.
  apply well_formed_intro; try assumption.
  - intros Hr. exfalso. apply H4. rewrite Hr in Hp. cbn [map] in Hp.
    apply Permutation_nil in Hp. now apply map_eq_nil in Hp.
  - exact (Permutation_NoDup (Permutation_sym Hp) Hn).
  - intros c Hc. apply Hi. exact (Permutation_in c Hp Hc).
Qed.

Lemma kapitalbank_well_formed w br :
  kapitalbank upper w = Return br ->
  well_formed (lit "Kapitalbank") (TODAY w) kapitalbank_urls br.
Proof.
  unfold kapitalbank.
  destruct (kapitalbank_loop upper w kapitalbank_urls None)
    as [ [ br' | ] [ e | ] ] eqn:E; intros H;
    try discriminate; apply Return_inj in H; subst br.
  - exact (kapitalbank_loop_well_formed _ _ _ _ E).
  - exact (kapitalbank_loop_well_formed _ _ _ _ E).
  - apply well_formed_first. unfold kapitalbank_urls. cbn [map]. discriminate.
Qed.

Lemma adapter_date (w : world) (fn : adapter) (br : BankRates) :
  In fn (ADAPTERS upper) -> call fn w = Return br -> date br = TODAY w.
Proof.
  unfold ADAPTERS. cbn [In].
  intros [ <- | [ <- | [ <- | [ <- | [ <- | [] ] ] ] ] ]; cbn [call];
    intros Hfn.
  - exact (proj1 (proj2 (hamkorbank_well_formed w br Hfn))).
  - refine (proj1 (proj2 (major_adapter_well_formed _ (lit "agrobank")
                            agrobank_urls w br _ Hfn))).
    unfold agrobank_urls. cbn [map]. discriminate.
  - exact (proj1 (proj2 (kapitalbank_well_formed w br Hfn))).
  - refine (proj1 (proj2 (major_adapter_well_formed _ (lit "ipakyulibank")
                            ipakyulibank_urls w br _ Hfn))).
    unfold ipakyulibank_urls. cbn [map]. discriminate.
  - refine (proj1 (proj2 (major_adapter_well_formed _ (lit "tbc_bank_uz")
                            tbc_bank_uz_urls w br _ Hfn))).
    unfold tbc_bank_uz_urls. cbn [map]. discriminate.
Qed.

(** Whatever the pages, what an adapter returns names its bank and the
    day of the run, is tagged with one of the bank's addresses (the first
    one when it has no rates), and has at most three Rates, of distinct
    currencies among USD, EUR and RUB. *)
Theorem adapter_result_well_formed (w : world) (fn : adapter)
        (br : BankRates) :
  In fn (ADAPTERS upper) -> call fn w = Return br ->
  exists b urls,
    In (name fn, b, urls) banks /\ well_formed b (TODAY w) urls br.
Proof.
  unfold ADAPTERS. cbn [In].
  intros [ <- | [ <- | [ <- | [ <- | [ <- | [] ] ] ] ] ]; cbn [call name];
    intros Hfn.
  - exists (lit "Hamkorbank"), hamkorbank_urls. split.
    + unfold banks. now left.
    + now apply hamkorbank_well_formed.
  - exists (lit "Agrobank"), agrobank_urls. split.
    + unfold banks. right. now left.
    + apply (major_adapter_well_formed _ (lit "agrobank")); [ | exact Hfn ].
      unfold agrobank_urls. cbn [map]. discriminate.
  - exists (lit "Kapitalbank"), kapitalbank_urls. split.
    + unfold banks. right. right. now left.
    + now apply kapitalbank_well_formed.
  - exists (lit "Ipak Yuli Bank"), ipakyulibank_urls. split.
    + unfold banks. right. right. right. now left.
    + apply (major_adapter_well_formed _ (lit "ipakyulibank"));
        [ | exact Hfn ].
      unfold ipakyulibank_urls. cbn [map]. discriminate.
  - exists (lit "TBC Bank Uzbekistan"), tbc_bank_uz_urls. split.
    + unfold banks. right. right. right. right. now left.
    + apply (major_adapter_well_formed _ (lit "tbc_bank_uz"));
        [ | exact Hfn ].
      unfold tbc_bank_uz_urls. cbn [map]. discriminate.
Qed.

End ResultFacts.

(** ** Kapitalbank's groups *)

Lemma In_dict_get (V : Type) (d : dict V) c v :
  NoDup (map fst d) -> In (c, v) d -> dict_get d c = Some v.
Proof.
  induction d as [ | [k x] d IH ]; intros Hn Hin; [ contradiction | ].
  cbn [map fst] in Hn. inversion Hn as [ | ? ? Hk Hd ]; subst.
  cbn [dict_get]. destruct Hin as [ [= -> ->] | Hin ].
  - now rewrite str_eqb_refl.
  - destruct (str_eqb k c) eqn:E; [ | now apply IH ].
    apply str_eqb_eq in E. subst k. elim Hk.
    change c with (fst (c, v)). now apply in_map.
Qed.

Lemma not_none_length (A : Type) (f : Rate -> option A) arr :
  Forall (fun r => exists v, f r = Some v) arr ->
  List.length (not_none (map f arr)) = List.length arr.
Proof.
  induction 1 as [ | r arr [v Hv] _ IH ]; [ reflexivity | ].
  cbn [map]. rewrite Hv. cbn [not_none List.length]. now rewrite IH.
Qed.

Section GroupFacts.

Variable upper : str -> str.

(** Kapitalbank's bag, once the rows are read, holds under each currency
    the rows of that currency in the order of the scan.  A group is never
    empty and each of its Rates has both prices, so that the division by
    [len(arr)] is never by zero and the tests [is not None] let every
    Rate through. *)
Theorem kapitalbank_groups (rows : list (list str)) (c : str)
        (arr : list Rate) :
  In (c, arr) (fold_left (kapitalbank_row upper) rows []) ->
  In c MAJOR
  /\ arr = filter (has_ccy c) (row_rates upper rows)
  /\ arr <> []
  /\ Forall complete arr
  /\ List.length (not_none (map buy arr)) = List.length arr
  /\ List.length (not_none (map sell arr)) = List.length arr.
Proof.
  rewrite kapitalbank_bag. intros Hin.
  set (rs := row_rates upper rows) in *.
  assert (Hn : NoDup (map fst (bag_of rs []))).
  { apply bag_of_NoDup. constructor. }
  assert (Hk : In c (map fst (bag_of rs []))).
  { change c with (fst (c, arr)). now apply in_map. }
  apply bag_of_keys in Hk as [ [] | (r & Hr & Hc) ].
  assert (Harr : arr = filter (has_ccy c) rs).
  { pose proof (group_of_bag rs [] c) as Hg. unfold group_of in Hg.
    rewrite (In_dict_get _ _ _ _ Hn Hin) in Hg. exact Hg. }
  assert (Hcomplete : Forall complete arr).
  { rewrite Harr. apply Forall_forall. intros x Hx.
    apply filter_In in Hx as [Hx _].
    exact (proj2 (row_rates_rate _ _ _ Hx)). }
  refine (conj _ (conj Harr (conj _ (conj Hcomplete (conj _ _))))).
  - rewrite <- Hc. exact (proj1 (row_rates_rate _ _ _ Hr)).
  - intros He. rewrite He in Harr. symmetry in Harr.
    assert (Hx : In r (filter (has_ccy c) rs)).
    { apply filter_In. split; [ exact Hr | ].
      unfold has_ccy. now apply str_eqb_eq. }
    now rewrite Harr in Hx.
  - apply not_none_length. eapply Forall_impl; [ | exact Hcomplete ].
    intros x (b & s & Hb & _). now exists b.
  - apply not_none_length. eapply Forall_impl; [ | exact Hcomplete ].
    intros x (b & s & _ & Hs). now exists s.
Qed.

End GroupFacts.

(** ** An adapter and the addresses of the others *)

Section LocalityFacts.

Variable upper : str -> str.

Lemma fetch_page_same_at urls w w' key url :
  same_at urls w w' -> In url urls ->
  fetch_page w key url = fetch_page w' key url.
Proof.
  intros (_ & Ha & Hw & Hf) Hin. unfold fetch_page, save_debug, DEBUG.
  rewrite (Hf url Hin), Ha.
  destruct (fetch_html w' url) as [ sh | e ]; cbn [bind]; [ | reflexivity ].
  now rewrite Hw.
Qed.

Lemma same_at_tail url urls w w' :
  same_at (url :: urls) w w' -> same_at urls w w'.
Proof.
  intros (Ht & Ha & Hw & Hf). repeat split; try assumption.
  intros u Hu. apply Hf. now right.
Qed.

Lemma major_loop_same_at bank_name key urls w w' :
  same_at urls w w' ->
  major_loop upper bank_name key w urls
  = major_loop upper bank_name key w' urls.
Proof.
  induction urls as [ | url urls IH ]; intros Hs; [ reflexivity | ].
  cbn [major_loop]. unfold TODAY.
  rewrite (fetch_page_same_at _ _ _ key url Hs (or_introl eq_refl)).
  rewrite (IH (same_at_tail _ _ _ _ Hs)). now rewrite (proj1 Hs).
Qed.

Lemma hamkorbank_loop_same_at urls w w' :
  same_at urls w w' ->
  hamkorbank_loop upper w urls = hamkorbank_loop upper w' urls.
Proof.
  induction urls as [ | url urls IH ]; intros Hs; [ reflexivity | ].
  cbn [hamkorbank_loop]. unfold TODAY.
  rewrite (fetch_page_same_at _ _ _ (lit "hamkorbank") url Hs
             (or_introl eq_refl)).
  rewrite (IH (same_at_tail _ _ _ _ Hs)). now rewrite (proj1 Hs).
Qed.

Lemma kapitalbank_loop_same_at urls w w' last :
  same_at urls w w' ->
  kapitalbank_loop upper w urls last = kapitalbank_loop upper w' urls last.
Proof.
  revert last. induction urls as [ | url urls IH ]; intros last Hs;
    [ reflexivity | ].
  cbn [kapitalbank_loop]. unfold TODAY.
  rewrite (fetch_page_same_at _ _ _ (lit "kapitalbank") url Hs
             (or_introl eq_refl)).
  rewrite (proj1 Hs).
  destruct (fetch_page w' (lit "kapitalbank") url);
    [ | apply IH; exact (same_at_tail _ _ _ _ Hs) ].
  now rewrite (IH last (same_at_tail _ _ _ _ Hs)).
Qed.

(** What an adapter returns or raises depends on the pages at its own
    addresses only: the state of any other address, a bank's or the
    reference's, changes nothing to it. *)
Theorem adapter_reads_only_its_addresses (w w' : world) :
  (forall key urls fn,
      In (key, urls, fn) (major_three upper) -> same_at urls w w' ->
      fn w = fn w')
  /\ (same_at hamkorbank_urls w w' -> hamkorbank upper w = hamkorbank upper w')
  /\ (same_at kapitalbank_urls w w' ->
      kapitalbank upper w = kapitalbank upper w').
Proof.
  refine (conj _ (conj _ _)).
  - intros key urls fn Hin Hs.
    destruct (major_three_adapter _ _ _ _ Hin) as [bank_name ->].
    unfold major_adapter, TODAY.
    now rewrite (major_loop_same_at _ _ _ _ _ Hs), (proj1 Hs).
  - intros Hs. unfold hamkorbank, TODAY.
    now rewrite (hamkorbank_loop_same_at _ _ _ Hs), (proj1 Hs).
  - intros Hs. unfold kapitalbank, TODAY.
    now rewrite (kapitalbank_loop_same_at _ _ _ _ Hs), (proj1 Hs).
Qed.

End LocalityFacts.

(* ================================================================== *)
(** * The reference fallback and the orchestrator: properties *)
(* ================================================================== *)

Section ReferenceFacts.

Variable upper : str -> str.
Variable float_of : json -> option Q.

(** ** cbu_reference *)

Lemma cbu_reference_total w :
  exists o, cbu_reference upper float_of w = Return o.
Proof.
  unfold cbu_reference.
  destruct (cbu_reference_try upper float_of w) as [ [ br | ] | e ];
    eexists; reflexivity.
Qed.


Lemma wanted_of_rate d r :
  In r (wanted_of d) ->
  In (ccy r) MAJOR
  /\ exists v, dict_get d (ccy r) = Some v /\ buy r = Some v /\ sell r = Some v.
Proof.
  unfold wanted_of. rewrite in_flat_map. intros (c & Hc & Hr).
  destruct (dict_get d c) as [ v | ] eqn:E; [ | contradiction ].
  destruct Hr as [ <- | [] ]. cbn [ccy buy sell]. split; [ assumption | ].
  now exists v.
Qed.



(** A result of the fallback holds the Rates of the table read off the
    data. *)
Lemma cbu_reference_Some w br :
  cbu_reference upper float_of w = Return (Some br) ->
  exists data xs d,
    get_json w (cbu_url w) = Return data
    /\ iterate data = Return xs
    /\ reference_dict upper float_of xs [] = Return d
    /\ rates br = wanted_of d.
Proof.
  unfold cbu_reference, cbu_reference_try.
  destruct (get_json w (cbu_url w)) as [ data | e ] eqn:Hg; cbn [bind];
    [ | discriminate ].
  destruct (iterate data) as [ xs | e ] eqn:Hi; cbn [bind];
    [ | discriminate ].
  destruct (reference_dict upper float_of xs []) as [ d | e ] eqn:Hd;
    cbn [bind]; [ | discriminate ].
  destruct (wanted_of d) as [ | r0 rs ] eqn:Hw; [ discriminate | ].
  intros H. apply Return_inj in H.
  assert (Hbr : br = mkBankRates cbu_bank (TODAY w) (r0 :: rs) (cbu_url w)).
  { apply (f_equal (fun o => match o with Some b => b | None => br end)) in H.
    now symmetry. }
  subst br. cbn [rates]. rewrite <- Hw.
  exists data, xs, d. repeat split; assumption.
Qed.


End ReferenceFacts.

(** ** The reference data: what is refused *)

Section ReferenceMore.

Variable upper : str -> str.
Variable float_of : json -> option Q.

Lemma reads_or_refused x :
  (exists o, reads upper float_of x o) \/ refused float_of x.
Proof.
  destruct x as [ | b | q | s | l | fields ];
    try (right; apply refused_no_object; intros fields; discriminate).
  destruct (dict_get fields (lit "Ccy")) as [ c | ] eqn:Hc.
  2: { left. exists None. apply reads_skip. now rewrite Hc. }
  destruct (truthy c) eqn:Ht.
  2: { left. exists None. apply reads_skip. now rewrite Hc. }
  destruct c as [ | b | q | s | l | d ];
    try (right; eapply refused_code; [ exact Hc | exact Ht | ];
         intros s0; discriminate).
  assert (Hs : s <> []) by (intros ->; discriminate).
  destruct (dict_get fields (lit "Rate")) as [ r | ] eqn:Hr.
  2: { right. eapply refused_no_rate; eassumption. }
  destruct (float_of r) as [ v | ] eqn:Hv.
  - left. exists (Some (upper s, v)). eapply reads_rate; eassumption.
  - right. eapply refused_rate; eassumption.
Qed.

Lemma reference_dict_refused x xs d :
  refused float_of x ->
  exists e, reference_dict upper float_of (x :: xs) d = Raise e.
Proof.
  intros H. cbn [reference_dict].
  destruct H as [ x Hx | fields c Hc Ht Hs | fields s Hc Hs Hr
                | fields s r Hc Hs Hr Hv ].
  - destruct x as [ | b | q | s | l | fields ];
      try (eexists; reflexivity).
    now elim (Hx fields).
  - cbn [get bind subscript]. rewrite Hc, Ht. cbn [bind].
    destruct c as [ | b | q | s | l | d' ];
      try (eexists; reflexivity).
    now elim (Hs s).
  - cbn [get bind subscript]. rewrite Hc.
    assert (Ht : truthy (JStr s) = true) by now destruct s.
    rewrite Ht. cbn [bind upper_of]. rewrite Hr. eexists. reflexivity.
  - cbn [get bind subscript]. rewrite Hc.
    assert (Ht : truthy (JStr s) = true) by now destruct s.
    rewrite Ht. cbn [bind upper_of]. rewrite Hr. cbn [bind].
    unfold float_json. rewrite Hv. eexists. reflexivity.
Qed.

Lemma reference_dict_Exists xs d :
  Exists (refused float_of) xs ->
  exists e, reference_dict upper float_of xs d = Raise e.
Proof.
  intros H. revert d. induction H as [ x xs Hx | x xs _ IH ]; intros d.
  - now apply reference_dict_refused.
  - destruct (reads_or_refused x) as [ [o Ho] | Hx ];
      [ | now apply reference_dict_refused ].
    assert (Hstep : reference_dict upper float_of (x :: xs) d
                    = reference_dict upper float_of xs
                        (table_of (not_none [o]) d)).
    { cbn [reference_dict].
      destruct Ho as [ fields Hf | fields s r v Hc Hs Hr Hv ].
      - cbn [get bind]. now rewrite Hf.
      - cbn [get bind subscript]. rewrite Hc.
        assert (Ht : truthy (JStr s) = true) by now destruct s.
        rewrite Ht. cbn [bind upper_of]. rewrite Hr. cbn [bind].
        unfold float_json. now rewrite Hv. }
    rewrite Hstep. apply IH.
Qed.

(** One element of the reference data that cannot be read makes the whole
    fallback come back with nothing, wherever it stands in the list and
    whatever its currency: the rates of USD, EUR and RUB are lost with
    it. *)
Theorem one_refused_element_voids_the_reference (w : world)
        (xs : list json) :
  get_json w (cbu_url w) = Return (JList xs) ->
  Exists (refused float_of) xs ->
  cbu_reference upper float_of w = Return None.
Proof.
  intros Hg Hx. unfold cbu_reference, cbu_reference_try.
  rewrite Hg. cbn [bind iterate].
  destruct (reference_dict_Exists xs [] Hx) as [e ->]. reflexivity.
Qed.

(** Reference data that is not a list gives nothing: another JSON value
    cannot be iterated, or is iterated into texts, which are no objects. *)
Theorem reference_data_must_be_a_list (w : world) (data : json) :
  get_json w (cbu_url w) = Return data ->
  (forall xs, data <> JList xs) ->
  cbu_reference upper float_of w = Return None.
Proof.
  intros Hg Hl. unfold cbu_reference, cbu_reference_try.
  rewrite Hg. cbn [bind].
  destruct data as [ | b | q | s | l | d ]; try reflexivity.
  - cbn [iterate bind]. destruct s as [ | c s ]; reflexivity.
  - now elim (Hl l).
  - cbn [iterate bind]. destruct d as [ | kv d ]; reflexivity.
Qed.

Lemma cbu_reference_meta w br :
  cbu_reference upper float_of w = Return (Some br) ->
  bank br = cbu_bank /\ date br = TODAY w /\ source_url br = cbu_url w
  /\ rates br <> [].
Proof.
  unfold cbu_reference, cbu_reference_try.
  destruct (get_json w (cbu_url w)) as [ data | e ]; cbn [bind];
    [ | discriminate ].
  destruct (iterate data) as [ xs | e ]; cbn [bind]; [ | discriminate ].
  destruct (reference_dict upper float_of xs []) as [ d | e ];
    cbn [bind]; [ | discriminate ].
  destruct (wanted_of d) as [ | r0 rs ]; [ discriminate | ].
  intros H. apply Return_inj in H.
  assert (Hbr : br = mkBankRates cbu_bank (TODAY w) (r0 :: rs) (cbu_url w)).
  { apply (f_equal (fun o => match o with Some b => b | None => br end)) in H.
    now symmetry. }
  subst br. cbn [bank date source_url rates].
  repeat split. discriminate.
Qed.

End ReferenceMore.

Lemma MAJOR_CCYS c : In c MAJOR -> In c CCYS.
Proof.
  unfold MAJOR, CCYS. cbn [In].
  intros [ <- | [ <- | [ <- | [] ] ] ]; tauto.
Qed.

Section MainFacts.

Variable upper : str -> str.
Variable float_of : json -> option Q.
Variable isalpha_char : N -> bool.
Variable dump_item : json -> str.

(** ** The adapters' results *)

Lemma adapter_rates fn w br :
  In fn (ADAPTERS upper) -> call fn w = Return br ->
  forall r, In r (rates br) -> In (ccy r) MAJOR /\ complete r.
Proof.
  unfold ADAPTERS. cbn [In].
  intros [ <- | [ <- | [ <- | [ <- | [ <- | [] ] ] ] ] ]; cbn [call];
    intros Hfn r Hr.
  - destruct (hamkorbank_Return _ _ _ Hfn)
      as [ (H & _) | (page & _ & _ & H & _) ]; rewrite H in Hr;
      [ contradiction | ].
    apply kept_last in Hr as (Hl & Hm). split; [ assumption | ].
    pose proof (last_with_spec (ccy r) (hamkorbank_row_rates upper (tables page)))
      as Hs. rewrite Hl in Hs. destruct Hs as (_ & Hin & _).
    exact (proj2 (hamkorbank_row_rates_rate _ _ _ Hin)).
  - destruct (major_adapter_Return _ _ _ _ _ _ Hfn)
      as [ (H & _) | (page & _ & _ & H & _) ]; rewrite H in Hr;
      [ contradiction | ].
    apply kept_last in Hr as (Hl & Hm). split; [ assumption | ].
    pose proof (last_with_spec (ccy r) (row_rates upper (trs page))) as Hs.
    rewrite Hl in Hs. destruct Hs as (_ & Hin & _).
    exact (proj2 (row_rates_rate _ _ _ Hin)).
  - destruct (kapitalbank_Return _ _ _ Hfn)
      as [ (H & _) | (page & _ & _ & H & _) ]; rewrite H in Hr;
      [ contradiction | ].
    apply (Permutation_in r (sorted_perm Rate ccy _)) in Hr.
    unfold kapitalbank_scan in Hr. apply in_map_iff in Hr as (item & <- & Hi).
    split.
    + rewrite kapitalbank_mean_ccy.
      assert (Hk : In (fst item)
                      (map fst (bag_of (row_rates upper (trs page)) []))).
      { rewrite <- kapitalbank_bag. now apply in_map. }
      apply bag_of_keys in Hk as [ [] | (x & Hx & <-) ].
      exact (proj1 (row_rates_rate _ _ _ Hx)).
    + destruct item as [c arr]. eexists _, _. split; reflexivity.
  - destruct (major_adapter_Return _ _ _ _ _ _ Hfn)
      as [ (H & _) | (page & _ & _ & H & _) ]; rewrite H in Hr;
      [ contradiction | ].
    apply kept_last in Hr as (Hl & Hm). split; [ assumption | ].
    pose proof (last_with_spec (ccy r) (row_rates upper (trs page))) as Hs.
    rewrite Hl in Hs. destruct Hs as (_ & Hin & _).
    exact (proj2 (row_rates_rate _ _ _ Hin)).
  - destruct (major_adapter_Return _ _ _ _ _ _ Hfn)
      as [ (H & _) | (page & _ & _ & H & _) ]; rewrite H in Hr;
      [ contradiction | ].
    apply kept_last in Hr as (Hl & Hm). split; [ assumption | ].
    pose proof (last_with_spec (ccy r) (row_rates upper (trs page))) as Hs.
    rewrite Hl in Hs. destruct Hs as (_ & Hin & _).
    exact (proj2 (row_rates_rate _ _ _ Hin)).
Qed.

(** ** The loop of [main] *)

Lemma main_step_yield w out log fn :
  main_step w (out, log) fn = (out ++ yield w fn, log ++ [Called (name fn)]).
Proof.
  unfold main_step, yield.
  destruct (call fn w) as [ br | e ]; [ | now rewrite app_nil_r ].
  destruct (rates br); [ now rewrite app_nil_r | reflexivity ].
Qed.

Lemma main_loop w fns out log :
  fold_left (main_step w) fns (out, log)
  = (out ++ flat_map (yield w) fns, log ++ map Called (map name fns)).
Proof.
  revert out log. induction fns as [ | fn fns IH ]; intros out log.
  - cbn. now rewrite !app_nil_r.
  - cbn [fold_left flat_map map]. rewrite main_step_yield, IH.
    now rewrite <- !app_assoc.
Qed.

Lemma yield_nil w fn :
  yield w fn = []
  <-> (exists e, call fn w = Raise e)
      \/ (exists br, call fn w = Return br /\ rates br = []).
Proof.
  unfold yield. destruct (call fn w) as [ br | e ].
  - destruct (rates br) eqn:E; split; eauto; try discriminate.
    intros [ (e & He) | (b & Hb & Hr) ]; [ discriminate | ].
    apply Return_inj in Hb. subst b. congruence.
  - split; eauto.
Qed.

Lemma flat_map_nil (A B : Type) (f : A -> list B) l :
  flat_map f l = [] <-> forall x, In x l -> f x = [].
Proof.
  induction l as [ | a l IH ]; cbn [flat_map In].
  - tauto.
  - split.
    + intros H. apply app_eq_nil in H as [Ha Hl].
      intros x [ <- | Hx ]; [ assumption | now apply IH ].
    + intros H. rewrite (H a (or_introl eq_refl)).
      apply IH. intros x Hx. apply H. now right.
Qed.

Local Abbreviation used_here := (used upper isalpha_char).
Local Abbreviation main_here := (main upper float_of isalpha_char dump_item).
Local Abbreviation main_out_here := (main_out upper float_of isalpha_char).

Lemma main_out_eq w :
  main_out_here w
  = let out := flat_map (yield w) (used_here w) in
    let log := map Called (map name (used_here w)) in
    match out with
    | [] =>
      match cbu_reference upper float_of w with
      | Return (Some r) => Return ([entry r], log ++ [CalledReference])
      | Return None => Return ([], log ++ [CalledReference])
      | Raise e => Raise e
      end
    | _ => Return (out, log)
    end.
Proof.
  unfold main_out. rewrite main_loop. cbn [app].
  cbv zeta. destruct (flat_map _ _); [ | reflexivity ].
  destruct (cbu_reference upper float_of w) as [ [ r | ] | e ]; reflexivity.
Qed.

Lemma In_Called_names ev names :
  In ev (map Called names) -> ev <> CalledReference.
Proof.
  intros H. apply in_map_iff in H as (n & <- & _). discriminate.
Qed.

(** C8: nothing is collected exactly when every adapter that was run
    raised or returned no rates; [main] always returns; it calls the
    reference fallback exactly when nothing was collected, after the
    adapters and before the write; and when the fallback gives nothing
    either, the file holds the empty JSON array. *)
Theorem fallback_when_nothing_collected (w : world) :
  let out := flat_map (yield w) (used_here w) in
  let called := map Called (map name (used_here w)) in
  (out = []
   <-> forall fn, In fn (used_here w) ->
                  (exists e, call fn w = Raise e)
                  \/ (exists br, call fn w = Return br /\ rates br = []))
  /\ (exists evs, main_here w = Return evs)
  /\ (forall evs, main_here w = Return evs ->
                  (In CalledReference evs <-> out = [])
                  /\ exists doc,
                      evs = called
                            ++ (match out with
                                | [] => [CalledReference]
                                | _ => []
                                end)
                            ++ [Wrote rates_json (json_dump dump_item doc)])
  /\ (out = [] -> cbu_reference upper float_of w = Return None ->
      main_here w
      = Return (called ++ [CalledReference; Wrote rates_json (lit "[]")])).
Proof.
  intros out called.
  assert (Hmain : main_here w
                  = bind (main_out_here w) (fun st =>
                    Return (snd st ++ [Wrote rates_json
                                             (json_dump dump_item (fst st))])))
    by reflexivity.
  pose proof (main_out_eq w) as Hout. cbv zeta in Hout.
  fold out called in Hout.
  destruct (cbu_reference_total upper float_of w) as [ref Href].
  rewrite Href in Hout.
  split.
  { unfold out. rewrite flat_map_nil. split; intros H fn Hfn;
      apply yield_nil; auto. }
  assert (Hevs : exists doc,
             main_here w
             = Return (called
                       ++ (match out with
                           | [] => [CalledReference]
                           | _ => []
                           end)
                       ++ [Wrote rates_json (json_dump dump_item doc)])).
  { rewrite Hmain, Hout. destruct out as [ | o out' ].
    - destruct ref as [ r | ]; cbn [bind fst snd]; eexists;
        rewrite <- app_assoc; reflexivity.
    - cbn [bind fst snd app]. eexists. reflexivity. }
  split; [ destruct Hevs as [doc ->]; eauto | ].
  split.
  - intros evs Hev. destruct Hevs as [doc Hdoc].
    rewrite Hdoc in Hev. apply Return_inj in Hev. subst evs.
    split; [ | now exists doc ].
    rewrite !in_app_iff. destruct out as [ | o out' ]; cbn [In]; split.
    + reflexivity.
    + intros _. right. left. now left.
    + intros [ H | [ [] | [ H | [] ] ] ]; [ | discriminate ].
      now apply In_Called_names in H.
    + discriminate.
  - intros Ho Hr. rewrite Hmain, Hout, Ho.
    rewrite Hr in Href. apply Return_inj in Href. subst ref.
    cbn [bind fst snd json_dump]. now rewrite <- app_assoc.
Qed.

(** C10: every Rate of every entry written has a currency of the
    allow-list and both its prices, the reference entry's too; and every
    Rate an adapter returns has both its prices. *)
Theorem rates_well_formed (w : world) :
  (forall out log e,
      main_out_here w = Return (out, log) -> In e out ->
      exists br,
        e = entry br
        /\ forall r, In r (rates br) -> In (ccy r) CCYS /\ complete r)
  /\ (forall fn br,
         In fn (ADAPTERS upper) -> call fn w = Return br ->
         forall r, In r (rates br) -> complete r).
Proof.
  split.
  - intros out log e Hm He. rewrite main_out_eq in Hm. cbv zeta in Hm.
    assert (Hy : forall e, In e (flat_map (yield w) (used_here w)) ->
                           exists br,
                             e = entry br
                             /\ forall r, In r (rates br) ->
                                          In (ccy r) CCYS /\ complete r).
    { intros e0 H0. apply in_flat_map in H0 as (fn & Hfn & Hy).
      unfold used in Hfn. apply filter_In in Hfn as [Hfn _].
      unfold yield in Hy. destruct (call fn w) as [ br | ] eqn:Hc;
        [ | contradiction ].
      destruct (rates br) as [ | r0 rs ] eqn:Hr; [ contradiction | ].
      destruct Hy as [ <- | [] ]. exists br. split; [ reflexivity | ].
      intros r Hin.
      destruct (adapter_rates _ _ _ Hfn Hc r Hin) as [H1 H2].
      split; [ now apply MAJOR_CCYS | assumption ]. }
    destruct (flat_map (yield w) (used_here w)) as [ | o os ] eqn:Ho.
    + destruct (cbu_reference upper float_of w) as [ [ ref | ] | x ] eqn:Hc;
        try discriminate; apply Return_inj in Hm;
        apply (f_equal fst) in Hm; cbn [fst] in Hm; subst out;
        [ | contradiction ].
      destruct He as [ <- | [] ]. exists ref. split; [ reflexivity | ].
      destruct (cbu_reference_Some upper float_of w ref Hc)
        as (data & xs & d & _ & _ & _ & Hw).
      intros r Hin. rewrite Hw in Hin.
      destruct (wanted_of_rate d r Hin) as (H1 & v & _ & H2 & H3).
      split; [ now apply MAJOR_CCYS | now exists v, v ].
    + apply Return_inj in Hm. apply (f_equal fst) in Hm. cbn [fst] in Hm.
      subst out. now apply Hy.
  - intros fn br Hfn Hc r Hr.
    exact (proj2 (adapter_rates _ _ _ Hfn Hc r Hr)).
Qed.

(** ** The command line *)

Lemma used_all w :
  ONLY isalpha_char w = None -> map name (used_here w) = all_names.
Proof.
  intros H. unfold used. rewrite H. reflexivity.
Qed.

Lemma isalpha_tbc : isalpha_char 95 = false ->
  isalpha isalpha_char (lit "tbc_bank_uz") = false.
Proof.
  intros H. unfold isalpha.
  change (lit "tbc_bank_uz")
    with [116; 98; 99; 95; 98; 97; 110; 107; 95; 117; 122]%N.
  cbn [forallb]. rewrite H. now rewrite !andb_false_r.
Qed.

(** C9, where it fails: naming [tbc_bank_uz] selects nothing, and all five
    adapters run. *)
Theorem tbc_bank_uz_not_selected (w : world) :
  isalpha_char 95 = false ->
  tl (argv w) = [lit "tbc_bank_uz"] ->
  ONLY isalpha_char w = None /\ map name (used_here w) = all_names.
Proof.
  intros Hus Hargv.
  assert (Ho : ONLY isalpha_char w = None).
  { unfold ONLY. rewrite Hargv. cbn [find].
    now rewrite (isalpha_tbc Hus). }
  split; [ assumption | now apply used_all ].
Qed.

Lemma filter_map_name (p : str -> bool) (l : list adapter) :
  map name (filter (fun fn => p (name fn)) l) = filter p (map name l).
Proof.
  induction l as [ | fn l IH ]; [ reflexivity | ]. cbn [filter map].
  destruct (p (name fn)); cbn [map]; now rewrite IH.
Qed.

Lemma used_names w :
  map name (used_here w)
  = match ONLY isalpha_char w with
    | None => all_names
    | Some only => filter (fun n => str_eqb n only) all_names
    end.
Proof.
  unfold used. destruct (ONLY isalpha_char w) as [ only | ].
  - exact (filter_map_name (fun n => str_eqb n only) (ADAPTERS upper)).
  - reflexivity.
Qed.

(** C9, without a name: when no argument is a word other than [--debug],
    the five adapters run, in the order of [ADAPTERS]. *)
Theorem all_adapters_by_default w :
  Forall (fun arg => isalpha isalpha_char arg = false \/ arg = lit "--debug")
         (tl (argv w)) ->
  ONLY isalpha_char w = None
  /\ map name (used_here w)
     = map lit ["hamkorbank"; "agrobank"; "kapitalbank"; "ipakyulibank";
                "tbc_bank_uz"]%string.
Proof.
  intros H.
  assert (Ho : ONLY isalpha_char w = None).
  { unfold ONLY. induction H as [ | arg args Ha _ IH ]; [ reflexivity | ].
    cbn [find]. destruct Ha as [ -> | -> ].
    - exact IH.
    - rewrite str_eqb_refl. cbn [negb]. rewrite andb_false_r. exact IH. }
  split; [ assumption | ]. rewrite used_names, Ho. reflexivity.
Qed.

(** C9, the four names that are words: as the first argument each selects
    its adapter alone. *)
Theorem word_selects_its_adapter w n rest :
  In n word_names -> isalpha isalpha_char n = true ->
  tl (argv w) = n :: rest ->
  ONLY isalpha_char w = Some n /\ map name (used_here w) = [n].
Proof.
  intros Hn Ha Hargv.
  assert (Hd : str_eqb n (lit "--debug") = false
               /\ filter (fun m => str_eqb m n) all_names = [n]).
  { unfold word_names in Hn. cbn [map In] in Hn.
    destruct Hn as [ <- | [ <- | [ <- | [ <- | [] ] ] ] ];
      split; vm_compute; reflexivity. }
  destruct Hd as [Hd Hf].
  assert (Ho : ONLY isalpha_char w = Some n).
  { unfold ONLY. rewrite Hargv. cbn [find]. rewrite Ha, Hd. reflexivity. }
  split; [ assumption | ]. rewrite used_names, Ho. exact Hf.
Qed.

(** C9, the fifth name: whatever the command line, [tbc_bank_uz] runs only
    when all five adapters do, as [str.isalpha] is false of a text with an
    underscore. *)
Theorem tbc_bank_uz_only_with_all w :
  isalpha_char 95 = false ->
  In (lit "tbc_bank_uz") (map name (used_here w)) ->
  ONLY isalpha_char w = None /\ map name (used_here w) = all_names.
Proof.
  intros Hus. rewrite used_names.
  destruct (ONLY isalpha_char w) as [ only | ] eqn:Ho; [ | now split ].
  intros Hin. apply filter_In in Hin as [_ He].
  apply str_eqb_eq in He. subst only.
  unfold ONLY in Ho. apply find_some in Ho as [_ Ho].
  apply andb_true_iff in Ho as [Ha _].
  rewrite (isalpha_tbc Hus) in Ha. discriminate.
Qed.

End MainFacts.

(** ** Debug files *)

Section DebugFacts.

Variable upper : str -> str.
Variable float_of : json -> option Q.
Variable isalpha_char : N -> bool.
Variable dump_item : json -> str.

Local Abbreviation used_here := (used upper isalpha_char).
Local Abbreviation main_here := (main upper float_of isalpha_char dump_item).
Local Abbreviation main_out_here := (main_out upper float_of isalpha_char).

Lemma fetch_page_quiet w w' key url :
  DEBUG w = false -> same_but_debug_files w w' ->
  fetch_page w key url = fetch_page w' key url.
Proof.
  intros Hd (_ & Ha & Hf & _). unfold fetch_page, save_debug.
  assert (Hd' : DEBUG w' = false) by (unfold DEBUG in *; now rewrite <- Ha).
  rewrite Hd, Hd', Hf. reflexivity.
Qed.

Section SamePages.
Variables w w' : world.
Hypothesis Htoday : today w = today w'.
Hypothesis Hpages : forall key url, fetch_page w key url = fetch_page w' key url.

Lemma major_loop_same bank_name key urls :
  major_loop upper bank_name key w urls
  = major_loop upper bank_name key w' urls.
Proof.
  induction urls as [ | url urls IH ]; [ reflexivity | ].
  cbn [major_loop]. unfold TODAY. now rewrite Hpages, IH, Htoday.
Qed.

Lemma hamkorbank_loop_same urls :
  hamkorbank_loop upper w urls = hamkorbank_loop upper w' urls.
Proof.
  induction urls as [ | url urls IH ]; [ reflexivity | ].
  cbn [hamkorbank_loop]. unfold TODAY. now rewrite Hpages, IH, Htoday.
Qed.

Lemma kapitalbank_loop_same urls last :
  kapitalbank_loop upper w urls last = kapitalbank_loop upper w' urls last.
Proof.
  revert last. induction urls as [ | url urls IH ]; intros last;
    [ reflexivity | ].
  cbn [kapitalbank_loop]. unfold TODAY. rewrite Hpages, Htoday.
  destruct (fetch_page w' (lit "kapitalbank") url); [ | apply IH ].
  now rewrite IH.
Qed.

Lemma adapters_same fn :
  In fn (ADAPTERS upper) -> call fn w = call fn w'.
Proof.
  unfold ADAPTERS. cbn [In].
  intros [ <- | [ <- | [ <- | [ <- | [ <- | [] ] ] ] ] ]; cbn [call].
  - unfold hamkorbank, TODAY. now rewrite hamkorbank_loop_same, Htoday.
  - unfold agrobank, major_adapter, TODAY.
    now rewrite major_loop_same, Htoday.
  - unfold kapitalbank, TODAY. now rewrite kapitalbank_loop_same, Htoday.
  - unfold ipakyulibank, major_adapter, TODAY.
    now rewrite major_loop_same, Htoday.
  - unfold tbc_bank_uz, major_adapter, TODAY.
    now rewrite major_loop_same, Htoday.
Qed.
End SamePages.

Lemma used_ADAPTERS w fn : In fn (used_here w) -> In fn (ADAPTERS upper).
Proof. unfold used. intros H. now apply filter_In in H as [H _]. Qed.

Lemma flat_map_same (A B : Type) (f g : A -> list B) l :
  (forall x, In x l -> f x = g x) -> flat_map f l = flat_map g l.
Proof.
  induction l as [ | x l IH ]; intros H; [ reflexivity | ].
  cbn [flat_map]. rewrite (H x (or_introl eq_refl)), IH; [ reflexivity | ].
  intros y Hy. apply H. now right.
Qed.

(** Without [--debug] no debug file is written: the run is the same
    whatever writing one would have done. *)
Theorem no_debug_files_without_flag (w w' : world) :
  DEBUG w = false -> same_but_debug_files w w' ->
  main_here w = main_here w'.
Proof.
  intros Hd Hs. pose proof Hs as (Ht & Ha & Hf & Hj).
  assert (Hu : used_here w = used_here w').
  { unfold used, ONLY. now rewrite Ha. }
  assert (Hy : flat_map (yield w) (used_here w)
               = flat_map (yield w') (used_here w')).
  { rewrite <- Hu. apply flat_map_same. intros fn Hfn. unfold yield.
    rewrite (adapters_same w w' Ht
               (fun key url => fetch_page_quiet w w' key url Hd Hs) fn);
      [ reflexivity | ].
    exact (used_ADAPTERS _ _ Hfn). }
  assert (Hr : cbu_reference upper float_of w = cbu_reference upper float_of w').
  { unfold cbu_reference, cbu_reference_try, cbu_url, TODAY.
    now rewrite Ht, Hj. }
  unfold main. rewrite !main_out_eq. cbv zeta. now rewrite Hy, Hr, Hu.
Qed.

End DebugFacts.

Section OrchestratorFacts.

Variable upper : str -> str.
Variable float_of : json -> option Q.
Variable isalpha_char : N -> bool.
Variable dump_item : json -> str.

Local Abbreviation used_here := (used upper isalpha_char).
Local Abbreviation main_here := (main upper float_of isalpha_char dump_item).
Local Abbreviation main_out_here := (main_out upper float_of isalpha_char).

Lemma main_of_nothing w :
  flat_map (yield w) (used_here w) = [] ->
  main_here w
  = Return (map Called (map name (used_here w))
            ++ [CalledReference;
                Wrote rates_json
                      (json_dump dump_item (reference_doc upper float_of w))]).
Proof.
  intros Ho. unfold main. rewrite main_out_eq. cbv zeta. rewrite Ho.
  unfold reference_doc.
  destruct (cbu_reference_total upper float_of w) as [o Hc]. rewrite Hc.
  destruct o as [ ref | ]; cbn [bind fst snd]; now rewrite <- app_assoc.
Qed.

(** ** A failing debug directory *)

Lemma fetch_page_debug_fails w key url :
  DEBUG w = true ->
  (forall bank_key html, exists e, write_debug w bank_key html = Raise e) ->
  exists e, fetch_page w key url = Raise e.
Proof.
  intros Hd Hw. unfold fetch_page, save_debug. rewrite Hd. cbn [negb].
  destruct (fetch_html w url) as [ sh | e ]; cbn [bind]; [ | now exists e ].
  destruct (Hw key (snd sh)) as [e He]. rewrite He. now exists e.
Qed.

Lemma yield_when_pages_raise w fn :
  (forall key url, exists e, fetch_page w key url = Raise e) ->
  In fn (ADAPTERS upper) -> yield w fn = [].
Proof.
  intros Hp. unfold ADAPTERS. cbn [In].
  intros [ <- | [ <- | [ <- | [ <- | [ <- | [] ] ] ] ] ];
    unfold yield; cbn [call].
  - unfold hamkorbank. now rewrite hamkorbank_loop_raise by (intros; apply Hp).
  - unfold agrobank, major_adapter.
    now rewrite major_loop_raise by (intros; apply Hp).
  - unfold kapitalbank.
    destruct (kapitalbank_loop_raise upper w kapitalbank_urls None)
      as (e & -> & _); [ intros; apply Hp | ].
    now destruct e.
  - unfold ipakyulibank, major_adapter.
    now rewrite major_loop_raise by (intros; apply Hp).
  - unfold tbc_bank_uz, major_adapter.
    now rewrite major_loop_raise by (intros; apply Hp).
Qed.

(** With [--debug], when the debug files cannot be written, every page
    fetched is lost with the exception of the write: no adapter gives a
    rate, and the file holds the reference entry or nothing. *)
Theorem failing_debug_files_lose_the_pages (w : world) :
  DEBUG w = true ->
  (forall bank_key html, exists e, write_debug w bank_key html = Raise e) ->
  (forall fn, In fn (ADAPTERS upper) -> yield w fn = [])
  /\ main_here w
     = Return (map Called (map name (used_here w))
               ++ [CalledReference;
                   Wrote rates_json
                         (json_dump dump_item
                                    (reference_doc upper float_of w))]).
Proof.
  intros Hd Hw.
  assert (Hp : forall key url, exists e, fetch_page w key url = Raise e).
  { intros key url. now apply fetch_page_debug_fails. }
  assert (Hy : forall fn, In fn (ADAPTERS upper) -> yield w fn = []).
  { intros fn Hfn. now apply yield_when_pages_raise. }
  split; [ exact Hy | ].
  apply main_of_nothing. apply flat_map_nil. intros fn Hfn.
  apply Hy. unfold used in Hfn. now apply filter_In in Hfn as [Hfn _].
Qed.

(** ** Names that are no adapter's *)

(** A word on the command line that is no adapter's [__name__] (one in
    capitals, say) runs no adapter at all: the reference is asked and the
    file holds its entry or nothing. *)
Theorem unknown_name_runs_nothing (w : world) (n : str) :
  ONLY isalpha_char w = Some n -> ~ In n all_names ->
  used_here w = []
  /\ main_here w
     = Return [CalledReference;
               Wrote rates_json
                     (json_dump dump_item (reference_doc upper float_of w))].
Proof.
  intros Ho Hn.
  assert (Hu : used_here w = []).
  { apply map_eq_nil with (f := name). rewrite used_names, Ho.
    destruct (filter (fun m => str_eqb m n) all_names) as [ | m l ] eqn:E;
      [ reflexivity | exfalso ].
    assert (Hm : In m (filter (fun m => str_eqb m n) all_names))
      by (rewrite E; now left).
    apply filter_In in Hm as [Hm He]. apply str_eqb_eq in He. now subst m. }
  split; [ exact Hu | ].
  rewrite main_of_nothing by (now rewrite Hu). now rewrite Hu.
Qed.

(** ** The place of [--debug] *)

Lemma isalpha_debug :
  isalpha_char 45 = false -> isalpha isalpha_char (lit "--debug") = false.
Proof.
  intros H. unfold isalpha.
  change (lit "--debug") with [45; 45; 100; 101; 98; 117; 103]%N.
  cbn [forallb]. now rewrite H.
Qed.

Lemma ONLY_first_word w :
  isalpha_char 45 = false ->
  ONLY isalpha_char w = find (isalpha isalpha_char) (tl (argv w)).
Proof.
  intros H. unfold ONLY.
  induction (tl (argv w)) as [ | arg args IH ]; [ reflexivity | ].
  cbn [find]. rewrite IH.
  destruct (str_eqb arg (lit "--debug")) eqn:E.
  - apply str_eqb_eq in E. subst arg. rewrite (isalpha_debug H). reflexivity.
  - cbn [negb]. now rewrite andb_true_r.
Qed.

Lemma find_app (A : Type) (p : A -> bool) l1 l2 :
  find p (l1 ++ l2) = match find p l1 with
                      | Some x => Some x
                      | None => find p l2
                      end.
Proof.
  induction l1 as [ | x l1 IH ]; [ reflexivity | ].
  cbn [app find]. now destruct (p x).
Qed.

(** [ONLY] is the first argument that is a word, the test against
    [--debug] never deciding anything, and the flag may stand anywhere
    among the arguments: before or after the name it leaves the choice of
    adapters as it is. *)
Theorem debug_flag_anywhere (w w' : world) (pre post : list str) :
  isalpha_char 45 = false ->
  tl (argv w) = pre ++ lit "--debug" :: post ->
  tl (argv w') = pre ++ post ->
  DEBUG w = true
  /\ ONLY isalpha_char w = find (isalpha isalpha_char) (pre ++ post)
  /\ ONLY isalpha_char w = ONLY isalpha_char w'
  /\ used_here w = used_here w'.
Proof.
  intros H Hw Hw'.
  assert (Hd : DEBUG w = true).
  { unfold DEBUG, mem. destruct (argv w) as [ | a0 args ];
      [ now destruct pre | ].
    cbn [tl] in Hw. subst args. cbn [existsb].
    rewrite existsb_app. cbn [existsb]. rewrite str_eqb_refl.
    now rewrite orb_true_r, orb_true_r. }
  assert (Ho : ONLY isalpha_char w = find (isalpha isalpha_char) (pre ++ post)).
  { rewrite (ONLY_first_word w H), Hw, !find_app. cbn [find].
    now rewrite (isalpha_debug H). }
  assert (Ho' : ONLY isalpha_char w = ONLY isalpha_char w').
  { now rewrite Ho, (ONLY_first_word w' H), Hw'. }
  refine (conj Hd (conj Ho (conj Ho' _))).
  unfold used. now rewrite Ho'.
Qed.

End OrchestratorFacts.

(** ** The document *)

Lemma subseq_app (A : Type) (a a' b b' : list A) :
  subseq a a' -> subseq b b' -> subseq (a ++ b) (a' ++ b').
Proof.
  intros Ha Hb. induction Ha as [ | x a a' _ IH | x a a' _ IH ]; cbn [app].
  - exact Hb.
  - now apply subseq_skip.
  - now apply subseq_keep.
Qed.

Lemma subseq_one (A : Type) (x : A) (l : list A) :
  l = [] \/ l = [x] -> subseq l [x].
Proof.
  intros [ -> | -> ]; [ apply subseq_skip | apply subseq_keep ];
    apply subseq_nil.
Qed.

Section DocumentFacts.

Variable upper : str -> str.
Variable float_of : json -> option Q.
Variable isalpha_char : N -> bool.

Local Abbreviation used_here := (used upper isalpha_char).
Local Abbreviation main_out_here := (main_out upper float_of isalpha_char).

Lemma yield_collected w fn : yield w fn = map entry (collected w fn).
Proof.
  unfold yield, collected. destruct (call fn w) as [ br | e ]; [ | reflexivity ].
  now destruct (rates br).
Qed.

Lemma flat_map_yield w fns :
  flat_map (yield w) fns = map entry (flat_map (collected w) fns).
Proof.
  induction fns as [ | fn fns IH ]; [ reflexivity | ].
  cbn [flat_map]. now rewrite map_app, IH, yield_collected.
Qed.

Lemma collected_rates w fn br :
  In br (collected w fn) -> call fn w = Return br /\ rates br <> [].
Proof.
  unfold collected. destruct (call fn w) as [ br' | e ]; [ | contradiction ].
  destruct (rates br') as [ | r rs ] eqn:E; [ contradiction | ].
  intros [ <- | [] ]. split; [ reflexivity | ]. rewrite E. discriminate.
Qed.

Lemma flat_map_filter (A B : Type) (f : A -> list B) (p : A -> bool) l :
  flat_map f (filter p l) = flat_map (fun x => if p x then f x else []) l.
Proof.
  induction l as [ | x l IH ]; [ reflexivity | ].
  cbn [filter flat_map]. destruct (p x); cbn [flat_map app]; now rewrite IH.
Qed.

Lemma collected_bank w fn b urls :
  (forall br, call fn w = Return br -> well_formed b (TODAY w) urls br) ->
  forall keep : bool,
    map bank (if keep then collected w fn else []) = []
    \/ map bank (if keep then collected w fn else []) = [b].
Proof.
  intros H [ | ]; [ | now left ].
  unfold collected. destruct (call fn w) as [ br | e ] eqn:E; [ | now left ].
  destruct (rates br); [ now left | right ].
  cbn [map]. now rewrite (proj1 (H br eq_refl)).
Qed.

(** Every entry [main] writes has rates and the day of the run; the
    banks come in the order of [ADAPTERS], each at most once; and the
    reference entry comes alone, never beside a bank's. *)
Theorem document_entries (w : world) (out : list json) (log : list event) :
  main_out_here w = Return (out, log) ->
  exists brs,
    out = map entry brs
    /\ Forall (fun br => rates br <> [] /\ date br = TODAY w) brs
    /\ (subseq (map bank brs) bank_names
        \/ exists ref,
            brs = [ref] /\ bank ref = cbu_bank
            /\ cbu_reference upper float_of w = Return (Some ref)).
Proof.
  rewrite main_out_eq. cbv zeta. rewrite flat_map_yield.
  set (brs := flat_map (collected w) (used_here w)).
  assert (Hall : Forall (fun br => rates br <> [] /\ date br = TODAY w) brs).
  { apply Forall_forall. intros br Hbr. unfold brs in Hbr.
    apply in_flat_map in Hbr as (fn & Hfn & Hbr).
    apply collected_rates in Hbr as [Hc Hr]. split; [ exact Hr | ].
    unfold used in Hfn. apply filter_In in Hfn as [Hfn _].
    exact (adapter_date upper w fn br Hfn Hc). }
  assert (Hsub : subseq (map bank brs) bank_names).
  { unfold brs, used. rewrite flat_map_filter. unfold ADAPTERS.
    cbn [flat_map call name]. rewrite !map_app. cbn [map].
    unfold bank_names. cbn [map].
    repeat (match goal with
            | |- subseq (?m ++ ?rest) (?n :: ?names) =>
              apply (subseq_app _ m [n] rest names)
            end; [ apply subseq_one | ]).
    6: apply subseq_nil.
    - apply (collected_bank w _ _ hamkorbank_urls).
      cbn [call]. apply hamkorbank_well_formed.
    - apply (collected_bank w _ _ agrobank_urls).
      cbn [call]. intros br. apply major_adapter_well_formed.
      unfold agrobank_urls. cbn [map]. discriminate.
    - apply (collected_bank w _ _ kapitalbank_urls).
      cbn [call]. apply kapitalbank_well_formed.
    - apply (collected_bank w _ _ ipakyulibank_urls).
      cbn [call]. intros br. apply major_adapter_well_formed.
      unfold ipakyulibank_urls. cbn [map]. discriminate.
    - apply (collected_bank w _ _ tbc_bank_uz_urls).
      cbn [call]. intros br. apply major_adapter_well_formed.
      unfold tbc_bank_uz_urls. cbn [map]. discriminate. }
  destruct brs as [ | br0 brs0 ] eqn:Hbrs; cbn [map].
  - destruct (cbu_reference upper float_of w) as [ [ ref | ] | e ] eqn:Hc;
      intros H; try discriminate; apply Return_inj in H;
      apply (f_equal fst) in H; cbn [fst] in H; subst out.
    + destruct (cbu_reference_meta upper float_of w ref Hc)
        as (Hb & Hd & _ & Hr).
      exists [ref]. split; [ reflexivity | ]. split.
      * constructor; [ now split | constructor ].
      * right. now exists ref.
    + exists []. split; [ reflexivity | ]. split; [ constructor | now left ].
  - intros H. apply Return_inj in H.
    apply (f_equal fst) in H; cbn [fst] in H; subst out.
    exists (br0 :: brs0). split; [ reflexivity | ]. split; [ exact Hall | ].
    now left.
Qed.

End DocumentFacts.

(** ** What a result of the reference satisfies *)

Section ReferenceResult.

Variable upper : str -> str.
Variable float_of : json -> option Q.

Lemma wanted_of_order d : subseq (map ccy (wanted_of d)) MAJOR.
Proof.
  unfold wanted_of, MAJOR. cbn [flat_map]. rewrite !map_app. cbn [map].
  repeat (match goal with
          | |- subseq (?m ++ ?rest) (?n :: ?names) =>
            apply (subseq_app _ m [n] rest names)
          end; [ apply subseq_one | ]).
  4: apply subseq_nil.
  all: destruct (dict_get _ _); [ now right | now left ].
Qed.

(** A result of the reference fallback is tagged with the name of the
    source, the day of the run and the address asked; it is never without
    rates (there is no result then), and its rates come in the order USD,
    EUR, RUB, each with its one value as buy and as sell. *)
Theorem reference_result_well_formed (w : world) (br : BankRates) :
  cbu_reference upper float_of w = Return (Some br) ->
  bank br = cbu_bank /\ date br = TODAY w /\ source_url br = cbu_url w
  /\ rates br <> []
  /\ subseq (map ccy (rates br)) [USD; EUR; RUB]
  /\ Forall (fun r => buy r = sell r /\ buy r <> None) (rates br).
Proof.
  intros H.
  destruct (cbu_reference_meta upper float_of w br H) as (H1 & H2 & H3 & H4).
  destruct (cbu_reference_Some upper float_of w br H)
    as (data & xs & d & _ & _ & _ & Hw).
  refine (conj H1 (conj H2 (conj H3 (conj H4 (conj _ _))))).
  - rewrite Hw. apply wanted_of_order.
  - rewrite Hw. apply Forall_forall. intros r Hr.
    destruct (wanted_of_rate d r Hr) as (_ & v & _ & Hb & Hs).
    rewrite Hb, Hs. split; [ reflexivity | discriminate ].
Qed.

End ReferenceResult.

(** ** Debug files that can be written *)

Section DebugTransparent.

Variable upper : str -> str.
Variable float_of : json -> option Q.
Variable isalpha_char : N -> bool.
Variable dump_item : json -> str.

Local Abbreviation used_here := (used upper isalpha_char).
Local Abbreviation main_here := (main upper float_of isalpha_char dump_item).

Lemma fetch_page_saved w w' key url :
  (forall bank_key html, write_debug w bank_key html = Return tt) ->
  DEBUG w' = false ->
  (forall u, fetch_html w u = fetch_html w' u) ->
  fetch_page w key url = fetch_page w' key url.
Proof.
  intros Hw Hd Hf. unfold fetch_page, save_debug. rewrite Hd, Hf.
  destruct (fetch_html w' url) as [ sh | e ]; cbn [bind negb];
    [ | reflexivity ].
  destruct (DEBUG w); cbn [negb]; [ now rewrite Hw | reflexivity ].
Qed.

(** A run with [--debug] whose debug files can all be written leaves the
    same record, and the same rates file, as the run without the flag. *)
Theorem debug_run_writes_the_same (w w' : world) (pre post : list str) :
  isalpha_char 45 = false ->
  tl (argv w) = pre ++ lit "--debug" :: post ->
  tl (argv w') = pre ++ post ->
  DEBUG w' = false ->
  today w = today w' ->
  (forall url, fetch_html w url = fetch_html w' url) ->
  (forall url, get_json w url = get_json w' url) ->
  (forall bank_key html, write_debug w bank_key html = Return tt) ->
  main_here w = main_here w'.
Proof.
  intros Ha Hargv Hargv' Hd Ht Hf Hj Hw.
  assert (Hu : used_here w = used_here w').
  { unfold used.
    now rewrite (ONLY_first_word isalpha_char w Ha),
      (ONLY_first_word isalpha_char w' Ha), Hargv, Hargv', !find_app;
      cbn [find]; rewrite (isalpha_debug isalpha_char Ha). }
  assert (Hy : flat_map (yield w) (used_here w)
               = flat_map (yield w') (used_here w')).
  { rewrite <- Hu. apply flat_map_same. intros fn Hfn. unfold yield.
    rewrite (adapters_same upper w w' Ht
               (fun key url => fetch_page_saved w w' key url Hw Hd Hf) fn);
      [ reflexivity | ].
    exact (used_ADAPTERS upper isalpha_char _ _ Hfn). }
  assert (Hr : cbu_reference upper float_of w = cbu_reference upper float_of w').
  { unfold cbu_reference, cbu_reference_try, cbu_url, TODAY.
    now rewrite Ht, Hj. }
  unfold main. rewrite !main_out_eq. cbv zeta. now rewrite Hy, Hr, Hu.
Qed.

End DebugTransparent.

(* ================================================================== *)
(** * The headers of a request: properties *)
(* ================================================================== *)

Lemma replace_user_agent new :
  replace_text (lit "120.0.0.0") new
    (lit "Mozilla/5.0 (Windows NT 10.0; Win64; x64) "
     ++ lit "AppleWebKit/537.36 (KHTML, like Gecko) "
     ++ lit "Chrome/120.0.0.0 Safari/537.36")
  = lit "Mozilla/5.0 (Windows NT 10.0; Win64; x64) "
    ++ lit "AppleWebKit/537.36 (KHTML, like Gecko) "
    ++ lit "Chrome/" ++ new ++ lit " Safari/537.36".
Proof. vm_compute. reflexivity. Qed.

Lemma tails_four_digits : forallb four_digits tails = true.
Proof. vm_compute. reflexivity. Qed.

Lemma tail_four_digits tail :
  (1000 <= tail <= 9999)%N -> four_digits tail = true.
Proof.
  intros H. apply (proj1 (forallb_forall _ _) tails_four_digits).
  apply in_map_iff. exists (N.to_nat (tail - 1000)).
  split; [ rewrite N2Nat.id; lia | ].
  apply in_seq. lia.
Qed.

(** Whatever number the generator draws, the request goes out with the
    headers of [HEADERS], in their order, but for the User-Agent, whose
    Chrome version [120.0.0.0] has become [12] followed by the four digits
    drawn and [.0.0]: the one occurrence of the version is replaced and
    nothing else. *)
Theorem request_headers_randomised (tail : N) :
  (1000 <= tail <= 9999)%N ->
  exists t,
    List.length t = 4 /\ digits t
    /\ of_digits (map digit_value t) = tail
    /\ request_headers tail
       = Return
           [ (lit "User-Agent",
              lit "Mozilla/5.0 (Windows NT 10.0; Win64; x64) "
              ++ lit "AppleWebKit/537.36 (KHTML, like Gecko) "
              ++ lit "Chrome/12" ++ t ++ lit ".0.0 Safari/537.36");
             (lit "Accept",
              lit "text/html,application/xhtml+xml,application/xml;q=0.9,*/*;q=0.8");
             (lit "Accept-Language", lit "ru-RU,ru;q=0.9,en-US;q=0.8,en;q=0.7");
             (lit "Cache-Control", lit "no-cache");
             (lit "Referer", lit "https://www.google.com/") ].
Proof.
  intros H. apply tail_four_digits in H. unfold four_digits in H.
  apply andb_true_iff in H as [H H3]. apply andb_true_iff in H as [H1 H2].
  exists (str_of_int tail).
  split; [ now apply Nat.eqb_eq | ].
  split; [ now apply Forall_forall, forallb_forall | ].
  split; [ now apply N.eqb_eq | ].
  unfold request_headers.
  assert (Hget : dict_get HEADERS (lit "User-Agent")
                 = Some (lit "Mozilla/5.0 (Windows NT 10.0; Win64; x64) "
                         ++ lit "AppleWebKit/537.36 (KHTML, like Gecko) "
                         ++ lit "Chrome/120.0.0.0 Safari/537.36")).
  { vm_compute. reflexivity. }
  rewrite Hget, replace_user_agent.
  generalize (str_of_int tail). intros t.
  rewrite <- !app_assoc. vm_compute. reflexivity.
Qed.

(* ================================================================== *)
(** * Runs of the program *)
(* ================================================================== *)

Local Open Scope Q_scope.

(** C1 does not hold of Kapitalbank: of the numbers 1, 100, 105 of a row it
    keeps the first two, not the last two. *)
Lemma kapitalbank_reads_first_pair :
  numbers indexed_usd_row = [1; 100; 105]
  /\ kapitalbank_row upper_ascii [] indexed_usd_row
     = [(USD, [mkRate USD (Some 1) (Some 100)])]
  /\ kapitalbank upper_ascii (serving [indexed_usd_row])
     = Return (mkBankRates (lit "Kapitalbank") run_date
                 [mkRate USD (Some 1) (Some 100)]
                 (lit "https://www.kapitalbank.uz/ru/services/exchange-rates-new/")).
Proof. vm_compute. repeat split. Qed.

Lemma row_pair_position_witness :
  hamkorbank_row upper_ascii [] indexed_usd_row
  = [mkRate USD (Some 100) (Some 105)]
  /\ major_row upper_ascii [] indexed_usd_row
     = [mkRate USD (Some 1) (Some 100)].
Proof.
  split.
  - apply (proj1 (row_pair_position upper_ascii indexed_usd_row USD 100 105)
                 [1]); vm_compute; reflexivity.
  - apply (proj2 (row_pair_position upper_ascii indexed_usd_row USD 1 100)
                 [105]); vm_compute; reflexivity.
Defined.

(** C2 does not hold of Kapitalbank: with every address down it raises. *)
Lemma kapitalbank_raises_when_offline :
  (forall url, fetch_page (offline []) (lit "kapitalbank") url
               = Raise (Exception url))
  /\ kapitalbank upper_ascii (offline [])
     = Raise (Exception
                (lit "https://www.kapitalbank.uz/services/exchange-rates-new/")).
Proof. split; [ reflexivity | vm_compute; reflexivity ]. Qed.

Lemma every_url_raises_witness :
  hamkorbank upper_ascii (offline [])
  = Return (mkBankRates (lit "Hamkorbank") run_date []
                        (lit "https://hamkorbank.uz/ru/exchange-rate/"))
  /\ exists e, kapitalbank upper_ascii (offline []) = Raise e
               /\ fetch_page (offline []) (lit "kapitalbank")
                    (lit "https://www.kapitalbank.uz/services/exchange-rates-new/")
                  = Raise e.
Proof.
  destruct (every_url_raises upper_ascii (offline []))
    as (H1 & _ & _ & _ & H5).
  split; [ apply H1 | apply H5 ];
    intros url _; exists (Exception url); reflexivity.
Defined.

(** C3 does not hold: of two USD rows Agrobank, Ipak Yuli Bank and TBC Bank
    keep the second. *)
Lemma agrobank_keeps_last_row :
  row_rates upper_ascii two_usd_rows
  = [mkRate USD (Some 1) (Some 2); mkRate USD (Some 3) (Some 4)]
  /\ agrobank upper_ascii (serving two_usd_rows)
     = Return agrobank_of_two_usd_rows
  /\ rates agrobank_of_two_usd_rows = [mkRate USD (Some 3) (Some 4)]
  /\ ipakyulibank upper_ascii (serving two_usd_rows)
     = Return (mkBankRates (lit "Ipak Yuli Bank") run_date
                 [mkRate USD (Some 3) (Some 4)]
                 (lit "https://ipakyulibank.uz/ru"))
  /\ tbc_bank_uz upper_ascii (serving two_usd_rows)
     = Return (mkBankRates (lit "TBC Bank Uzbekistan") run_date
                 [mkRate USD (Some 3) (Some 4)]
                 (lit "https://tbcbank.uz/ru")).
Proof. vm_compute. repeat split. Qed.

Lemma duplicate_rows_last_wins_witness :
  exists page,
    In (source_url agrobank_of_two_usd_rows) agrobank_urls
    /\ fetch_page (serving two_usd_rows) (lit "agrobank")
                  (source_url agrobank_of_two_usd_rows) = Return page
    /\ rates agrobank_of_two_usd_rows = kept (row_rates upper_ascii (trs page))
    /\ forall r, In r (rates agrobank_of_two_usd_rows) ->
                 last_with (ccy r) (row_rates upper_ascii (trs page)) = Some r.
Proof.
  apply (proj1 (duplicate_rows_last_wins upper_ascii (serving two_usd_rows)
                  agrobank_of_two_usd_rows ltac:(discriminate))
               (lit "agrobank") agrobank_urls (agrobank upper_ascii)).
  - left. reflexivity.
  - vm_compute. reflexivity.
Defined.

(** The specification's example of C5. *)
Example kapitalbank_two_eur_rows :
  kapitalbank upper_ascii (serving two_eur_rows)
  = Return kapitalbank_of_two_eur_rows.
Proof. vm_compute. reflexivity. Qed.

(** Its sums stay within the finite doubles, and its means are whole. *)
Example two_eur_rows_means :
  sums_finite 0 [100; 102] = true /\ sums_finite 0 [105; 107] = true
  /\ mean [100; 102] = 101 /\ mean [105; 107] = 106
  /\ round 101 2 = 101 /\ round 106 2 = 106.
Proof. vm_compute. repeat split. Qed.

(** The doubles nearest to a tenth and to 2.675, which [round] takes to
    2.67. *)
Example binary64_of_decimals :
  binary64 (1 # 10) = 3602879701896397 # 36028797018963968
  /\ binary64 (2675 # 1000) = 3011782250804019 # 1125899906842624
  /\ round (2675 # 1000) 2 = 267 # 100
  /\ round (125 # 1000) 2 = 3 # 25.
Proof. vm_compute. repeat split. Qed.

(** The mean and the rounding follow the doubles: the mean of 12650.01
    and 12650.02 is the double just below 12650.015, and that of 12700.02
    and 12700.03 lies above 12700.025. *)
Example kapitalbank_mean_of_doubles :
  kapitalbank upper_ascii (serving two_usd_rows_of_cents)
  = Return kapitalbank_of_two_usd_rows_of_cents
  /\ mean [1265001 # 100; 1265002 # 100] = 869302411502551 # 68719476736
  /\ (mean [1265001 # 100; 1265002 # 100] < 12650015 # 1000)%Q
  /\ (12700025 # 1000 < mean [1270002 # 100; 1270003 # 100])%Q.
Proof. vm_compute. repeat split. Qed.


(** The specification's example of C6: a GBP row is dropped and the majors
    come in the order USD, EUR, RUB; Kapitalbank's come in the order of
    their codes. *)
Example four_currencies_scraped :
  hamkorbank upper_ascii (serving four_currencies)
  = Return hamkorbank_of_four_currencies
  /\ hamkorbank_row_rates upper_ascii [four_currencies]
     = [mkRate (lit "GBP") (Some 15000) (Some 15500);
        mkRate RUB (Some (261 # 2)) (Some 140);
        mkRate EUR (Some 13500) (Some 13700);
        mkRate USD (Some 12300) (Some 12450)]
  /\ kapitalbank upper_ascii (serving four_currencies)
     = Return (mkBankRates (lit "Kapitalbank") run_date
                 [mkRate EUR (Some 13500) (Some 13700);
                  mkRate RUB (Some (261 # 2)) (Some 140);
                  mkRate USD (Some 12300) (Some 12450)]
                 (lit "https://www.kapitalbank.uz/ru/services/exchange-rates-new/")).
Proof. vm_compute. repeat split. Qed.


(** The specification's fallback scenario (C7, C8): the banks give nothing
    and the reference endpoint gives one USD rate. *)
Example reference_scenario :
  cbu_reference upper_ascii float_of_text (reference_only usd_reference)
  = Return (Some (mkBankRates cbu_bank run_date
                    [mkRate USD (Some 12345) (Some 12345)]
                    (lit "https://cbu.uz/ru/arkhiv-kursov-valyut/json/all/2024-05-17/")))
  /\ main_out upper_ascii float_of_text isalpha_ascii
              (reference_only usd_reference)
     = Return ([entry (mkBankRates cbu_bank run_date
                         [mkRate USD (Some 12345) (Some 12345)]
                         (lit "https://cbu.uz/ru/arkhiv-kursov-valyut/json/all/2024-05-17/"))],
               map Called all_names ++ [CalledReference]).
Proof. vm_compute. repeat split. Qed.


(** The specification's total-failure scenario (C8): the file holds [[]]. *)
Lemma fallback_when_nothing_collected_witness :
  main upper_ascii float_of_text isalpha_ascii dump_braces (offline [])
  = Return (map Called all_names
            ++ [CalledReference; Wrote rates_json (lit "[]")]).
Proof.
  apply (proj2 (proj2 (proj2
           (fallback_when_nothing_collected upper_ascii float_of_text
              isalpha_ascii dump_braces (offline []))))).
  - vm_compute. reflexivity.
  - vm_compute. reflexivity.
Defined.

(** C9: [tbc_bank_uz] on the command line runs all five adapters. *)
Lemma tbc_bank_uz_not_selected_witness :
  ONLY isalpha_ascii (offline [lit "tbc_bank_uz"]) = None
  /\ map name (used upper_ascii isalpha_ascii (offline [lit "tbc_bank_uz"]))
     = all_names.
Proof.
  apply (tbc_bank_uz_not_selected upper_ascii isalpha_ascii
           (offline [lit "tbc_bank_uz"])); reflexivity.
Defined.

(** Only [--debug] on the command line: the five adapters run. *)
Lemma all_adapters_by_default_witness :
  ONLY isalpha_ascii (offline [lit "--debug"]) = None
  /\ map name (used upper_ascii isalpha_ascii (offline [lit "--debug"]))
     = map lit ["hamkorbank"; "agrobank"; "kapitalbank"; "ipakyulibank";
                "tbc_bank_uz"]%string.
Proof.
  apply (all_adapters_by_default upper_ascii isalpha_ascii
           (offline [lit "--debug"])).
  repeat constructor.
Defined.

(** [kapitalbank --debug] runs Kapitalbank alone. *)
Lemma word_selects_its_adapter_witness :
  ONLY isalpha_ascii (offline [lit "kapitalbank"; lit "--debug"])
  = Some (lit "kapitalbank")
  /\ map name (used upper_ascii isalpha_ascii
                 (offline [lit "kapitalbank"; lit "--debug"]))
     = [lit "kapitalbank"].
Proof.
  apply (word_selects_its_adapter upper_ascii isalpha_ascii
           (offline [lit "kapitalbank"; lit "--debug"])
           (lit "kapitalbank") [lit "--debug"]).
  - vm_compute. tauto.
  - vm_compute. reflexivity.
  - reflexivity.
Defined.

(** Without arguments [tbc_bank_uz] runs, with the other four. *)
Lemma tbc_bank_uz_only_with_all_witness :
  ONLY isalpha_ascii (offline []) = None
  /\ map name (used upper_ascii isalpha_ascii (offline [])) = all_names.
Proof.
  apply (tbc_bank_uz_only_with_all upper_ascii isalpha_ascii (offline [])).
  - reflexivity.
  - vm_compute. tauto.
Defined.

(** The other four names select their adapter, and no name selects all. *)
Example names_on_the_command_line :
  map (fun n => map name (used upper_ascii isalpha_ascii (offline [n])))
      (map lit ["hamkorbank"; "agrobank"; "kapitalbank"; "ipakyulibank";
                "--debug"]%string)
  = [[lit "hamkorbank"]; [lit "agrobank"]; [lit "kapitalbank"];
     [lit "ipakyulibank"]; all_names]
  /\ map name (used upper_ascii isalpha_ascii (offline [])) = all_names.
Proof. vm_compute. repeat split. Qed.

(** Classes of characters, decided by running through the text. *)
Lemma Forall_by_bool (p : N -> bool) (b : bool) (l : str) :
  forallb (fun c => Bool.eqb (p c) b) l = true ->
  Forall (fun c => p c = b) l.
Proof.
  intros H. apply Forall_forall. intros c Hc.
  apply Bool.eqb_prop. exact (proj1 (forallb_forall _ l) H c Hc).
Qed.



Lemma rates_well_formed_witness :
  Forall complete (rates hamkorbank_of_four_currencies).
Proof.
  apply Forall_forall.
  apply (proj2 (rates_well_formed upper_ascii float_of_text isalpha_ascii
                  (serving four_currencies))
               (mkAdapter (lit "hamkorbank") (hamkorbank upper_ascii))).
  - left. reflexivity.
  - vm_compute. reflexivity.
Defined.

(** The text of the cell [" 12 345,67 "] that reaches [float]. *)
Lemma float_reads_numeric_text_witness :
  float_argument (lit " 12 345,67 ") = Some (lit "12345.67")
  /\ Forall (fun c => numeric_char c = true) (lit "12345.67").
Proof.
  assert (H : float_argument (lit " 12 345,67 ") = Some (lit "12345.67")).
  { vm_compute. reflexivity. }
  split; [ exact H | ].
  exact (proj2 (float_reads_numeric_text (lit " 12 345,67 "))
               (lit "12345.67") H).
Defined.

(** ** Further runs *)

Lemma embedded_match_is_clean_witness :
  Forall (fun c => blank c = false /\ (c =? comma)%N = false) (lit "1234.50")
  /\ replace comma [dot] (replace space [] (lit "1234.50")) = lit "1234.50".
Proof.
  apply (embedded_match_is_clean (lit "Покупка: 1 234.50 сум")).
  vm_compute. reflexivity.
Defined.

Lemma Forall_or_by_bool (p q : N -> bool) (l : str) :
  forallb (fun c => p c || q c) l = true ->
  Forall (fun c => p c = true \/ q c = true) l.
Proof.
  intros H. apply Forall_forall. intros c Hc.
  apply orb_true_iff. exact (proj1 (forallb_forall _ l) H c Hc).
Qed.

(** Blanks anywhere and a comma for the point: the same number. *)
Example num_ignores_blanks_run :
  _num (lit " 1 2 3 4,5 ") = _num (lit "1234.5")
  /\ _num (lit "1234.5") = Some (2469 # 2).
Proof. vm_compute. split; reflexivity. Qed.

(** [12 345,67] with a narrow no-break space (U+202F) for the thousands
    is not read; [12 3456], grouped in the same way, is read as 12. *)
Lemma num_other_space_grouping_witness :
  _num (49%N :: [50; 8239; 51; 52; 53]%N ++ comma :: 54%N :: [55%N]) = None
  /\ exists D c G',
       unspace [50; 8239; 51; 52; 53]%N = D ++ c :: G'
       /\ digits D /\ other_space c = true
       /\ _num (49%N :: [50; 8239; 51; 52; 53]%N ++ [54%N])
          = Some (Qred (decimal_value (49%N :: D) [])).
Proof.
  assert (HG : Forall (fun c => ascii_digit c = true \/ isspace c = true)
                 [50; 8239; 51; 52; 53]%N).
  { apply Forall_or_by_bool. vm_compute. reflexivity. }
  assert (Hex : Exists (fun c => other_space c = true)
                  [50; 8239; 51; 52; 53]%N).
  { apply Exists_exists. exists 8239%N.
    split; [ vm_compute; tauto | vm_compute; reflexivity ]. }
  destruct (num_other_space_grouping 49%N [50; 8239; 51; 52; 53]%N
              eq_refl HG Hex) as [H1 H2].
  split.
  - apply H1; [ now right | ].
    apply Forall_by_bool. vm_compute. reflexivity.
  - apply H2. reflexivity.
Defined.

(** The runs behind it: a tab or a narrow no-break space between the
    thousands and the hundreds. *)
Example first_group_alone :
  _num (lit "1" ++ 9%N :: lit "234") = Some 1
  /\ _num (lit "12" ++ 8239%N :: lit "650") = Some 12
  /\ _num (lit "12" ++ 8239%N :: lit "650,50") = None.
Proof. vm_compute. repeat split. Qed.

Lemma num_signed_numeral_witness :
  _num (lit " - 1 234,5 ")
  = Some (Qred (- decimal_value (lit "1234") (lit "5"))).
Proof.
  apply (num_signed_numeral (lit " - 1 234,5 ") true 49%N (lit "234") (lit "5")).
  - apply Forall_by_bool. vm_compute. reflexivity.
  - apply Forall_by_bool. vm_compute. reflexivity.
  - vm_compute. reflexivity.
Defined.

(** Integers, signed or not. *)
Example integers_are_read :
  _num (lit "12 300") = Some 12300
  /\ _num (lit "-7") = Some (-7 # 1)
  /\ _num (lit "x -7") = Some 7.
Proof. vm_compute. repeat split. Qed.

Lemma minus_sign_only_in_front_witness :
  exists rest,
    normalized (lit "-0,5") = minus :: rest
    /\ search whole_number (normalized (lit "-0,5")) <> None.
Proof.
  apply (minus_sign_only_in_front (lit "-0,5") (-1 # 2)).
  - vm_compute. reflexivity.
  - vm_compute. reflexivity.
Defined.

Lemma second_separator_ends_the_number_witness :
  _num (49%N :: lit "2" ++ comma :: 51%N :: lit "45" ++ dot :: lit "67")
  = Some (Qred (decimal_value (49%N :: lit "2") (51%N :: lit "45"))).
Proof.
  apply second_separator_ends_the_number.
  - apply Forall_by_bool. vm_compute. reflexivity.
  - apply Forall_by_bool. vm_compute. reflexivity.
  - now right.
  - now left.
Defined.

(** A comma for the thousands: [12,345.67] is read as 12.345. *)
Example thousands_taken_for_units :
  _num (lit "12,345.67") = Some (2469 # 200)
  /\ _num (lit "1.234.567,89") = Some (617 # 500).
Proof. vm_compute. split; reflexivity. Qed.

(** Hamkorbank's first address is down: the rates are those of the
    second. *)
Lemma first_address_with_rates_witness :
  hamkorbank upper_ascii (serving_at hamkorbank_en four_currencies)
  = Return (mkBankRates (lit "Hamkorbank")
              (TODAY (serving_at hamkorbank_en four_currencies))
              (hamkorbank_offer upper_ascii
                 (mkSoup [four_currencies] four_currencies))
              hamkorbank_en).
Proof.
  apply (proj1 (proj2 (first_address_with_rates upper_ascii
                         (serving_at hamkorbank_en four_currencies)))
           [lit "https://hamkorbank.uz/ru/exchange-rate/"] hamkorbank_en []
           (mkSoup [four_currencies] four_currencies)).
  - vm_compute. reflexivity.
  - constructor; [ | constructor ]. vm_compute. exact I.
  - vm_compute. reflexivity.
  - vm_compute. discriminate.
Defined.

(** The run behind it: the rates come under the second address. *)
Example hamkorbank_second_address :
  hamkorbank upper_ascii (serving_at hamkorbank_en four_currencies)
  = Return (mkBankRates (lit "Hamkorbank") run_date
              [mkRate USD (Some 12300) (Some 12450);
               mkRate EUR (Some 13500) (Some 13700);
               mkRate RUB (Some (261 # 2)) (Some 140)]
              hamkorbank_en).
Proof. vm_compute. reflexivity. Qed.

(** Kapitalbank's second address is down and the other three serve pages
    without rates: it raises. *)
Lemma no_address_with_rates_witness :
  kapitalbank upper_ascii (down_at kapitalbank_old)
  = Raise (Exception kapitalbank_old).
Proof.
  apply (proj2 (proj2 (proj2 (no_address_with_rates upper_ascii
                                (down_at kapitalbank_old))))
           [lit "https://www.kapitalbank.uz/ru/services/exchange-rates-new/"]
           kapitalbank_old
           [lit "https://www.kapitalbank.uz/en/services/exchange-rates-new/";
            lit "https://www.kapitalbank.uz/services/exchange-rates-new/"]).
  - vm_compute. reflexivity.
  - constructor; [ | constructor ]. vm_compute. reflexivity.
  - vm_compute. reflexivity.
  - repeat constructor; exists (mkSoup [] []); split; vm_compute; reflexivity.
Defined.

(** Agrobank in the same state, its second address down and the others
    without rates, returns no rates. *)
Example agrobank_with_an_address_down :
  agrobank upper_ascii (down_at (lit "https://agrobank.uz/ru/individuals"))
  = Return (mkBankRates (lit "Agrobank") run_date []
                        (lit "https://agrobank.uz/ru/person")).
Proof. vm_compute. reflexivity. Qed.

Lemma adapter_result_well_formed_witness :
  exists b urls,
    In (lit "hamkorbank", b, urls) banks
    /\ well_formed b run_date urls hamkorbank_of_four_currencies.
Proof.
  apply (adapter_result_well_formed upper_ascii (serving four_currencies)
           (mkAdapter (lit "hamkorbank") (hamkorbank upper_ascii))
           hamkorbank_of_four_currencies).
  - left. reflexivity.
  - vm_compute. reflexivity.
Defined.

(** Hamkorbank with the other banks down. *)
Lemma adapter_reads_only_its_addresses_witness :
  hamkorbank upper_ascii (serving four_currencies)
  = hamkorbank upper_ascii (serving_only hamkorbank_urls four_currencies).
Proof.
  apply (proj1 (proj2 (adapter_reads_only_its_addresses upper_ascii
                         (serving four_currencies)
                         (serving_only hamkorbank_urls four_currencies)))).
  refine (conj eq_refl (conj eq_refl (conj (fun _ _ => eq_refl) _))).
  intros url Hin. unfold serving, serving_only. cbn [fetch_html].
  now rewrite (proj2 (mem_In url hamkorbank_urls) Hin).
Defined.

Lemma kapitalbank_groups_witness :
  In EUR MAJOR
  /\ [mkRate EUR (Some 100) (Some 105); mkRate EUR (Some 102) (Some 107)]
     = filter (has_ccy EUR) (row_rates upper_ascii two_eur_rows)
  /\ [mkRate EUR (Some 100) (Some 105); mkRate EUR (Some 102) (Some 107)] <> []
  /\ Forall complete
            [mkRate EUR (Some 100) (Some 105); mkRate EUR (Some 102) (Some 107)]
  /\ List.length (not_none (map buy
       [mkRate EUR (Some 100) (Some 105); mkRate EUR (Some 102) (Some 107)]))
     = List.length
         [mkRate EUR (Some 100) (Some 105); mkRate EUR (Some 102) (Some 107)]
  /\ List.length (not_none (map sell
       [mkRate EUR (Some 100) (Some 105); mkRate EUR (Some 102) (Some 107)]))
     = List.length
         [mkRate EUR (Some 100) (Some 105); mkRate EUR (Some 102) (Some 107)].
Proof.
  apply (kapitalbank_groups upper_ascii two_eur_rows).
  vm_compute. left. reflexivity.
Defined.

Lemma no_debug_files_without_flag_witness :
  main upper_ascii float_of_text isalpha_ascii dump_braces
       (serving four_currencies)
  = main upper_ascii float_of_text isalpha_ascii dump_braces
         (read_only (serving four_currencies)).
Proof.
  apply no_debug_files_without_flag.
  - vm_compute. reflexivity.
  - repeat split.
Defined.

Lemma failing_debug_files_lose_the_pages_witness :
  (forall fn, In fn (ADAPTERS upper_ascii) ->
              yield (with_debug (read_only (serving four_currencies))) fn = [])
  /\ main upper_ascii float_of_text isalpha_ascii dump_braces
          (with_debug (read_only (serving four_currencies)))
     = Return (map Called
                 (map name
                    (used upper_ascii isalpha_ascii
                       (with_debug (read_only (serving four_currencies)))))
               ++ [CalledReference;
                   Wrote rates_json
                     (json_dump dump_braces
                        (reference_doc upper_ascii float_of_text
                           (with_debug
                              (read_only (serving four_currencies)))))]).
Proof.
  apply failing_debug_files_lose_the_pages.
  - vm_compute. reflexivity.
  - intros bank_key html. eexists. reflexivity.
Defined.

(** With the debug directory out of reach, the pages that gave five
    entries give none. *)
Example debug_directory_out_of_reach :
  List.length (flat_map (yield (serving four_currencies))
                        (ADAPTERS upper_ascii)) = 5%nat
  /\ main upper_ascii float_of_text isalpha_ascii dump_braces
          (with_debug (read_only (serving four_currencies)))
     = Return (map Called all_names
               ++ [CalledReference; Wrote rates_json (lit "[]")]).
Proof. vm_compute. split; reflexivity. Qed.

Lemma unknown_name_runs_nothing_witness :
  used upper_ascii isalpha_ascii (offline [lit "Hamkorbank"]) = []
  /\ main upper_ascii float_of_text isalpha_ascii dump_braces
          (offline [lit "Hamkorbank"])
     = Return [CalledReference;
               Wrote rates_json
                 (json_dump dump_braces
                    (reference_doc upper_ascii float_of_text
                       (offline [lit "Hamkorbank"])))].
Proof.
  apply (unknown_name_runs_nothing upper_ascii float_of_text isalpha_ascii
           dump_braces (offline [lit "Hamkorbank"]) (lit "Hamkorbank")).
  - vm_compute. reflexivity.
  - vm_compute. intuition discriminate.
Defined.

Lemma debug_flag_anywhere_witness :
  DEBUG (offline [lit "--debug"; lit "agrobank"]) = true
  /\ ONLY isalpha_ascii (offline [lit "--debug"; lit "agrobank"])
     = find (isalpha isalpha_ascii) ([] ++ [lit "agrobank"])
  /\ ONLY isalpha_ascii (offline [lit "--debug"; lit "agrobank"])
     = ONLY isalpha_ascii (offline [lit "agrobank"])
  /\ used upper_ascii isalpha_ascii (offline [lit "--debug"; lit "agrobank"])
     = used upper_ascii isalpha_ascii (offline [lit "agrobank"]).
Proof.
  apply (debug_flag_anywhere upper_ascii isalpha_ascii
           (offline [lit "--debug"; lit "agrobank"])
           (offline [lit "agrobank"]) [] [lit "agrobank"]);
    reflexivity.
Defined.

Lemma one_refused_element_voids_the_reference_witness :
  cbu_reference upper_ascii float_of_text
                (reference_only (JList gbp_without_rate))
  = Return None.
Proof.
  apply (one_refused_element_voids_the_reference upper_ascii float_of_text
           (reference_only (JList gbp_without_rate)) gbp_without_rate).
  - reflexivity.
  - apply Exists_cons_tl, Exists_cons_hd.
    apply (@refused_no_rate float_of_text _ (lit "GBP")).
    + vm_compute. reflexivity.
    + vm_compute. discriminate.
    + vm_compute. reflexivity.
Defined.

(** Without the element that cannot be read, the reference gives the
    rate of USD. *)
Example reference_without_the_refused_element :
  cbu_reference upper_ascii float_of_text
                (reference_only (JList (firstn 1 gbp_without_rate)))
  = Return (Some cbu_of_usd_reference).
Proof. vm_compute. reflexivity. Qed.

Lemma reference_data_must_be_a_list_witness :
  cbu_reference upper_ascii float_of_text
                (reference_only (JDict [(lit "error", JStr (lit "not found"))]))
  = Return None.
Proof.
  apply (reference_data_must_be_a_list upper_ascii float_of_text
           (reference_only (JDict [(lit "error", JStr (lit "not found"))]))
           (JDict [(lit "error", JStr (lit "not found"))])).
  - reflexivity.
  - intros xs. discriminate.
Defined.

Lemma document_entries_witness :
  exists brs,
    [entry cbu_of_usd_reference] = map entry brs
    /\ Forall (fun br => rates br <> [] /\ date br = run_date) brs
    /\ (subseq (map bank brs) bank_names
        \/ exists ref,
            brs = [ref] /\ bank ref = cbu_bank
            /\ cbu_reference upper_ascii float_of_text
                             (reference_only usd_reference)
               = Return (Some ref)).
Proof.
  apply (document_entries upper_ascii float_of_text isalpha_ascii
           (reference_only usd_reference) [entry cbu_of_usd_reference]
           (map Called all_names ++ [CalledReference])).
  vm_compute. reflexivity.
Defined.

Lemma request_headers_randomised_witness :
  exists t,
    List.length t = 4%nat /\ digits t
    /\ of_digits (map digit_value t) = 4821%N
    /\ request_headers 4821
       = Return
           [ (lit "User-Agent",
              lit "Mozilla/5.0 (Windows NT 10.0; Win64; x64) "
              ++ lit "AppleWebKit/537.36 (KHTML, like Gecko) "
              ++ lit "Chrome/12" ++ t ++ lit ".0.0 Safari/537.36");
             (lit "Accept",
              lit "text/html,application/xhtml+xml,application/xml;q=0.9,*/*;q=0.8");
             (lit "Accept-Language", lit "ru-RU,ru;q=0.9,en-US;q=0.8,en;q=0.7");
             (lit "Cache-Control", lit "no-cache");
             (lit "Referer", lit "https://www.google.com/") ].
Proof. apply request_headers_randomised. lia. Defined.

(** The User-Agent when 4821 is drawn. *)
Example request_headers_of_4821 :
  request_headers 4821
  = Return
      [ (lit "User-Agent",
         lit "Mozilla/5.0 (Windows NT 10.0; Win64; x64) "
         ++ lit "AppleWebKit/537.36 (KHTML, like Gecko) "
         ++ lit "Chrome/124821.0.0 Safari/537.36");
        (lit "Accept",
         lit "text/html,application/xhtml+xml,application/xml;q=0.9,*/*;q=0.8");
        (lit "Accept-Language", lit "ru-RU,ru;q=0.9,en-US;q=0.8,en;q=0.7");
        (lit "Cache-Control", lit "no-cache");
        (lit "Referer", lit "https://www.google.com/") ].
Proof. vm_compute. reflexivity. Qed.

Lemma reference_result_well_formed_witness :
  bank cbu_of_usd_reference = cbu_bank
  /\ date cbu_of_usd_reference = TODAY (reference_only usd_reference)
  /\ source_url cbu_of_usd_reference = cbu_url (reference_only usd_reference)
  /\ rates cbu_of_usd_reference <> []
  /\ subseq (map ccy (rates cbu_of_usd_reference)) [USD; EUR; RUB]
  /\ Forall (fun r => buy r = sell r /\ buy r <> None)
            (rates cbu_of_usd_reference).
Proof.
  apply (reference_result_well_formed upper_ascii float_of_text
           (reference_only usd_reference) cbu_of_usd_reference).
  vm_compute. reflexivity.
Defined.

Lemma debug_run_writes_the_same_witness :
  main upper_ascii float_of_text isalpha_ascii dump_braces
       (with_debug (serving four_currencies))
  = main upper_ascii float_of_text isalpha_ascii dump_braces
         (serving four_currencies).
Proof.
  apply (debug_run_writes_the_same upper_ascii float_of_text isalpha_ascii
           dump_braces (with_debug (serving four_currencies))
           (serving four_currencies) [] []).
  - vm_compute. reflexivity.
  - vm_compute. reflexivity.
  - vm_compute. reflexivity.
  - vm_compute. reflexivity.
  - reflexivity.
  - intros url. reflexivity.
  - intros url. reflexivity.
  - intros bank_key html. reflexivity.
Defined.
